(** * axon: a shallow embedding of the WebSocket runtime

    The development follows the Go sources of kolosys/axon: the frame codec
    ([readFrameHeader], [readFrame], [writeFrame], [maskBytes]), close codes
    (close.go), the connection state machine ([stateManager]), the offline
    message queue ([MessageQueue]), the accept-key derivation (axon.go),
    per-message compression (compression.go) and the typed connection
    ([Conn.Read], [Conn.Write]).

    Conventions.
    - A Go [byte] is a [Z] in [0, 256); a [[]byte] and a Go [string] are
      [list Z].  Go's [int] is the 64-bit one.
    - [io.Reader] over a connection is the list of bytes the peer sends
      before the stream ends; [io.Writer] is the list of bytes put on the
      wire.  Transport writes and deadline setters do not fail.
    - A function that returns [(v, error)] returns [result]; a run-time
      panic (index or slice out of range) is the error [runtime_panic]. *)

From Stdlib Require Import String Ascii ZArith Zbitwise List Lia Bool Zify ZifyNat.
Import ListNotations.
Local Open Scope Z_scope.

(** ** Errors and results *)

Inductive error : Type :=
| io_EOF
| io_ErrUnexpectedEOF
| flate_CorruptInputError
| flate_InternalError
| runtime_panic
| ErrInvalidFrame
| ErrUnsupportedFrameType
| ErrFragmentedControlFrame
| ErrFrameTooLarge
| ErrMessageTooLarge
| ErrConnectionClosed
| ErrContextCanceled
| ErrSerializationFailed
| ErrDeserializationFailed
| ErrQueueFull
| ErrQueueClosed
| ErrQueueTimeout
| ErrQueueCleared
| context_Canceled
| ErrExternal (tag : nat).

Inductive result (A : Type) : Type :=
| Ok (a : A)
| Err (e : error).
Arguments Ok {A} a.
Arguments Err {A} e.

Declare Scope result_scope.
Delimit Scope result_scope with result.
Notation "'do' x <- c1 ; c2" :=
  (match c1 with Ok x => c2 | Err e => Err e end)
  (at level 10, x pattern, c1 at level 100, c2 at level 200) : result_scope.
Local Open Scope result_scope.

(** ** Bytes, slices and big-endian integers *)

Definition is_byte (b : Z) : Prop := 0 <= b < 256.
Definition bytes (l : list Z) : Prop := Forall is_byte l.

(** [byte(v)], [uint16(v)], [uint64(v)]: conversions keep the low bits. *)
Definition to_byte (v : Z) : Z := v mod 256.
Definition to_uint16 (v : Z) : Z := v mod 65536.
Definition to_uint64 (v : Z) : Z := v mod 18446744073709551616.

(** [len(s)] as a Go int. *)
Definition len (s : list Z) : Z := Z.of_nat (length s).

(** encoding/binary, BigEndian *)
Definition BigEndian_Uint16 (b : list Z) : Z :=
  Z.lor (nth 1 b 0) (Z.shiftl (nth 0 b 0) 8).

Definition BigEndian_Uint32 (b : list Z) : Z :=
  Z.lor (Z.lor (Z.lor (nth 3 b 0) (Z.shiftl (nth 2 b 0) 8))
               (Z.shiftl (nth 1 b 0) 16))
        (Z.shiftl (nth 0 b 0) 24).

Definition BigEndian_PutUint16 (v : Z) : list Z :=
  [to_byte (Z.shiftr v 8); to_byte v].

Definition BigEndian_PutUint64 (v : Z) : list Z :=
  [to_byte (Z.shiftr v 56); to_byte (Z.shiftr v 48);
   to_byte (Z.shiftr v 40); to_byte (Z.shiftr v 32);
   to_byte (Z.shiftr v 24); to_byte (Z.shiftr v 16);
   to_byte (Z.shiftr v 8); to_byte v].

(** [copy(buf[off:], src)] for a source that fits: the bytes of [src] replace
    those of [buf] from [off] on. *)
Definition put_at (buf : list Z) (off : nat) (src : list Z) : list Z :=
  firstn off buf ++ src ++ skipn (off + length src) buf.

(** ** io.Reader, io.ReadFull *)

Definition Reader := list Z.

(** [io.ReadFull(r, buf[:n])]: exactly [n] bytes, [io.EOF] when none could be
    read, [io.ErrUnexpectedEOF] when the stream ends early. *)
Definition io_ReadFull (r : Reader) (n : nat) : result (list Z * Reader) :=
  if (n =? 0)%nat then Ok ([], r)
  else match r with
       | [] => Err io_EOF
       | _ :: _ =>
           if (length r <? n)%nat then Err io_ErrUnexpectedEOF
           else Ok (firstn n r, skipn n r)
       end.

(** ** Frame codec *)

Definition opContinuation : Z := 0x0.
Definition opText : Z := 0x1.
Definition opBinary : Z := 0x2.
Definition opClose : Z := 0x8.
Definition opPing : Z := 0x9.
Definition opPong : Z := 0xA.

Definition finMask : Z := 0x80.
Definition rsvMask : Z := 0x70.
Definition opMask : Z := 0x0F.

Record Frame : Type := mkFrame {
  Fin : bool;
  Rsv1 : bool;
  Rsv2 : bool;
  Rsv3 : bool;
  Opcode : Z;
  Masked : bool;
  MaskKey : list Z;
  Payload : list Z
}.

Definition set_MaskKey (f : Frame) (k : list Z) : Frame :=
  mkFrame (Fin f) (Rsv1 f) (Rsv2 f) (Rsv3 f) (Opcode f) (Masked f) k (Payload f).

Definition set_Payload (f : Frame) (p : list Z) : Frame :=
  mkFrame (Fin f) (Rsv1 f) (Rsv2 f) (Rsv3 f) (Opcode f) (Masked f) (MaskKey f) p.

(** [x & m != 0] *)
Definition bit_set (x m : Z) : bool := negb (Z.land x m =? 0).

(** The extended payload length of readFrameHeader's [switch payloadLen]. *)
Definition readPayloadLen (payloadLen : Z) (r : Reader) : result (Z * Reader) :=
  if payloadLen =? 126 then
    do (b, r') <- io_ReadFull r 2;
    Ok (BigEndian_Uint16 b, r')
  else if payloadLen =? 127 then
    do (b, r') <- io_ReadFull r 8;
    if negb (nth 0 b 0 =? 0) || negb (nth 1 b 0 =? 0)
       || negb (nth 2 b 0 =? 0) || negb (nth 3 b 0 =? 0)
    then Err ErrFrameTooLarge
    else Ok (BigEndian_Uint32 (skipn 4 b), r')
  else Ok (payloadLen, r).

(** readFrameHeader.  The scratch buffer only carries the header bytes just
    read, so the model reads them from the stream directly; [MaskKey] is the
    four bytes read, [Payload] is [make([]byte, payloadLen)]. *)
Definition readFrameHeader (r : Reader) : result (Frame * Reader) :=
  do (hd, r1) <- io_ReadFull r 2;
  let b0 := nth 0 hd 0 in
  let b1 := nth 1 hd 0 in
  let frame := {| Fin := bit_set b0 finMask;
                  Rsv1 := bit_set b0 0x40;
                  Rsv2 := bit_set b0 0x20;
                  Rsv3 := bit_set b0 0x10;
                  Opcode := Z.land b0 opMask;
                  Masked := bit_set b1 0x80;
                  MaskKey := [];
                  Payload := [] |} in
  if bit_set b0 rsvMask then Err ErrInvalidFrame
  else if (Opcode frame >? 0x7) && (Opcode frame <? 0x8)
  then Err ErrUnsupportedFrameType
  else if Opcode frame >? 0xA then Err ErrUnsupportedFrameType
  else if (Opcode frame >=? 0x8) && negb (Fin frame)
  then Err ErrFragmentedControlFrame
  else
    do (payloadLen, r2) <- readPayloadLen (Z.land b1 0x7F) r1;
    do (frame', r3) <-
       (if Masked frame then
          do (k, r') <- io_ReadFull r2 4;
          Ok (set_MaskKey frame k, r')
        else Ok (frame, r2));
    Ok (set_Payload frame' (repeat 0 (Z.to_nat payloadLen)), r3).

(** maskBytes: [payload[i] ^= mask[i%4]]. *)
Fixpoint maskFrom (i : nat) (payload mask : list Z) : list Z :=
  match payload with
  | [] => []
  | p :: ps => Z.lxor p (nth (i mod 4) mask 0) :: maskFrom (S i) ps mask
  end.

(** Indexing [mask[i%4]] panics when the key is shorter than the indices the
    loop reaches. *)
Definition maskBytes (payload mask : list Z) : result (list Z) :=
  if (length mask <? Nat.min 4 (length payload))%nat then Err runtime_panic
  else Ok (maskFrom 0 payload mask).

(** readFrame *)
Definition readFrame (r : Reader) (maxSize : Z) : result (Frame * Reader) :=
  do (frame, r1) <- readFrameHeader r;
  if len (Payload frame) >? maxSize then Err ErrFrameTooLarge
  else if len (Payload frame) >? 0 then
    do (p, r2) <- io_ReadFull r1 (length (Payload frame));
    if Masked frame then
      do p' <- maskBytes p (MaskKey frame);
      Ok (set_Payload frame p', r2)
    else Ok (set_Payload frame p, r2)
  else Ok (frame, r1).

(** writeFrame.  [w] holds the bytes written so far, [buf] is the scratch
    buffer the header is assembled in (slicing it past its end panics).  The
    result is the writer and the scratch buffer afterwards. *)
Definition Writer := list Z.

Definition writeFrame (w : Writer) (buf : list Z) (frame : Frame)
  : result (Writer * list Z) :=
  let b0 := 0 in
  let b0 := if Fin frame then Z.lor b0 finMask else b0 in
  let b0 := if Rsv1 frame then Z.lor b0 0x40 else b0 in
  let b0 := if Rsv2 frame then Z.lor b0 0x20 else b0 in
  let b0 := if Rsv3 frame then Z.lor b0 0x10 else b0 in
  let b0 := Z.lor b0 (Z.land (Opcode frame) opMask) in
  let payloadLen := len (Payload frame) in
  let b1 := if Masked frame then 0x80 else 0 in
  let '(b1, ext) :=
    if payloadLen <? 126 then (Z.lor b1 (to_byte payloadLen), [])
    else if payloadLen <? 65536
         then (Z.lor b1 126, BigEndian_PutUint16 (to_uint16 payloadLen))
         else (Z.lor b1 127, BigEndian_PutUint64 (to_uint64 payloadLen)) in
  let headerSize := (2 + length ext)%nat in
  let key := if Masked frame then firstn 4 (MaskKey frame) else [] in
  let headerSize' := if Masked frame then (headerSize + 4)%nat else headerSize in
  if (length buf <? headerSize')%nat then Err runtime_panic
  else
    let buf1 := put_at buf 0 (b0 :: b1 :: ext) in
    let buf2 := put_at buf1 headerSize key in
    Ok (w ++ firstn headerSize' buf2 ++ Payload frame, buf2).


(** A frame is syntactically valid when its opcode is assigned, a control
    frame is final and short, the reserved bits are clear, the mask key is
    there exactly when the frame is masked, and the payload length fits 32
    bits. *)
Definition valid_opcode (op : Z) : Prop :=
  In op [opContinuation; opText; opBinary; opClose; opPing; opPong].

Record valid_frame (f : Frame) : Prop := mkValidFrame {
  vf_opcode : valid_opcode (Opcode f);
  vf_control : 8 <= Opcode f -> Fin f = true /\ len (Payload f) <= 125;
  vf_rsv : Rsv1 f = false /\ Rsv2 f = false /\ Rsv3 f = false;
  vf_key : if Masked f
           then length (MaskKey f) = 4%nat /\ bytes (MaskKey f)
           else MaskKey f = [];
  vf_payload : bytes (Payload f);
  vf_len : len (Payload f) <= 4294967295
}.

(** What readFrame hands back for a frame written by writeFrame: the frame
    with its payload unmasked. *)
Definition unmasked (f : Frame) : Frame :=
  set_Payload f (if Masked f then maskFrom 0 (Payload f) (MaskKey f)
                 else Payload f).

(** ** Close codes (close.go) *)

Definition CloseCode := Z.

Definition CloseNormalClosure : CloseCode := 1000.
Definition CloseGoingAway : CloseCode := 1001.
Definition CloseProtocolError : CloseCode := 1002.
Definition CloseUnsupportedData : CloseCode := 1003.
Definition CloseNoStatusReceived : CloseCode := 1005.
Definition CloseAbnormalClosure : CloseCode := 1006.
Definition CloseInvalidPayloadData : CloseCode := 1007.
Definition ClosePolicyViolation : CloseCode := 1008.
Definition CloseMessageTooBig : CloseCode := 1009.
Definition CloseMandatoryExtension : CloseCode := 1010.
Definition CloseInternalError : CloseCode := 1011.
Definition CloseServiceRestart : CloseCode := 1012.
Definition CloseTryAgainLater : CloseCode := 1013.
Definition CloseBadGateway : CloseCode := 1014.
Definition CloseTLSHandshake : CloseCode := 1015.

(** [case a, b, c:] of a Go switch *)
Fixpoint case_of (c : Z) (l : list Z) : bool :=
  match l with
  | [] => false
  | x :: l' => (c =? x) || case_of c l'
  end.

Definition IsReserved (c : CloseCode) : bool :=
  if case_of c [CloseNoStatusReceived; CloseAbnormalClosure; CloseTLSHandshake]
  then true else false.

Definition IsValid (c : CloseCode) : bool :=
  if IsReserved c then false
  else ((c >=? 1000) && (c <=? 1015)) || ((c >=? 3000) && (c <? 5000)).

Definition IsRecoverable (c : CloseCode) : bool :=
  if case_of c [CloseNormalClosure] then false
  else if case_of c [CloseGoingAway] then true
  else if case_of c [CloseProtocolError; CloseUnsupportedData;
                     CloseInvalidPayloadData] then false
  else if case_of c [ClosePolicyViolation] then false
  else if case_of c [CloseMessageTooBig] then false
  else if case_of c [CloseMandatoryExtension] then false
  else if case_of c [CloseInternalError] then true
  else if case_of c [CloseServiceRestart; CloseTryAgainLater] then true
  else if case_of c [CloseBadGateway] then true
  else if case_of c [CloseAbnormalClosure; CloseNoStatusReceived] then true
  else c >=? 4000.

(** ** Connection state machine *)

Inductive ConnectionState : Type :=
| StateDisconnected
| StateConnecting
| StateConnected
| StateReconnecting
| StateClosing
| StateClosed.

Definition ConnectionState_eqb (a b : ConnectionState) : bool :=
  match a, b with
  | StateDisconnected, StateDisconnected
  | StateConnecting, StateConnecting
  | StateConnected, StateConnected
  | StateReconnecting, StateReconnecting
  | StateClosing, StateClosing
  | StateClosed, StateClosed => true
  | _, _ => false
  end.

Record StateChange : Type := mkStateChange {
  From : ConnectionState;
  To : ConnectionState;
  Time : Z;
  SCErr : option error;
  Attempt : Z;
  SessionID : string
}.

(** A handler is known by its identity; calling it is recorded, in order, in
    [delivered].  [None] among the handlers is a nil handler. *)
Record stateManager : Type := mkStateManager {
  state : ConnectionState;
  sessionID : string;
  handlers : list (option nat);
  delivered : list (nat * StateChange)
}.

Definition newStateManager : stateManager :=
  mkStateManager StateDisconnected EmptyString [] [].

Definition State (sm : stateManager) : ConnectionState := state sm.

Definition OnStateChange (sm : stateManager) (handler : option nat) : stateManager :=
  match handler with
  | Some h => mkStateManager (state sm) (sessionID sm)
                (handlers sm ++ [Some h]) (delivered sm)
  | None => sm
  end.

(** [for _, h := range sm.handlers { if h != nil { h(change) } }] *)
Fixpoint notify (hs : list (option nat)) (change : StateChange)
  : list (nat * StateChange) :=
  match hs with
  | [] => []
  | Some h :: hs' => (h, change) :: notify hs' change
  | None :: hs' => notify hs' change
  end.

(** transition: compare-and-swap on the state, then the handlers. *)
Definition transition (sm : stateManager) (from to : ConnectionState)
    (err : option error) (attempt : Z) (now : Z) : stateManager * bool :=
  if negb (ConnectionState_eqb (state sm) from) then (sm, false)
  else
    let change := mkStateChange from to now err attempt (sessionID sm) in
    (mkStateManager to (sessionID sm) (handlers sm)
       (delivered sm ++ notify (handlers sm) change), true).

(** forceTransition: swap, the handlers run when the state changed. *)
Definition forceTransition (sm : stateManager) (to : ConnectionState)
    (err : option error) (attempt : Z) (now : Z)
  : stateManager * ConnectionState :=
  let from := state sm in
  if negb (ConnectionState_eqb from to) then
    let change := mkStateChange from to now err attempt (sessionID sm) in
    (mkStateManager to (sessionID sm) (handlers sm)
       (delivered sm ++ notify (handlers sm) change), from)
  else (mkStateManager to (sessionID sm) (handlers sm) (delivered sm), from).

Definition validTransitions (s : ConnectionState) : list ConnectionState :=
  match s with
  | StateDisconnected => [StateConnecting; StateClosed]
  | StateConnecting => [StateConnected; StateDisconnected; StateClosed]
  | StateConnected =>
      [StateDisconnected; StateReconnecting; StateClosing; StateClosed]
  | StateReconnecting =>
      [StateConnecting; StateConnected; StateDisconnected; StateClosed]
  | StateClosing => [StateClosed]
  | StateClosed => []
  end.

Definition isValidTransition (from to : ConnectionState) : bool :=
  existsb (fun s => ConnectionState_eqb s to) (validTransitions from).

(** ** Offline message queue *)

(** [atomic.Int64.Add]: two's complement addition on 64 bits. *)
Definition wrap64 (z : Z) : Z :=
  (z + 9223372036854775808) mod 18446744073709551616 - 9223372036854775808.
Definition add64 (x y : Z) : Z := wrap64 (x + y).

Module Queue.
Section WithTypes.

(** [T] is the message type, [Ctx] the contexts callers pass, [World]
    whatever the send function and the contexts depend on. *)
Variables T Ctx World : Type.

Record queuedMessage : Type := mkQueuedMessage {
  msg : T;
  ctx : option Ctx;
  errCh : nat;
  timeout : Z
}.

(** [signals] records, in order, the value sent on each result channel; the
    channel is closed right after its value.  [nextCh] names the next
    channel [make] returns. *)
Record MessageQueue : Type := mkMessageQueue {
  queue : list queuedMessage;
  maxSize : Z;
  mqTimeout : Z;
  dropped : Z;
  enqueued : Z;
  sent : Z;
  closed : bool;
  signals : list (nat * option error);
  nextCh : nat
}.

Definition newMessageQueue (maxSize timeout : Z) : MessageQueue :=
  let maxSize := if maxSize <=? 0 then 100 else maxSize in
  let timeout := if timeout <=? 0 then 30000000000 else timeout in
  mkMessageQueue [] maxSize timeout 0 0 0 false [] 0.

Definition Size (mq : MessageQueue) : Z := Z.of_nat (length (queue mq)).

Definition with_queue (mq : MessageQueue) (q : list queuedMessage) :=
  mkMessageQueue q (maxSize mq) (mqTimeout mq) (dropped mq) (enqueued mq)
    (sent mq) (closed mq) (signals mq) (nextCh mq).

Definition add_dropped (mq : MessageQueue) (n : Z) :=
  mkMessageQueue (queue mq) (maxSize mq) (mqTimeout mq)
    (add64 (dropped mq) n) (enqueued mq) (sent mq) (closed mq)
    (signals mq) (nextCh mq).

Definition add_sent (mq : MessageQueue) (n : Z) :=
  mkMessageQueue (queue mq) (maxSize mq) (mqTimeout mq) (dropped mq)
    (enqueued mq) (add64 (sent mq) n) (closed mq) (signals mq) (nextCh mq).

(** [ch <- v; close(ch)] *)
Definition signal (mq : MessageQueue) (ch : nat) (v : option error) :=
  mkMessageQueue (queue mq) (maxSize mq) (mqTimeout mq) (dropped mq)
    (enqueued mq) (sent mq) (closed mq) (signals mq ++ [(ch, v)]) (nextCh mq).

(** Enqueue at time [now]. *)
Definition Enqueue (mq : MessageQueue) (now : Z) (c : option Ctx) (m : T)
  : result nat * MessageQueue :=
  if closed mq then (Err ErrQueueClosed, mq)
  else if Size mq >=? maxSize mq then (Err ErrQueueFull, add_dropped mq 1)
  else
    let ch := nextCh mq in
    let qm := mkQueuedMessage m c ch (now + mqTimeout mq) in
    (Ok ch,
     mkMessageQueue (queue mq ++ [qm]) (maxSize mq) (mqTimeout mq)
       (dropped mq) (add64 (enqueued mq) 1) (sent mq) (closed mq)
       (signals mq) (S ch)).

(** The loop of Flush over the entries taken out of the queue.  [ctxErr] is
    [ctx.Err()], [sendFn] the send function; both may depend on, and the
    send may change, the world. *)
Fixpoint flushLoop (sendFn : World -> option Ctx -> T -> option error * World)
    (ctxErr : World -> Ctx -> option error) (now : Z)
    (q : list queuedMessage) (mq : MessageQueue) (w : World)
  : MessageQueue * World :=
  match q with
  | [] => (mq, w)
  | qm :: q' =>
      if now >? timeout qm then
        flushLoop sendFn ctxErr now q'
          (add_dropped (signal mq (errCh qm) (Some ErrQueueTimeout)) 1) w
      else
        match match ctx qm with
              | Some c => ctxErr w c
              | None => None
              end with
        | Some e =>
            flushLoop sendFn ctxErr now q'
              (add_dropped (signal mq (errCh qm) (Some e)) 1) w
        | None =>
            let '(err, w') := sendFn w (ctx qm) (msg qm) in
            let mq' := signal mq (errCh qm) err in
            flushLoop sendFn ctxErr now q'
              (match err with
               | None => add_sent mq' 1
               | Some _ => add_dropped mq' 1
               end) w'
        end
  end.

Definition Flush (mq : MessageQueue)
    (sendFn : World -> option Ctx -> T -> option error * World)
    (ctxErr : World -> Ctx -> option error) (now : Z) (w : World)
  : MessageQueue * World :=
  flushLoop sendFn ctxErr now (queue mq) (with_queue mq []) w.

Definition Clear (mq : MessageQueue) : MessageQueue :=
  let mq1 :=
    fold_left (fun m qm => signal m (errCh qm) (Some ErrQueueCleared))
      (queue mq) mq in
  with_queue (add_dropped mq1 (Z.of_nat (length (queue mq)))) [].

Definition Close (mq : MessageQueue) : MessageQueue :=
  if closed mq then mq
  else
    Clear (mkMessageQueue (queue mq) (maxSize mq) (mqTimeout mq) (dropped mq)
             (enqueued mq) (sent mq) true (signals mq) (nextCh mq)).

(** One call on the queue, and a run of calls one after the other. *)
Inductive call : Type :=
| CallEnqueue (now : Z) (c : option Ctx) (m : T)
| CallFlush (sendFn : World -> option Ctx -> T -> option error * World)
            (ctxErr : World -> Ctx -> option error) (now : Z)
| CallClear
| CallClose.

(** [rejected] counts the Enqueue calls that returned ErrQueueFull. *)
Record run_state : Type := mkRun {
  mq_of : MessageQueue;
  world_of : World;
  rejected : Z
}.

Definition step (s : run_state) (c : call) : run_state :=
  match c with
  | CallEnqueue now cx m =>
      match Enqueue (mq_of s) now cx m with
      | (Err ErrQueueFull, mq') => mkRun mq' (world_of s) (rejected s + 1)
      | (_, mq') => mkRun mq' (world_of s) (rejected s)
      end
  | CallFlush sendFn ctxErr now =>
      let '(mq', w') := Flush (mq_of s) sendFn ctxErr now (world_of s) in
      mkRun mq' w' (rejected s)
  | CallClear => mkRun (Clear (mq_of s)) (world_of s) (rejected s)
  | CallClose => mkRun (Close (mq_of s)) (world_of s) (rejected s)
  end.

Definition run (mq : MessageQueue) (w : World) (cs : list call) : run_state :=
  fold_left step cs (mkRun mq w 0).

End WithTypes.

Arguments msg {T Ctx} _.
Arguments ctx {T Ctx} _.
Arguments errCh {T Ctx} _.
Arguments timeout {T Ctx} _.
Arguments queue {T Ctx} _.
Arguments maxSize {T Ctx} _.
Arguments mqTimeout {T Ctx} _.
Arguments dropped {T Ctx} _.
Arguments enqueued {T Ctx} _.
Arguments sent {T Ctx} _.
Arguments closed {T Ctx} _.
Arguments signals {T Ctx} _.
Arguments nextCh {T Ctx} _.
Arguments Size {T Ctx} _.
Arguments signal {T Ctx} _ _ _.
Arguments add_dropped {T Ctx} _ _.
Arguments add_sent {T Ctx} _ _.
Arguments with_queue {T Ctx} _ _.
Arguments Enqueue {T Ctx} _ _ _ _.
Arguments flushLoop {T Ctx World} _ _ _ _ _ _.
Arguments Flush {T Ctx World} _ _ _ _ _.
Arguments Clear {T Ctx} _.
Arguments Close {T Ctx} _.
Arguments CallEnqueue {T Ctx World} _ _ _.
Arguments CallFlush {T Ctx World} _ _ _.
Arguments CallClear {T Ctx World}.
Arguments CallClose {T Ctx World}.
Arguments mq_of {T Ctx World} _.
Arguments world_of {T Ctx World} _.
Arguments rejected {T Ctx World} _.
Arguments mkRun {T Ctx World} _ _ _.
Arguments step {T Ctx World} _ _.
Arguments run {T Ctx World} _ _ _.

(** The counters have not wrapped and account for every accepted message:
    [n] bounds the number of calls made so far, [r] counts the Enqueue calls
    rejected with ErrQueueFull. *)
Definition counted {T Ctx : Type} (n : Z) (mq : MessageQueue T Ctx) (r : Z)
  : Prop :=
  0 <= sent mq /\ 0 <= dropped mq /\ 0 <= enqueued mq /\ 0 <= r
  /\ enqueued mq + r = sent mq + dropped mq + Size mq
  /\ enqueued mq + r <= n.

(** A send function that always succeeds and contexts that are never
    cancelled, to run the queue on. *)
Definition sendOk : unit -> option unit -> nat -> option error * unit :=
  fun w _ _ => (None, w).
Definition ctxLive : unit -> unit -> option error := fun _ _ => None.

End Queue.

(** ** Accept key (axon.go): crypto/sha1 and encoding/base64

    [computeAcceptKey] feeds a [sha1] digest in two writes and encodes its sum
    in base64.  The digest follows crypto/sha1 (FIPS 180-4): 32-bit words are
    [Z] reduced modulo 2^32, the digest keeps the five chaining words, the
    bytes of the unfinished block and the length written so far. *)

Definition bytes_of_string (s : string) : list Z :=
  map (fun a => Z.of_N (N_of_ascii a)) (list_ascii_of_string s).

Definition string_of_bytes (l : list Z) : string :=
  string_of_list_ascii (map (fun b => ascii_of_N (Z.to_N b)) l).

Definition websocketGUID : string := "258EAFA5-E914-47DA-95CA-C5AB0DC85B11".

Module sha1.

Definition chunk : nat := 64.

Definition u32 (x : Z) : Z := x mod 4294967296.

Definition add32 (x y : Z) : Z := u32 (x + y).

(** [bits.RotateLeft32] *)
Definition RotateLeft32 (x : Z) (k : Z) : Z :=
  u32 (Z.lor (Z.shiftl x k) (Z.shiftr x (32 - k))).

(** [^b] on a uint32 *)
Definition not32 (b : Z) : Z := Z.lxor b 0xFFFFFFFF.

Definition init : list Z :=
  [0x67452301; 0xEFCDAB89; 0x98BADCFE; 0x10325476; 0xC3D2E1F0].

Definition K0 : Z := 0x5A827999.
Definition K1 : Z := 0x6ED9EBA1.
Definition K2 : Z := 0x8F1BBCDC.
Definition K3 : Z := 0xCA62C1D6.

(** The sixteen big-endian words of a block. *)
Fixpoint words (n : nat) (p : list Z) : list Z :=
  match n with
  | O => []
  | S n' => BigEndian_Uint32 (firstn 4 p) :: words n' (skipn 4 p)
  end.

(** The message schedule: [w] holds the last sixteen words, oldest first;
    each step appends [rotl1 (w[i-3] ^ w[i-8] ^ w[i-14] ^ w[i-16])]. *)
Fixpoint schedule (n : nat) (w : list Z) : list Z :=
  match n with
  | O => []
  | S n' =>
      let tmp := Z.lxor (Z.lxor (Z.lxor (nth 13 w 0) (nth 8 w 0)) (nth 2 w 0))
                        (nth 0 w 0) in
      let x := RotateLeft32 tmp 1 in
      x :: schedule n' (tl w ++ [x])
  end.

Definition round (i : nat) (s : Z * Z * Z * Z * Z) (w : Z) : Z * Z * Z * Z * Z :=
  let '(a, b, c, d, e) := s in
  let '(f, k) :=
    if (i <? 20)%nat then (Z.lor (Z.land b c) (Z.land (not32 b) d), K0)
    else if (i <? 40)%nat then (Z.lxor (Z.lxor b c) d, K1)
    else if (i <? 60)%nat
         then (Z.lor (Z.land (Z.lor b c) d) (Z.land b c), K2)
         else (Z.lxor (Z.lxor b c) d, K3) in
  let t := add32 (add32 (add32 (add32 (RotateLeft32 a 5) f) e) w) k in
  (t, a, RotateLeft32 b 30, c, d).

Fixpoint rounds (i : nat) (ws : list Z) (s : Z * Z * Z * Z * Z)
  : Z * Z * Z * Z * Z :=
  match ws with
  | [] => s
  | w :: ws' => rounds (S i) ws' (round i s w)
  end.

(** One 64-byte block. *)
Definition block1 (h : list Z) (p : list Z) : list Z :=
  let w := words 16 p in
  let '(a, b, c, d, e) :=
    rounds 0 (w ++ schedule 64 w)
      (nth 0 h 0, nth 1 h 0, nth 2 h 0, nth 3 h 0, nth 4 h 0) in
  [add32 (nth 0 h 0) a; add32 (nth 1 h 0) b; add32 (nth 2 h 0) c;
   add32 (nth 3 h 0) d; add32 (nth 4 h 0) e].

(** blockGeneric: [for len(p) >= chunk { ...; p = p[chunk:] }] *)
Fixpoint blocks (n : nat) (h : list Z) (p : list Z) : list Z :=
  match n with
  | O => h
  | S n' => blocks n' (block1 h (firstn chunk p)) (skipn chunk p)
  end.

Definition blockGeneric (h : list Z) (p : list Z) : list Z :=
  blocks (length p / chunk) h p.

Record digest : Type := mkDigest {
  h : list Z;
  x : list Z;
  len : Z
}.

Definition New : digest := mkDigest init [] 0.

(** digest.Write *)
Definition Write (d : digest) (p : list Z) : digest :=
  let len' := to_uint64 (len d + Z.of_nat (length p)) in
  let '(h1, x1, p1) :=
    if (0 <? length (x d))%nat then
      let n := Nat.min (chunk - length (x d)) (length p) in
      let x' := x d ++ firstn n p in
      if (length x' =? chunk)%nat then (block1 (h d) x', [], skipn n p)
      else (h d, x', skipn n p)
    else (h d, x d, p) in
  let '(h2, p2) :=
    if (chunk <=? length p1)%nat then
      let n := (length p1 / chunk * chunk)%nat in
      (blockGeneric h1 (firstn n p1), skipn n p1)
    else (h1, p1) in
  let x2 := if (0 <? length p2)%nat then p2 else x1 in
  mkDigest h2 x2 len'.

(** The padding checkSum writes: a one bit, zeros up to 56 modulo 64, and the
    length in bits on eight bytes. *)
Definition padding (len : Z) : list Z :=
  let t := if len mod 64 <? 56 then 56 - len mod 64
           else 64 + 56 - len mod 64 in
  0x80 :: repeat 0 (Z.to_nat t - 1)
  ++ BigEndian_PutUint64 (to_uint64 (Z.shiftl len 3)).

Definition PutUint32 (v : Z) : list Z :=
  [to_byte (Z.shiftr v 24); to_byte (Z.shiftr v 16);
   to_byte (Z.shiftr v 8); to_byte v].

Definition encode (h : list Z) : list Z := flat_map PutUint32 h.

Definition checkSum (d : digest) : list Z :=
  let d' := Write d (padding (len d)) in
  encode (h d').

(** digest.Sum works on a copy of the digest. *)
Definition Sum (d : digest) (b : list Z) : list Z := b ++ checkSum d.

(** The hash of a whole message at once: the blocks of the padded message
    folded from the initial words. *)
Definition SHA1 (m : list Z) : list Z :=
  encode (blockGeneric init (m ++ padding (to_uint64 (Z.of_nat (length m))))).

End sha1.

Module base64.

Definition encodeStd : string :=
  "ABCDEFGHIJKLMNOPQRSTUVWXYZabcdefghijklmnopqrstuvwxyz0123456789+/".

Definition char (i : Z) : Z :=
  nth (Z.to_nat i) (bytes_of_string encodeStd) 0.

(** Encoding.Encode with the standard alphabet and '=' padding. *)
Fixpoint Encode (fuel : nat) (src : list Z) : list Z :=
  match fuel with
  | O => []
  | S fuel' =>
      match src with
      | [] => []
      | [a] =>
          let v := Z.shiftl a 16 in
          [char (Z.land (Z.shiftr v 18) 0x3F);
           char (Z.land (Z.shiftr v 12) 0x3F); 61; 61]
      | [a; b] =>
          let v := Z.lor (Z.shiftl a 16) (Z.shiftl b 8) in
          [char (Z.land (Z.shiftr v 18) 0x3F);
           char (Z.land (Z.shiftr v 12) 0x3F);
           char (Z.land (Z.shiftr v 6) 0x3F); 61]
      | a :: b :: c :: rest =>
          let v := Z.lor (Z.lor (Z.shiftl a 16) (Z.shiftl b 8)) c in
          char (Z.land (Z.shiftr v 18) 0x3F)
          :: char (Z.land (Z.shiftr v 12) 0x3F)
          :: char (Z.land (Z.shiftr v 6) 0x3F)
          :: char (Z.land v 0x3F)
          :: Encode fuel' rest
      end
  end.

Definition EncodeToString (src : list Z) : string :=
  string_of_bytes (Encode (S (length src)) src).

End base64.

(** The digest [d] has absorbed the message [m]. *)
Definition absorbed (d : sha1.digest) (m : list Z) : Prop :=
  sha1.h d = sha1.blocks (length m / 64) sha1.init m
  /\ sha1.x d = skipn (length m / 64 * 64) m
  /\ sha1.len d = to_uint64 (Z.of_nat (length m)).

(** computeAcceptKey *)
Definition computeAcceptKey (key : string) : string :=
  let h := sha1.New in
  let h := sha1.Write h (bytes_of_string key) in
  let h := sha1.Write h (bytes_of_string websocketGUID) in
  base64.EncodeToString (sha1.Sum h []).

(** ** compress/flate: the reader

    [flate.NewReader] inflates a raw DEFLATE stream (RFC 1951).  The model
    reads the stream as bits, least significant bit of each byte first, and
    follows the reader's order of checks: a read past the end of the stream is
    [io.ErrUnexpectedEOF], a malformed stream is [flate.CorruptInputError],
    and the stream ends, without error, after the block whose final bit is
    set.  The output is kept in reverse while the stream is read. *)

Module flate.

Definition bits_of_byte (b : Z) : list bool :=
  map (fun i => Z.testbit b (Z.of_nat i)) (seq 0 8).

Definition bits_of_bytes (data : list Z) : list bool :=
  flat_map bits_of_byte data.

(** [n] bits as a number, first bit lowest. *)
Fixpoint take_bits (n : nat) (bits : list bool) : option (Z * list bool) :=
  match n with
  | O => Some (0, bits)
  | S n' =>
      match bits with
      | [] => None
      | b :: bits' =>
          match take_bits n' bits' with
          | Some (v, r) => Some (Z.b2z b + 2 * v, r)
          | None => None
          end
      end
  end.

(** [n] whole bytes from a byte-aligned position. *)
Fixpoint take_bytes (n : nat) (bits : list bool) : option (list Z * list bool) :=
  match n with
  | O => Some ([], bits)
  | S n' =>
      match take_bits 8 bits with
      | None => None
      | Some (b, r) =>
          match take_bytes n' r with
          | Some (bs, r') => Some (b :: bs, r')
          | None => None
          end
      end
  end.

(** A canonical Huffman code: the shortest and longest code length, the
    number of codes of each length, and the symbols in the order of their
    codes. *)
Record huffmanDecoder : Type := mkDecoder {
  hmin : Z;
  hmax : Z;
  counts : list Z;
  symbols : list Z
}.

Definition count_of (lengths : list Z) (l : Z) : Z :=
  Z.of_nat (length (filter (fun n => n =? l) lengths)).

Fixpoint symbols_of (lengths : list Z) (sym : Z) (l : Z) : list Z :=
  match lengths with
  | [] => []
  | n :: rest =>
      if n =? l then sym :: symbols_of rest (sym + 1) l
      else symbols_of rest (sym + 1) l
  end.

Definition lens_1_15 : list Z := map Z.of_nat (seq 1 15).

(** huffmanDecoder.init: false (here [None]) unless the code is complete, the
    empty code and the code with a single one-bit symbol being let through. *)
Definition init (lengths : list Z) : option huffmanDecoder :=
  let nz := filter (fun n => negb (n =? 0)) lengths in
  let max := fold_left Z.max nz 0 in
  let min := match nz with
             | [] => 0
             | n :: rest => fold_left Z.min rest n
             end in
  if max =? 0 then Some (mkDecoder 0 0 [] [])
  else
    let code :=
      fold_left (fun code i =>
                   if (min <=? i) && (i <=? max)
                   then 2 * code + count_of lengths i else code)
        lens_1_15 0 in
    if negb (code =? 2 ^ max) && negb ((code =? 1) && (max =? 1)) then None
    else Some (mkDecoder min max
                 (map (count_of lengths) (0 :: lens_1_15))
                 (flat_map (symbols_of lengths 0) lens_1_15)).

(** The walk down the code, one bit at a time. *)
Fixpoint walk (n : nat) (l code first index : Z) (h : huffmanDecoder)
    (bits : list bool) : result (Z * list bool) :=
  match n with
  | O => Err flate_CorruptInputError
  | S n' =>
      match bits with
      | [] => Err io_ErrUnexpectedEOF
      | b :: bits' =>
          let code := code + Z.b2z b in
          let count := nth (Z.to_nat l) (counts h) 0 in
          if code - first <? count
          then Ok (nth (Z.to_nat (index + (code - first))) (symbols h) 0, bits')
          else walk n' (l + 1) (2 * code) (2 * (first + count))
                 (index + count) h bits'
      end
  end.

(** decompressor.huffSym: at least [hmin] bits must be there; a bit pattern
    that is no code is a corrupt input. *)
Definition huffSym (h : huffmanDecoder) (bits : list bool)
  : result (Z * list bool) :=
  if Z.of_nat (length bits) <? hmin h then Err io_ErrUnexpectedEOF
  else if hmax h =? 0 then Err flate_CorruptInputError
  else walk (Z.to_nat (hmax h)) 1 0 0 0 h bits.

Definition fixedLengths : list Z :=
  repeat 8 144 ++ repeat 9 112 ++ repeat 7 24 ++ repeat 8 8.

Definition fixedHuffmanDecoder : huffmanDecoder :=
  match init fixedLengths with
  | Some h => h
  | None => mkDecoder 0 0 [] []
  end.

Definition codeOrder : list Z :=
  [16; 17; 18; 0; 8; 7; 9; 6; 10; 5; 11; 4; 12; 3; 13; 2; 14; 1; 15].

Definition maxNumLit : Z := 286.
Definition maxNumDist : Z := 30.
Definition endBlockMarker : nat := 256.

(** The code length code lengths, in codeOrder, then put in symbol order. *)
Fixpoint readCodeBits (n : nat) (order : list Z) (bits : list bool)
    (acc : list (Z * Z)) : result (list (Z * Z) * list bool) :=
  match n with
  | O => Ok (acc, bits)
  | S n' =>
      match order with
      | [] => Ok (acc, bits)
      | o :: order' =>
          match take_bits 3 bits with
          | None => Err io_ErrUnexpectedEOF
          | Some (v, r) => readCodeBits n' order' r ((o, v) :: acc)
          end
      end
  end.

Definition codebits_of (acc : list (Z * Z)) : list Z :=
  map (fun i => match find (fun ov => fst ov =? i) acc with
                | Some ov => snd ov
                | None => 0
                end) (map Z.of_nat (seq 0 19)).

(** The literal/length and distance code lengths, read with the code length
    code [h1]; [lens] holds the lengths read so far, last first. *)
Fixpoint readLengths (fuel : nat) (n : Z) (h1 : huffmanDecoder)
    (bits : list bool) (lens : list Z) : result (list Z * list bool) :=
  if n <=? Z.of_nat (length lens) then Ok (rev lens, bits)
  else
    match fuel with
    | O => Err flate_InternalError
    | S fuel' =>
        do (x, bits1) <- huffSym h1 bits;
        if x <? 16 then readLengths fuel' n h1 bits1 (x :: lens)
        else
          do (rep, nb, b) <-
             (if x =? 16 then
                match lens with
                | [] => Err flate_CorruptInputError
                | prev :: _ => Ok (3, 2%nat, prev)
                end
              else if x =? 17 then Ok (3, 3%nat, 0)
              else if x =? 18 then Ok (11, 7%nat, 0)
              else Err flate_InternalError);
          match take_bits nb bits1 with
          | None => Err io_ErrUnexpectedEOF
          | Some (extra, bits2) =>
              let rep := rep + extra in
              if Z.of_nat (length lens) + rep >? n
              then Err flate_CorruptInputError
              else readLengths fuel' n h1 bits2
                     (repeat b (Z.to_nat rep) ++ lens)
          end
    end.

(** decompressor.readHuffman: the header of a dynamic block. *)
Definition readHuffman (bits : list bool)
  : result (huffmanDecoder * huffmanDecoder * list bool) :=
  match take_bits 14 bits with
  | None => Err io_ErrUnexpectedEOF
  | Some (v, bits1) =>
      let nlit := Z.land v 0x1F + 257 in
      if nlit >? maxNumLit then Err flate_CorruptInputError
      else
        let ndist := Z.land (Z.shiftr v 5) 0x1F + 1 in
        if ndist >? maxNumDist then Err flate_CorruptInputError
        else
          let nclen := Z.land (Z.shiftr v 10) 0xF + 4 in
          do (acc, bits2) <- readCodeBits (Z.to_nat nclen) codeOrder bits1 [];
          match init (codebits_of acc) with
          | None => Err flate_CorruptInputError
          | Some h1 =>
              do (lens, bits3) <-
                 readLengths (Z.to_nat (nlit + ndist)) (nlit + ndist) h1 bits2 [];
              match init (firstn (Z.to_nat nlit) lens),
                    init (firstn (Z.to_nat ndist) (skipn (Z.to_nat nlit) lens))
              with
              | Some hl, Some hd =>
                  let eob := nth endBlockMarker lens 0 in
                  let hl' := if hmin hl <? eob
                             then mkDecoder eob (hmax hl) (counts hl) (symbols hl)
                             else hl in
                  Ok (hl', hd, bits3)
              | _, _ => Err flate_CorruptInputError
              end
          end
  end.

(** The length a length symbol stands for, and how many extra bits follow. *)
Definition lengthOf (v : Z) : option (Z * nat) :=
  if v <? 265 then Some (v - (257 - 3), 0%nat)
  else if v <? 269 then Some (v * 2 - (265 * 2 - 11), 1%nat)
  else if v <? 273 then Some (v * 4 - (269 * 4 - 19), 2%nat)
  else if v <? 277 then Some (v * 8 - (273 * 8 - 35), 3%nat)
  else if v <? 281 then Some (v * 16 - (277 * 16 - 67), 4%nat)
  else if v <? 285 then Some (v * 32 - (281 * 32 - 131), 5%nat)
  else if v <? maxNumLit then Some (258, 0%nat)
  else None.

(** [bits.Reverse8(uint8(b & 0x1F << 3))]: five bits, first bit highest. *)
Definition reverse5 (v : Z) : Z :=
  16 * Z.b2z (Z.testbit v 0) + 8 * Z.b2z (Z.testbit v 1)
  + 4 * Z.b2z (Z.testbit v 2) + 2 * Z.b2z (Z.testbit v 3)
  + Z.b2z (Z.testbit v 4).

(** The distance symbol and its extra bits. *)
Definition readDist (hd : option huffmanDecoder) (bits : list bool)
  : result (Z * list bool) :=
  do (dist, bits1) <-
     (match hd with
      | None =>
          match take_bits 5 bits with
          | None => Err io_ErrUnexpectedEOF
          | Some (v, r) => Ok (reverse5 v, r)
          end
      | Some h => huffSym h bits
      end);
  if dist <? 4 then Ok (dist + 1, bits1)
  else if dist <? maxNumDist then
    let nb := Z.shiftr (dist - 2) 1 in
    let extra := Z.shiftl (Z.land dist 1) nb in
    match take_bits (Z.to_nat nb) bits1 with
    | None => Err io_ErrUnexpectedEOF
    | Some (v, bits2) => Ok (Z.shiftl 1 (nb + 1) + 1 + Z.lor extra v, bits2)
    end
  else Err flate_CorruptInputError.

(** Copy [n] bytes from [dist] back, one at a time (the copy may overlap what
    it writes). *)
Fixpoint copyBack (n : nat) (dist : nat) (rout : list Z) : list Z :=
  match n with
  | O => rout
  | S n' => copyBack n' dist (nth (dist - 1) rout 0 :: rout)
  end.

Inductive step : Type :=
| nextBlock
| huffmanBlock (final : bool) (hl : huffmanDecoder) (hd : option huffmanDecoder).

(** The reader's loop.  [None] is for a run that needs more steps than
    [fuel]; every step uses at least one bit. *)
Fixpoint run (fuel : nat) (st : step) (bits : list bool) (rout : list Z)
  : option (list Z * option error) :=
  match fuel with
  | O => None
  | S fuel' =>
      match st with
      | nextBlock =>
          match take_bits 3 bits with
          | None => Some (rout, Some io_ErrUnexpectedEOF)
          | Some (hdr, bits1) =>
              let final := Z.odd hdr in
              let typ := Z.shiftr hdr 1 in
              if typ =? 0 then
                let aligned := skipn (length bits1 mod 8) bits1 in
                match take_bits 32 aligned with
                | None => Some (rout, Some io_ErrUnexpectedEOF)
                | Some (v, bits2) =>
                    let n := Z.land v 0xFFFF in
                    let nn := Z.shiftr v 16 in
                    if negb (nn =? Z.lxor n 0xFFFF)
                    then Some (rout, Some flate_CorruptInputError)
                    else
                      match take_bytes (Z.to_nat n) bits2 with
                      | None => Some (rout, Some io_ErrUnexpectedEOF)
                      | Some (data, bits3) =>
                          if final then Some (rev data ++ rout, None)
                          else run fuel' nextBlock bits3 (rev data ++ rout)
                      end
                end
              else if typ =? 1 then
                run fuel' (huffmanBlock final fixedHuffmanDecoder None)
                  bits1 rout
              else if typ =? 2 then
                match readHuffman bits1 with
                | Err e => Some (rout, Some e)
                | Ok (hl, hd, bits2) =>
                    run fuel' (huffmanBlock final hl (Some hd)) bits2 rout
                end
              else Some (rout, Some flate_CorruptInputError)
          end
      | huffmanBlock final hl hd =>
          match huffSym hl bits with
          | Err e => Some (rout, Some e)
          | Ok (v, bits1) =>
              if v <? 256 then run fuel' st bits1 (v :: rout)
              else if v =? 256 then
                if final then Some (rout, None)
                else run fuel' nextBlock bits1 rout
              else
                match lengthOf v with
                | None => Some (rout, Some flate_CorruptInputError)
                | Some (base, n) =>
                    match take_bits n bits1 with
                    | None => Some (rout, Some io_ErrUnexpectedEOF)
                    | Some (extra, bits2) =>
                        match readDist hd bits2 with
                        | Err e => Some (rout, Some e)
                        | Ok (dist, bits3) =>
                            if dist >? Z.of_nat (length rout)
                            then Some (rout, Some flate_CorruptInputError)
                            else run fuel' st bits3
                                   (copyBack (Z.to_nat (base + extra))
                                      (Z.to_nat dist) rout)
                        end
                    end
                end
          end
      end
  end.

(** [io.Copy(&buf, flate.NewReader(bytes.NewReader(data)))]: what was
    inflated, and the error the copy ends with ([None] for a stream that
    reached its final block). *)
Definition ReadAll (data : list Z) : list Z * option error :=
  let bits := bits_of_bytes data in
  match run (S (length bits)) nextBlock bits [] with
  | Some (rout, e) => (rev rout, e)
  | None => ([], Some flate_InternalError)
  end.

End flate.

(** ** Per-message compression (compression.go) *)

Record CompressionManager : Type := mkCompressionManager {
  enabled : bool;
  threshold : Z
}.

Definition newCompressionManager (threshold : Z) : CompressionManager :=
  mkCompressionManager true (if threshold <=? 0 then 256 else threshold).

Definition ShouldCompress (cm : CompressionManager) (payloadSize : Z) : bool :=
  enabled cm && (payloadSize >=? threshold cm).

(** The end of Compress: the trailing 00 00 ff ff is cut when it is there. *)
Definition stripTail (compressed : list Z) : list Z :=
  if (4 <=? length compressed)%nat then
    let tail := skipn (length compressed - 4) compressed in
    if (nth 0 tail 0 =? 0x00) && (nth 1 tail 0 =? 0x00)
       && (nth 2 tail 0 =? 0xff) && (nth 3 tail 0 =? 0xff)
    then firstn (length compressed - 4) compressed
    else compressed
  else compressed.

(** Decompress: the tail is put back and the stream inflated to its end. *)
Definition Decompress (cm : CompressionManager) (data : list Z)
  : result (list Z) :=
  let dataWithTail := data ++ [0x00; 0x00; 0xff; 0xff] in
  match flate.ReadAll dataWithTail with
  | (out, None) => Ok out
  | (_, Some e) => Err e
  end.

Section Compress.

(** [deflate data] is what a [flate.Writer] at BestSpeed, fresh or reset, has
    put in its buffer after [Write(data)] and [Flush()].  The writer is part
    of the Go library and is taken as it comes. *)
Variable deflate : list Z -> list Z.

(** Compress: writes to the buffer do not fail. *)
Definition Compress (cm : CompressionManager) (data : list Z)
  : result (list Z) :=
  Ok (stripTail (deflate data)).

End Compress.

(** ** Typed connection *)

(** What [any(msg).(type)] finds in a message, and what [any(&msg).(type)]
    finds for the message type [T]. *)
Inductive GoDyn : Type :=
| DynBytes (v : list Z)
| DynString (v : list Z)
| DynOther.

Inductive PtrKind (T : Type) : Type :=
| PtrBytes (inj : list Z -> T)
| PtrString (inj : list Z -> T)
| PtrOther.
Arguments PtrBytes {T} inj.
Arguments PtrString {T} inj.
Arguments PtrOther {T}.

(** The message type of a connection with what encoding/json does on it:
    [json_Marshal] and [json_Unmarshal] answer [None] when the library
    returns an error. *)
Record MsgType : Type := mkMsgType {
  T : Type;
  zero : T;
  json_Marshal : T -> option (list Z);
  json_Unmarshal : list Z -> option T;
  dynOf : T -> GoDyn;
  ptrKind : PtrKind T
}.

Record Context : Type := mkContext {
  ctxErr : option error
}.

Record Conn : Type := mkConn {
  closed : bool;
  closeOnce : bool;
  closeCode : Z;
  closeReason : list Z;
  isClient : bool;
  compression : option CompressionManager;
  maxFrameSize : Z;
  maxMessageSize : Z;
  reader : Reader;
  writer : Writer;
  writeBuf : list Z
}.

Definition with_reader (c : Conn) (r : Reader) : Conn :=
  mkConn (closed c) (closeOnce c) (closeCode c) (closeReason c) (isClient c)
    (compression c) (maxFrameSize c) (maxMessageSize c) r (writer c)
    (writeBuf c).

Definition with_writer (c : Conn) (w : Writer) (buf : list Z) : Conn :=
  mkConn (closed c) (closeOnce c) (closeCode c) (closeReason c) (isClient c)
    (compression c) (maxFrameSize c) (maxMessageSize c) (reader c) w buf.

(** [c.closeOnce.Do(func() { closed = 1; closeCode = code; ... })] *)
Definition latchClosed (c : Conn) (code : Z) (reason : list Z) : Conn :=
  if closeOnce c then c
  else mkConn true true code reason (isClient c) (compression c)
         (maxFrameSize c) (maxMessageSize c) (reader c) (writer c)
         (writeBuf c).

(** [ctx != nil && ctx.Err() != nil] *)
Definition cancelled (ctx : option Context) : bool :=
  match ctx with
  | Some cx => match ctxErr cx with Some _ => true | None => false end
  | None => false
  end.

(** The frame loop of Read.  A frame that is read takes at least two bytes
    off the reader; [None] is for a run longer than [fuel].  After an error
    the connection is returned as it was before the failed frame. *)
Fixpoint readLoop (fuel : nat) (c : Conn) (messagePayload : list Z)
    (firstFrame : bool) : option (result (list Z) * Conn) :=
  match fuel with
  | O => None
  | S fuel' =>
      match readFrame (reader c) (maxFrameSize c) with
      | Err e =>
          Some (Err (match e with io_EOF => ErrConnectionClosed | _ => e end), c)
      | Ok (frame, r') =>
          let c1 := with_reader c r' in
          let append (firstFrame' : bool) :=
            let messagePayload' := messagePayload ++ Payload frame in
            if len messagePayload' >? maxMessageSize c1
            then Some (Err ErrMessageTooLarge, c1)
            else if Fin frame then Some (Ok messagePayload', c1)
            else readLoop fuel' c1 messagePayload' firstFrame' in
          if Opcode frame =? opContinuation then
            if firstFrame then Some (Err ErrInvalidFrame, c1)
            else append firstFrame
          else if Opcode frame =? opClose then
            let code :=
              if len (Payload frame) >=? 2
              then BigEndian_Uint16 (firstn 2 (Payload frame)) else 1000 in
            let reason :=
              if len (Payload frame) >? 2 then skipn 2 (Payload frame)
              else [] in
            Some (Err ErrConnectionClosed, latchClosed c1 code reason)
          else if Opcode frame =? opPing then
            let pongFrame :=
              mkFrame true false false false opPong false [] (Payload frame) in
            match writeFrame (writer c1) (writeBuf c1) pongFrame with
            | Err e => Some (Err e, c1)
            | Ok (w', buf') =>
                readLoop fuel' (with_writer c1 w' buf') messagePayload firstFrame
            end
          else if Opcode frame =? opPong then
            readLoop fuel' c1 messagePayload firstFrame
          else if (Opcode frame =? opText) || (Opcode frame =? opBinary) then
            if negb firstFrame then Some (Err ErrInvalidFrame, c1)
            else append false
          else Some (Err ErrUnsupportedFrameType, c1)
      end
  end.

Definition readMessage (c : Conn) : result (list Z) * Conn :=
  match readLoop (S (length (reader c))) c [] true with
  | Some r => r
  | None => (Err runtime_panic, c)
  end.

Section Typed.

Variable M : MsgType.
Variable deflate : list Z -> list Z.

(** Read: one reassembled message, inflated when compression is on, decoded
    into [T]. *)
Definition Read (c : Conn) (ctx : option Context) : result (T M) * Conn :=
  if closed c then (Err ErrConnectionClosed, c)
  else if cancelled ctx then (Err ErrContextCanceled, c)
  else
    match readMessage c with
    | (Err e, c') => (Err e, c')
    | (Ok messagePayload, c') =>
        if len messagePayload =? 0 then (Ok (zero M), c')
        else
          match (match compression c' with
                 | Some cm =>
                     if enabled cm then Decompress cm messagePayload
                     else Ok messagePayload
                 | None => Ok messagePayload
                 end) with
          | Err e => (Err e, c')
          | Ok messagePayload =>
              match json_Unmarshal M messagePayload with
              | Some msg => (Ok msg, c')
              | None =>
                  match ptrKind M with
                  | PtrBytes inj => (Ok (inj messagePayload), c')
                  | PtrString inj => (Ok (inj messagePayload), c')
                  | PtrOther => (Err ErrDeserializationFailed, c')
                  end
              end
          end
    end.

(** Write: one message in one final frame.  [maskKey] is what [rand.Read]
    puts in the four bytes of the mask key of a client connection. *)
Definition Write (c : Conn) (ctx : option Context) (msg : T M)
    (maskKey : list Z) : option error * Conn :=
  if closed c then (Some ErrConnectionClosed, c)
  else if cancelled ctx then (Some ErrContextCanceled, c)
  else
    match (match json_Marshal M msg with
           | Some p => Ok p
           | None =>
               match dynOf M msg with
               | DynBytes v => Ok v
               | DynString v => Ok v
               | DynOther => Err ErrSerializationFailed
               end
           end) with
    | Err e => (Some e, c)
    | Ok payload =>
        if len payload >? maxMessageSize c then (Some ErrMessageTooLarge, c)
        else
          let opcode := match dynOf M msg with
                        | DynString _ => opText
                        | DynBytes _ => opBinary
                        | DynOther => opText
                        end in
          let '(payload, compressed) :=
            match compression c with
            | Some cm =>
                if ShouldCompress cm (len payload) then
                  match Compress deflate cm payload with
                  | Ok compressedPayload =>
                      if len compressedPayload <? len payload
                      then (compressedPayload, true)
                      else (payload, false)
                  | Err _ => (payload, false)
                  end
                else (payload, false)
            | None => (payload, false)
            end in
          let frame :=
            mkFrame true compressed false false opcode (isClient c) [] payload in
          match (if isClient c then
                   do maskedPayload <- maskBytes payload maskKey;
                   Ok (set_Payload (set_MaskKey frame maskKey) maskedPayload)
                 else Ok frame) with
          | Err e => (Some e, c)
          | Ok frame =>
              match writeFrame (writer c) (writeBuf c) frame with
              | Err e => (Some e, c)
              | Ok (w', buf') => (None, with_writer c w' buf')
              end
          end
    end.

End Typed.

(** A connection whose message type is the Go [string].  [plain] bytes are
    the printable ASCII characters that encoding/json writes as they are
    (neither the quote nor the backslash, nor the '<', '>' and '&' it
    escapes).  On a string of plain bytes [json.Marshal] yields the bytes
    between two quotes, and [json.Unmarshal] reads such a text back; the two
    functions below are encoding/json on those inputs only, and are used only
    there: other inputs, which the library escapes or decodes, get [None]. *)
Definition plain (b : Z) : bool :=
  (0x20 <=? b) && (b <=? 0x7E)
  && negb (b =? 0x22) && negb (b =? 0x5C)
  && negb (b =? 0x3C) && negb (b =? 0x3E) && negb (b =? 0x26).

Definition plain_Marshal (s : list Z) : option (list Z) :=
  if forallb plain s then Some (0x22 :: s ++ [0x22]) else None.

Definition plain_Unmarshal (p : list Z) : option (list Z) :=
  match p with
  | 0x22 :: rest =>
      let s := removelast rest in
      if (last rest 0 =? 0x22) && forallb plain s
         && (1 <=? length rest)%nat
      then Some s else None
  | _ => None
  end.

Definition StringMsg : MsgType :=
  mkMsgType (list Z) [] plain_Marshal plain_Unmarshal
    (fun s => DynString s) (PtrString (fun p => p)).

Definition hello_world : list Z := bytes_of_string "hello world".

(** A message type with the given encoding/json behaviour on strings. *)
Definition StringMsgWith (marshal : list Z -> option (list Z))
    (unmarshal : list Z -> option (list Z)) : MsgType :=
  mkMsgType (list Z) [] marshal unmarshal
    (fun s => DynString s) (PtrString (fun p => p)).

(** A fresh connection: nothing read, nothing written, scratch buffers of
    4096 bytes. *)
Definition newConn (client : bool) (cm : option CompressionManager)
    (r : Reader) : Conn :=
  mkConn false false 0 [] client cm 4096 1048576 r [] (repeat 0 4096).

(** The JSON text of "hello world": the string between two quotes. *)
Definition quoted_hello : list Z := 0x22 :: hello_world ++ [0x22].

(** A message type that encoding/json can neither encode nor decode and that
    has no raw fallback. *)
Definition StrictMsg : MsgType :=
  mkMsgType nat 0%nat (fun _ => None) (fun _ => None) (fun _ => DynOther)
    PtrOther.

(** Three hundred times the letter a, and a sync-flushed DEFLATE stream of
    it (one block with the fixed code, then the empty stored block of the
    flush), as zlib writes it at level 1. *)
Definition aaa : list Z := repeat 0x61 300.
Definition aaa_flushed : list Z :=
  [0x4a; 0x4c; 0x1c; 0x05; 0xc4; 0x86; 0x00; 0x00; 0x00; 0x00; 0xff; 0xff].

(** A writer that stores its input in one block and sync-flushes; it stands
    in for the library's writer where the compressed bytes do not matter. *)
Definition storedFlush (data : list Z) : list Z :=
  let n := len data in
  [0x00; to_byte n; to_byte (Z.shiftr n 8);
   to_byte (65535 - n); to_byte (Z.shiftr (65535 - n) 8)]
  ++ data ++ [0x00; 0x00; 0x00; 0xff; 0xff].

(** ** Frames on the wire, and the rest of the connection

    [frameBytes f] is what [writeFrame] puts on the wire for [f], with the
    scratch buffer of [maxFrameHeaderSize] bytes the package uses.  The
    definitions that follow describe the frames a peer sends, to state what
    [Read] makes of them. *)

Definition maxFrameHeaderSize : nat := 14.

Definition frameBytes (f : Frame) : list Z :=
  match writeFrame [] (repeat 0 maxFrameHeaderSize) f with
  | Ok (w, _) => w
  | Err _ => []
  end.

(** What readFrameHeader asks of a frame: an opcode up to 10, control frames
    final, reserved bits clear, four key bytes when masked, a length that
    fits 32 bits. *)
Record readable_frame (f : Frame) : Prop := mkReadable {
  rf_opcode : 0 <= Opcode f <= 10;
  rf_control : 8 <= Opcode f -> Fin f = true;
  rf_rsv : Rsv1 f = false /\ Rsv2 f = false /\ Rsv3 f = false;
  rf_key : if Masked f then length (MaskKey f) = 4%nat else MaskKey f = [];
  rf_len : len (Payload f) <= 4294967295
}.

(** The first byte of a header, and the length bytes that follow it, as
    writeFrame computes them. *)
Definition headByte (fin r1 r2 r3 : bool) (op : Z) : Z :=
  let b0 := 0 in
  let b0 := if fin then Z.lor b0 finMask else b0 in
  let b0 := if r1 then Z.lor b0 0x40 else b0 in
  let b0 := if r2 then Z.lor b0 0x20 else b0 in
  let b0 := if r3 then Z.lor b0 0x10 else b0 in
  Z.lor b0 (Z.land op opMask).

Definition lengthBytes (m : bool) (n : Z) : Z * list Z :=
  if n <? 126 then (Z.lor (if m then 0x80 else 0) (to_byte n), [])
  else if n <? 65536
       then (Z.lor (if m then 0x80 else 0) 126,
             BigEndian_PutUint16 (to_uint16 n))
       else (Z.lor (if m then 0x80 else 0) 127,
             BigEndian_PutUint64 (to_uint64 n)).

(** The frame loop of Read entered with [messagePayload] and [firstFrame],
    run to its end: each turn takes at least two bytes off the reader, so the
    length of the input is fuel enough. *)
Definition readFrom (c : Conn) (mp : list Z) (ff : bool)
  : result (list Z) * Conn :=
  match readLoop (S (length (reader c))) c mp ff with
  | Some r => r
  | None => (Err runtime_panic, c)
  end.

(** A frame as a peer puts it on the wire: with a mask key the payload is
    sent masked. *)
Definition peerFrame (fin : bool) (op : Z) (key : option (list Z))
    (p : list Z) : Frame :=
  match key with
  | Some k => mkFrame fin false false false op true k (maskFrom 0 p k)
  | None => mkFrame fin false false false op false [] p
  end.

(** A mask key has four bytes. *)
Definition key_ok (key : option (list Z)) : Prop :=
  match key with
  | Some k => length k = 4%nat
  | None => True
  end.

(** A message cut in fragments: the first frame has the opcode of the
    message, the others are continuation frames, the last one is final. *)
Fixpoint fragments (op : Z) (chunks : list (option (list Z) * list Z))
  : list Z :=
  match chunks with
  | [] => []
  | (k, p) :: rest =>
      frameBytes (peerFrame (match rest with [] => true | _ => false end)
                    op k p)
      ++ fragments opContinuation rest
  end.

(** A fragment a connection can take: a proper mask key, if any, and a
    payload within the frame limit. *)
Definition chunk_ok (c : Conn) (ch : option (list Z) * list Z) : Prop :=
  key_ok (fst ch) /\ len (snd ch) <= maxFrameSize c
  /\ len (snd ch) <= 4294967295.

(** The pong that answers a ping with payload [p]. *)
Definition pongFor (p : list Z) : list Z :=
  frameBytes (mkFrame true false false false opPong false [] p).

(** Close: once per connection, the close frame carries the code on two
    bytes and the reason; it is not masked.  The keepalive loop is not part
    of the model, and closing the transport does not fail. *)
Definition Close (c : Conn) (code : Z) (reason : list Z)
  : option error * Conn :=
  if closeOnce c then (None, c)
  else
    let c1 := latchClosed c code reason in
    let closePayload := BigEndian_PutUint16 (to_uint16 code) ++ reason in
    let closeFrame :=
      mkFrame true false false false opClose false [] closePayload in
    match writeFrame (writer c1) (writeBuf c1) closeFrame with
    | Err e => (Some e, c1)
    | Ok (w', buf') => (None, with_writer c1 w' buf')
    end.

(** IsClosed *)
Definition IsClosed (c : Conn) : bool := closed c.

(** The close frame that [Close] sends. *)
Definition closeFrameFor (code : Z) (reason : list Z) : list Z :=
  frameBytes (mkFrame true false false false opClose false []
                (BigEndian_PutUint16 (to_uint16 code) ++ reason)).

(** The opcode Write picks for a message. *)
Definition opcodeOf (M : MsgType) (msg : T M) : Z :=
  match dynOf M msg with
  | DynString _ => opText
  | DynBytes _ => opBinary
  | DynOther => opText
  end.

(** The frame that Write sends for a payload. *)
Definition messageFrame (client : bool) (op : Z) (key payload : list Z)
  : list Z :=
  frameBytes (peerFrame true op (if client then Some key else None) payload).
From Stdlib Require Import Permutation.

(** ** Truncated and oversized frames *)

(** The header writeFrame sends ahead of the payload. *)
Definition frameHeader (f : Frame) : list Z :=
  firstn (length (frameBytes f) - length (Payload f)) (frameBytes f).


(** The places in the bytes of a frame where readFrame starts a new read:
    the start, the end of the two base bytes, of the extended length, and of
    the mask key. *)
Definition readStarts (f : Frame) : list nat :=
  let ext := length (snd (lengthBytes (Masked f) (len (Payload f)))) in
  let key := if Masked f then 4%nat else 0%nat in
  [0%nat; 2%nat; (2 + ext)%nat; (2 + ext + key)%nat].

(** The error of a read of [n] bytes that finds only [k < n]. *)
Definition shortRead (k : nat) : error :=
  match k with O => io_EOF | _ => io_ErrUnexpectedEOF end.

(** ** Invariants of the message queue *)

(** The state a queue is in between calls: the size is within the capacity,
    and the channels handed out so far, [0 .. nextCh - 1], are those that
    got their result together with those still queued, each once. *)
Definition queue_inv {T Ctx : Type} (mq : Queue.MessageQueue T Ctx)
  : Prop :=
  Queue.Size mq <= Queue.maxSize mq
  /\ Permutation (map fst (Queue.signals mq) ++ map Queue.errCh (Queue.queue mq))
       (seq 0 (Queue.nextCh mq)).

(** A queue that has been closed and emptied. *)
Definition shut {T Ctx : Type} (mq : Queue.MessageQueue T Ctx) : Prop :=
  Queue.closed mq = true /\ Queue.queue mq = [].

(** ** Stored DEFLATE blocks *)

(** A stored block (RFC 1951, 3.2.4): the header byte with the final bit,
    LEN and its complement on two bytes each, low byte first, then the
    data. *)
Definition storedBlock (final : bool) (data : list Z) : list Z :=
  let n := len data in
  [Z.b2z final; to_byte n; to_byte (Z.shiftr n 8);
   to_byte (65535 - n); to_byte (Z.shiftr (65535 - n) 8)] ++ data.

(** A stream of stored blocks, the last one final. *)
Fixpoint storedStream (blocks : list (list Z)) : list Z :=
  match blocks with
  | [] => []
  | [d] => storedBlock true d
  | d :: rest => storedBlock false d ++ storedStream rest
  end.

(** A block that fits a stored block: bytes, at most 65535 of them. *)
Definition storable (d : list Z) : Prop := bytes d /\ len d <= 65535.

(** ** Metrics (metrics.go)

    The counters are [atomic.Int64]; [Add] wraps around on 64 bits. *)

Module metrics.

Record Metrics : Type := mkMetrics {
  ActiveConnections : Z;
  TotalConnections : Z;
  ClosedConnections : Z;
  MessagesRead : Z;
  MessagesWritten : Z;
  BytesRead : Z;
  BytesWritten : Z;
  ReadErrors : Z;
  WriteErrors : Z;
  FrameErrors : Z;
  HandshakeErrors : Z;
  ReadLatency : Z;
  WriteLatency : Z;
  ReconnectAttempts : Z;
  ReconnectSuccesses : Z;
  ReconnectFailures : Z;
  QueueEnqueued : Z;
  QueueSent : Z;
  QueueDropped : Z;
  CompressedMessages : Z;
  DecompressedMessages : Z;
  CompressionSaved : Z
}.

(** [&Metrics{}] *)
Definition zero : Metrics :=
  mkMetrics 0 0 0 0 0 0 0 0 0 0 0 0 0 0 0 0 0 0 0 0 0 0.

Record MetricsSnapshot : Type := mkSnapshot {
  sActiveConnections : Z;
  sTotalConnections : Z;
  sClosedConnections : Z;
  sMessagesRead : Z;
  sMessagesWritten : Z;
  sBytesRead : Z;
  sBytesWritten : Z;
  sReadErrors : Z;
  sWriteErrors : Z;
  sFrameErrors : Z;
  sHandshakeErrors : Z;
  AvgReadLatency : Z;
  AvgWriteLatency : Z;
  sReconnectAttempts : Z;
  sReconnectSuccesses : Z;
  sReconnectFailures : Z;
  sQueueEnqueued : Z;
  sQueueSent : Z;
  sQueueDropped : Z;
  sCompressedMessages : Z;
  sDecompressedMessages : Z;
  sCompressionSaved : Z
}.

(** Go's [/] on int64 truncates toward zero. *)
Definition GetSnapshot (m : Metrics) : MetricsSnapshot :=
  let readCount := MessagesRead m in
  let writeCount := MessagesWritten m in
  let avgReadLatency :=
    if readCount >? 0 then Z.quot (ReadLatency m) readCount else 0 in
  let avgWriteLatency :=
    if writeCount >? 0 then Z.quot (WriteLatency m) writeCount else 0 in
  mkSnapshot (ActiveConnections m) (TotalConnections m) (ClosedConnections m)
    readCount writeCount (BytesRead m) (BytesWritten m) (ReadErrors m)
    (WriteErrors m) (FrameErrors m) (HandshakeErrors m)
    avgReadLatency avgWriteLatency
    (ReconnectAttempts m) (ReconnectSuccesses m) (ReconnectFailures m)
    (QueueEnqueued m) (QueueSent m) (QueueDropped m)
    (CompressedMessages m) (DecompressedMessages m) (CompressionSaved m).

Definition RecordRead (m : Metrics) (bytes latency : Z) : Metrics :=
  mkMetrics (ActiveConnections m) (TotalConnections m) (ClosedConnections m)
    (add64 (MessagesRead m) 1) (MessagesWritten m)
    (add64 (BytesRead m) bytes) (BytesWritten m) (ReadErrors m)
    (WriteErrors m) (FrameErrors m) (HandshakeErrors m)
    (add64 (ReadLatency m) latency) (WriteLatency m)
    (ReconnectAttempts m) (ReconnectSuccesses m) (ReconnectFailures m)
    (QueueEnqueued m) (QueueSent m) (QueueDropped m)
    (CompressedMessages m) (DecompressedMessages m) (CompressionSaved m).

Definition RecordWrite (m : Metrics) (bytes latency : Z) : Metrics :=
  mkMetrics (ActiveConnections m) (TotalConnections m) (ClosedConnections m)
    (MessagesRead m) (add64 (MessagesWritten m) 1)
    (BytesRead m) (add64 (BytesWritten m) bytes) (ReadErrors m)
    (WriteErrors m) (FrameErrors m) (HandshakeErrors m)
    (ReadLatency m) (add64 (WriteLatency m) latency)
    (ReconnectAttempts m) (ReconnectSuccesses m) (ReconnectFailures m)
    (QueueEnqueued m) (QueueSent m) (QueueDropped m)
    (CompressedMessages m) (DecompressedMessages m) (CompressionSaved m).

Definition RecordConnection (m : Metrics) : Metrics :=
  mkMetrics (add64 (ActiveConnections m) 1) (add64 (TotalConnections m) 1)
    (ClosedConnections m)
    (MessagesRead m) (MessagesWritten m) (BytesRead m) (BytesWritten m)
    (ReadErrors m) (WriteErrors m) (FrameErrors m) (HandshakeErrors m)
    (ReadLatency m) (WriteLatency m)
    (ReconnectAttempts m) (ReconnectSuccesses m) (ReconnectFailures m)
    (QueueEnqueued m) (QueueSent m) (QueueDropped m)
    (CompressedMessages m) (DecompressedMessages m) (CompressionSaved m).

Definition RecordDisconnection (m : Metrics) : Metrics :=
  mkMetrics (add64 (ActiveConnections m) (-1)) (TotalConnections m)
    (add64 (ClosedConnections m) 1)
    (MessagesRead m) (MessagesWritten m) (BytesRead m) (BytesWritten m)
    (ReadErrors m) (WriteErrors m) (FrameErrors m) (HandshakeErrors m)
    (ReadLatency m) (WriteLatency m)
    (ReconnectAttempts m) (ReconnectSuccesses m) (ReconnectFailures m)
    (QueueEnqueued m) (QueueSent m) (QueueDropped m)
    (CompressedMessages m) (DecompressedMessages m) (CompressionSaved m).

Definition RecordReadError (m : Metrics) : Metrics :=
  mkMetrics (ActiveConnections m) (TotalConnections m) (ClosedConnections m)
    (MessagesRead m) (MessagesWritten m) (BytesRead m) (BytesWritten m)
    (add64 (ReadErrors m) 1) (WriteErrors m) (FrameErrors m)
    (HandshakeErrors m) (ReadLatency m) (WriteLatency m)
    (ReconnectAttempts m) (ReconnectSuccesses m) (ReconnectFailures m)
    (QueueEnqueued m) (QueueSent m) (QueueDropped m)
    (CompressedMessages m) (DecompressedMessages m) (CompressionSaved m).

Definition RecordWriteError (m : Metrics) : Metrics :=
  mkMetrics (ActiveConnections m) (TotalConnections m) (ClosedConnections m)
    (MessagesRead m) (MessagesWritten m) (BytesRead m) (BytesWritten m)
    (ReadErrors m) (add64 (WriteErrors m) 1) (FrameErrors m)
    (HandshakeErrors m) (ReadLatency m) (WriteLatency m)
    (ReconnectAttempts m) (ReconnectSuccesses m) (ReconnectFailures m)
    (QueueEnqueued m) (QueueSent m) (QueueDropped m)
    (CompressedMessages m) (DecompressedMessages m) (CompressionSaved m).

Definition RecordFrameError (m : Metrics) : Metrics :=
  mkMetrics (ActiveConnections m) (TotalConnections m) (ClosedConnections m)
    (MessagesRead m) (MessagesWritten m) (BytesRead m) (BytesWritten m)
    (ReadErrors m) (WriteErrors m) (add64 (FrameErrors m) 1)
    (HandshakeErrors m) (ReadLatency m) (WriteLatency m)
    (ReconnectAttempts m) (ReconnectSuccesses m) (ReconnectFailures m)
    (QueueEnqueued m) (QueueSent m) (QueueDropped m)
    (CompressedMessages m) (DecompressedMessages m) (CompressionSaved m).

Definition RecordHandshakeError (m : Metrics) : Metrics :=
  mkMetrics (ActiveConnections m) (TotalConnections m) (ClosedConnections m)
    (MessagesRead m) (MessagesWritten m) (BytesRead m) (BytesWritten m)
    (ReadErrors m) (WriteErrors m) (FrameErrors m)
    (add64 (HandshakeErrors m) 1) (ReadLatency m) (WriteLatency m)
    (ReconnectAttempts m) (ReconnectSuccesses m) (ReconnectFailures m)
    (QueueEnqueued m) (QueueSent m) (QueueDropped m)
    (CompressedMessages m) (DecompressedMessages m) (CompressionSaved m).

Definition RecordReconnectAttempt (m : Metrics) : Metrics :=
  mkMetrics (ActiveConnections m) (TotalConnections m) (ClosedConnections m)
    (MessagesRead m) (MessagesWritten m) (BytesRead m) (BytesWritten m)
    (ReadErrors m) (WriteErrors m) (FrameErrors m) (HandshakeErrors m)
    (ReadLatency m) (WriteLatency m)
    (add64 (ReconnectAttempts m) 1) (ReconnectSuccesses m)
    (ReconnectFailures m)
    (QueueEnqueued m) (QueueSent m) (QueueDropped m)
    (CompressedMessages m) (DecompressedMessages m) (CompressionSaved m).

Definition RecordReconnectSuccess (m : Metrics) : Metrics :=
  mkMetrics (ActiveConnections m) (TotalConnections m) (ClosedConnections m)
    (MessagesRead m) (MessagesWritten m) (BytesRead m) (BytesWritten m)
    (ReadErrors m) (WriteErrors m) (FrameErrors m) (HandshakeErrors m)
    (ReadLatency m) (WriteLatency m)
    (ReconnectAttempts m) (add64 (ReconnectSuccesses m) 1)
    (ReconnectFailures m)
    (QueueEnqueued m) (QueueSent m) (QueueDropped m)
    (CompressedMessages m) (DecompressedMessages m) (CompressionSaved m).

Definition RecordReconnectFailure (m : Metrics) : Metrics :=
  mkMetrics (ActiveConnections m) (TotalConnections m) (ClosedConnections m)
    (MessagesRead m) (MessagesWritten m) (BytesRead m) (BytesWritten m)
    (ReadErrors m) (WriteErrors m) (FrameErrors m) (HandshakeErrors m)
    (ReadLatency m) (WriteLatency m)
    (ReconnectAttempts m) (ReconnectSuccesses m)
    (add64 (ReconnectFailures m) 1)
    (QueueEnqueued m) (QueueSent m) (QueueDropped m)
    (CompressedMessages m) (DecompressedMessages m) (CompressionSaved m).

Definition RecordQueueEnqueue (m : Metrics) : Metrics :=
  mkMetrics (ActiveConnections m) (TotalConnections m) (ClosedConnections m)
    (MessagesRead m) (MessagesWritten m) (BytesRead m) (BytesWritten m)
    (ReadErrors m) (WriteErrors m) (FrameErrors m) (HandshakeErrors m)
    (ReadLatency m) (WriteLatency m)
    (ReconnectAttempts m) (ReconnectSuccesses m) (ReconnectFailures m)
    (add64 (QueueEnqueued m) 1) (QueueSent m) (QueueDropped m)
    (CompressedMessages m) (DecompressedMessages m) (CompressionSaved m).

Definition RecordQueueSent (m : Metrics) : Metrics :=
  mkMetrics (ActiveConnections m) (TotalConnections m) (ClosedConnections m)
    (MessagesRead m) (MessagesWritten m) (BytesRead m) (BytesWritten m)
    (ReadErrors m) (WriteErrors m) (FrameErrors m) (HandshakeErrors m)
    (ReadLatency m) (WriteLatency m)
    (ReconnectAttempts m) (ReconnectSuccesses m) (ReconnectFailures m)
    (QueueEnqueued m) (add64 (QueueSent m) 1) (QueueDropped m)
    (CompressedMessages m) (DecompressedMessages m) (CompressionSaved m).

Definition RecordQueueDropped (m : Metrics) : Metrics :=
  mkMetrics (ActiveConnections m) (TotalConnections m) (ClosedConnections m)
    (MessagesRead m) (MessagesWritten m) (BytesRead m) (BytesWritten m)
    (ReadErrors m) (WriteErrors m) (FrameErrors m) (HandshakeErrors m)
    (ReadLatency m) (WriteLatency m)
    (ReconnectAttempts m) (ReconnectSuccesses m) (ReconnectFailures m)
    (QueueEnqueued m) (QueueSent m) (add64 (QueueDropped m) 1)
    (CompressedMessages m) (DecompressedMessages m) (CompressionSaved m).

Definition RecordCompression (m : Metrics) (originalSize compressedSize : Z)
  : Metrics :=
  mkMetrics (ActiveConnections m) (TotalConnections m) (ClosedConnections m)
    (MessagesRead m) (MessagesWritten m) (BytesRead m) (BytesWritten m)
    (ReadErrors m) (WriteErrors m) (FrameErrors m) (HandshakeErrors m)
    (ReadLatency m) (WriteLatency m)
    (ReconnectAttempts m) (ReconnectSuccesses m) (ReconnectFailures m)
    (QueueEnqueued m) (QueueSent m) (QueueDropped m)
    (add64 (CompressedMessages m) 1) (DecompressedMessages m)
    (if originalSize >? compressedSize
     then add64 (CompressionSaved m) (wrap64 (originalSize - compressedSize))
     else CompressionSaved m).

Definition RecordDecompression (m : Metrics) : Metrics :=
  mkMetrics (ActiveConnections m) (TotalConnections m) (ClosedConnections m)
    (MessagesRead m) (MessagesWritten m) (BytesRead m) (BytesWritten m)
    (ReadErrors m) (WriteErrors m) (FrameErrors m) (HandshakeErrors m)
    (ReadLatency m) (WriteLatency m)
    (ReconnectAttempts m) (ReconnectSuccesses m) (ReconnectFailures m)
    (QueueEnqueued m) (QueueSent m) (QueueDropped m)
    (CompressedMessages m) (add64 (DecompressedMessages m) 1)
    (CompressionSaved m).

(** One call on the metrics. *)
Inductive call : Type :=
| CallRecordRead (bytes latency : Z)
| CallRecordWrite (bytes latency : Z)
| CallRecordConnection
| CallRecordDisconnection
| CallRecordReadError
| CallRecordWriteError
| CallRecordFrameError
| CallRecordHandshakeError
| CallRecordReconnectAttempt
| CallRecordReconnectSuccess
| CallRecordReconnectFailure
| CallRecordQueueEnqueue
| CallRecordQueueSent
| CallRecordQueueDropped
| CallRecordCompression (originalSize compressedSize : Z)
| CallRecordDecompression.

Definition step (m : Metrics) (c : call) : Metrics :=
  match c with
  | CallRecordRead b l => RecordRead m b l
  | CallRecordWrite b l => RecordWrite m b l
  | CallRecordConnection => RecordConnection m
  | CallRecordDisconnection => RecordDisconnection m
  | CallRecordReadError => RecordReadError m
  | CallRecordWriteError => RecordWriteError m
  | CallRecordFrameError => RecordFrameError m
  | CallRecordHandshakeError => RecordHandshakeError m
  | CallRecordReconnectAttempt => RecordReconnectAttempt m
  | CallRecordReconnectSuccess => RecordReconnectSuccess m
  | CallRecordReconnectFailure => RecordReconnectFailure m
  | CallRecordQueueEnqueue => RecordQueueEnqueue m
  | CallRecordQueueSent => RecordQueueSent m
  | CallRecordQueueDropped => RecordQueueDropped m
  | CallRecordCompression o c => RecordCompression m o c
  | CallRecordDecompression => RecordDecompression m
  end.

Definition run (cs : list call) : Metrics := fold_left step cs zero.

(** The latencies given to RecordRead in a run of calls. *)
Definition readLatencies (cs : list call) : list Z :=
  flat_map (fun c => match c with
                     | CallRecordRead _ l => [l]
                     | _ => []
                     end) cs.

End metrics.

(** ** Reconnection (reconnect.go, close.go)

    Durations and times are in nanoseconds.  The delay before an attempt
    ([nextDelay]: floating-point backoff and a random jitter), the context,
    the timer and the dial function belong to the environment: they are
    functions of a [World] that they may change. *)

Module reconnect.

(** The errors that the reconnection logic tells apart. *)
Inductive goError : Type :=
| ErrReconnectFailed
| CloseError (Code : CloseCode) (Reason : list Z)
| OtherError (e : error).

Definition NewCloseError (code : Z) (reason : list Z) : goError :=
  CloseError code reason.

(** AsCloseError: the type assertion of an error to a close error. *)
Definition AsCloseError (err : option goError) : option (CloseCode * list Z) :=
  match err with
  | Some (CloseError c r) => Some (c, r)
  | _ => None
  end.

Definition IsCloseError (err : option goError) : bool :=
  match AsCloseError err with
  | Some _ => true
  | None => false
  end.

(** What the callbacks of the configuration were called with, and, for the
    record, each call of the dial function with the attempt number. *)
Inductive event : Type :=
| Reconnecting (attempt : Z) (delay : Z)
| Dialed (attempt : Z)
| ReconnectFailed (attempt : Z) (err : goError)
| Reconnected (attempt : Z).

Record ReconnectConfig : Type := mkReconnectConfig {
  Enabled : bool;
  MaxAttempts : Z;
  ResetAfter : Z;
  OnReconnecting : bool;
  OnReconnected : bool;
  OnReconnectFailed : bool;
  ShouldReconnect : option (option goError -> Z -> bool)
}.

Record reconnector : Type := mkReconnector {
  config : ReconnectConfig;
  attempts : Z;
  lastConnect : option Z;
  events : list event
}.

Definition with_attempts (r : reconnector) (n : Z) : reconnector :=
  mkReconnector (config r) n (lastConnect r) (events r).

Definition log (r : reconnector) (e : event) : reconnector :=
  mkReconnector (config r) (attempts r) (lastConnect r) (events r ++ [e]).

(** shouldReconnect *)
Definition shouldReconnect (r : reconnector) (err : option goError) : bool :=
  if negb (Enabled (config r)) then false
  else if (MaxAttempts (config r) >? 0)
          && (attempts r >=? MaxAttempts (config r)) then false
  else
    match ShouldReconnect (config r) with
    | Some f => f err (attempts r)
    | None =>
        match AsCloseError err with
        | Some (code, _) => IsRecoverable code
        | None => true
        end
    end.

(** reset, maybeReset *)
Definition reset (r : reconnector) : reconnector := with_attempts r 0.

Definition maybeReset (r : reconnector) (now : Z) : reconnector :=
  match lastConnect r with
  | Some t => if now - t >=? ResetAfter (config r) then reset r else r
  | None => r
  end.

Section Environment.

Variable World : Type.

(** [r.nextDelay()], [ctx.Err()], the wait for the timer or the end of the
    context (the error of the context when it ends first), [dialFn(ctx)],
    [time.Now()]. *)
Variable nextDelay : reconnector -> World -> Z * World.
Variable ctxErr : World -> option goError.
Variable wait : World -> Z -> option goError * World.
Variable dialFn : World -> option goError * World.
Variable now : World -> Z.

(** attempt *)
Definition attempt (r : reconnector) (w : World)
  : option goError * reconnector * World :=
  let r := with_attempts r (add64 (attempts r) 1) in
  let '(delay, w) := nextDelay r w in
  let r := if OnReconnecting (config r)
           then log r (Reconnecting (attempts r) delay) else r in
  match wait w delay with
  | (Some e, w) => (Some e, r, w)
  | (None, w) =>
      let r := log r (Dialed (attempts r)) in
      match dialFn w with
      | (Some err, w) =>
          let r := if OnReconnectFailed (config r)
                   then log r (ReconnectFailed (attempts r) err) else r in
          (Some err, r, w)
      | (None, w) =>
          let r := if OnReconnected (config r)
                   then log r (Reconnected (attempts r)) else r in
          (None,
           mkReconnector (config r) (attempts r) (Some (now w)) (events r), w)
      end
  end.

(** reconnectLoop; [None] is for a loop that has not ended after [fuel]
    turns. *)
Fixpoint reconnectLoop (fuel : nat) (r : reconnector) (w : World)
  : option (option goError * reconnector * World) :=
  match fuel with
  | O => None
  | S fuel' =>
      match ctxErr w with
      | Some e => Some (Some e, r, w)
      | None =>
          if negb (shouldReconnect r None)
          then Some (Some ErrReconnectFailed, r, w)
          else
            match attempt r w with
            | (None, r', w') => Some (None, r', w')
            | (Some err, r', w') =>
                if negb (shouldReconnect r' (Some err))
                then Some (Some ErrReconnectFailed, r', w')
                else reconnectLoop fuel' r' w'
            end
      end
  end.

End Environment.

(** The calls of the dial function in a log. *)
Definition dials (es : list event) : Z :=
  Z.of_nat (length (filter (fun e => match e with
                                     | Dialed _ => true
                                     | _ => false
                                     end) es)).

End reconnect.

(** ** The key of the client handshake (client.go) *)

(** generateWebSocketKey: the base64 text of sixteen random bytes; [random]
    is what [rand.Read] fills the key with, or the error it returns. *)
Definition generateWebSocketKey (random : result (list Z)) : result string :=
  match random with
  | Err e => Err e
  | Ok key => Ok (base64.EncodeToString (firstn 16 key))
  end.
(** * Properties *)

(** *** Frame codec *)

Example readFrame_hello :
  readFrame [0x81; 0x05; 0x48; 0x65; 0x6c; 0x6c; 0x6f] 4096
  = Ok (mkFrame true false false false 1 false []
          [0x48; 0x65; 0x6c; 0x6c; 0x6f], []).
Proof. reflexivity. Qed.

Example readFrame_masked_hello :
  readFrame [0x81; 0x85; 0x37; 0xfa; 0x21; 0x3d;
             0x7f; 0x9f; 0x4d; 0x51; 0x58] 4096
  = Ok (mkFrame true false false false 1 true [0x37; 0xfa; 0x21; 0x3d]
          [0x48; 0x65; 0x6c; 0x6c; 0x6f], []).
Proof. reflexivity. Qed.

Example readFrame_too_large_64 :
  readFrame [0x81; 0x7F; 0x01; 0; 0; 0; 0; 0; 0; 0] 4096 = Err ErrFrameTooLarge.
Proof. reflexivity. Qed.

(** C1: the header parser lets the unassigned data opcodes 3 to 7 through.
    For each of them a final, unmasked, empty frame is returned, where the
    claim expects ErrUnsupportedFrameType; the guard meant for them,
    [Opcode > 0x7 && Opcode < 0x8], holds for no opcode.  The opcodes 11 to
    15 are refused. *)
Theorem readFrameHeader_opcodes_3_to_7 :
  Forall (fun op =>
            readFrameHeader [0x80 + op; 0x00]
            = Ok (mkFrame true false false false op false [] [], []))
         [3; 4; 5; 6; 7]
  /\ Forall (fun op =>
               readFrameHeader [0x80 + op; 0x00] = Err ErrUnsupportedFrameType)
            [11; 12; 13; 14; 15].
Proof.
  split; repeat constructor.
Qed.

Lemma io_ReadFull_app :
  forall a r, io_ReadFull (a ++ r) (length a) = Ok (a, r).
Proof.
  intros a r. unfold io_ReadFull.
  destruct a as [| x a]; [reflexivity |].
  replace (length (x :: a) =? 0)%nat with false by reflexivity.
  replace ((x :: a) ++ r) with (x :: (a ++ r)) by reflexivity.
  cbv iota.
  replace (length (x :: a ++ r) <? length (x :: a))%nat with false.
  - change (x :: a ++ r) with ((x :: a) ++ r).
    rewrite firstn_app, skipn_app, firstn_all, skipn_all, Nat.sub_diag.
    simpl. rewrite app_nil_r. reflexivity.
  - symmetry. apply Nat.ltb_ge. simpl. rewrite length_app. lia.
Qed.

Lemma land_shiftl_low :
  forall lo hi k, 0 <= k -> 0 <= lo < 2 ^ k ->
    Z.land lo (Z.shiftl hi k) = 0.
Proof.
  intros lo hi k Hk Hlo.
  apply Z.bits_inj'. intros n Hn.
  rewrite Z.land_spec, Z.bits_0.
  destruct (Z.lt_ge_cases n k) as [L | G].
  - rewrite Z.shiftl_spec_low by lia. apply andb_false_r.
  - destruct (Z.eq_dec lo 0) as [-> | Hne].
    + rewrite Z.bits_0. reflexivity.
    + rewrite (Z.bits_above_log2 lo n); [reflexivity | lia |].
      apply Z.log2_lt_pow2; [lia |].
      apply Z.lt_le_trans with (2 ^ k); [lia |].
      apply Z.pow_le_mono_r; lia.
Qed.

Lemma lor_shiftl_add :
  forall lo hi k, 0 <= k -> 0 <= lo < 2 ^ k ->
    Z.lor lo (Z.shiftl hi k) = lo + hi * 2 ^ k.
Proof.
  intros lo hi k Hk Hlo.
  pose proof (Z.add_lor_land lo (Z.shiftl hi k)) as H.
  rewrite land_shiftl_low in H by assumption.
  rewrite Z.shiftl_mul_pow2 in * by lia. lia.
Qed.

Lemma Uint16_PutUint16 :
  forall v, 0 <= v < 65536 ->
    BigEndian_Uint16 (BigEndian_PutUint16 v) = v.
Proof.
  intros v Hv. unfold BigEndian_Uint16, BigEndian_PutUint16, to_byte.
  cbn [nth].
  rewrite Z.shiftr_div_pow2 by lia.
  rewrite lor_shiftl_add; [| lia | apply Z.mod_pos_bound; lia].
  change (2 ^ 8) with 256.
  rewrite (Z.mod_small (v / 256) 256).
  2:{ split; [apply Z.div_pos; lia | apply Z.div_lt_upper_bound; lia]. }
  pose proof (Z.div_mod v 256). lia.
Qed.

Lemma Uint32_of_bytes :
  forall v, 0 <= v < 4294967296 ->
    BigEndian_PutUint64 v
    = [0; 0; 0; 0; (v / 16777216) mod 256; (v / 65536) mod 256;
       (v / 256) mod 256; v mod 256]
    /\ BigEndian_Uint32 [(v / 16777216) mod 256; (v / 65536) mod 256;
                         (v / 256) mod 256; v mod 256] = v.
Proof.
  intros v Hv. split.
  - unfold BigEndian_PutUint64, to_byte.
    rewrite !Z.shiftr_div_pow2 by lia.
    change (2 ^ 56) with 72057594037927936.
    change (2 ^ 48) with 281474976710656.
    change (2 ^ 40) with 1099511627776.
    change (2 ^ 32) with 4294967296.
    change (2 ^ 24) with 16777216.
    change (2 ^ 16) with 65536.
    change (2 ^ 8) with 256.
    rewrite (Z.div_small v 72057594037927936) by lia.
    rewrite (Z.div_small v 281474976710656) by lia.
    rewrite (Z.div_small v 1099511627776) by lia.
    rewrite (Z.div_small v 4294967296) by lia.
    reflexivity.
  - unfold BigEndian_Uint32. cbn [nth].
    assert (forall x, 0 <= x mod 256 < 2 ^ 8) as B8.
    { intros x. change (2 ^ 8) with 256. apply Z.mod_pos_bound. lia. }
    rewrite (lor_shiftl_add (v mod 256)) by (try lia; apply B8).
    rewrite (lor_shiftl_add _ _ 16); [| lia |].
    2:{ change (2 ^ 8) with 256. change (2 ^ 16) with 65536.
        pose proof (Z.mod_pos_bound v 256). pose proof (Z.mod_pos_bound (v / 256) 256). lia. }
    rewrite (lor_shiftl_add _ _ 24); [| lia |].
    2:{ change (2 ^ 8) with 256. change (2 ^ 16) with 65536. change (2 ^ 24) with 16777216.
        pose proof (Z.mod_pos_bound v 256). pose proof (Z.mod_pos_bound (v / 256) 256).
        pose proof (Z.mod_pos_bound (v / 65536) 256). lia. }
    change (2 ^ 8) with 256. change (2 ^ 16) with 65536. change (2 ^ 24) with 16777216.
    rewrite (Z.mod_small (v / 16777216) 256).
    2:{ split; [apply Z.div_pos; lia | apply Z.div_lt_upper_bound; lia]. }
    pose proof (Z.div_mod v 256).
    pose proof (Z.div_mod (v / 256) 256).
    pose proof (Z.div_mod (v / 65536) 256).
    replace (v / 65536) with (v / 256 / 256) in * by (rewrite Z.div_div by lia; reflexivity).
    replace (v / 16777216) with (v / 256 / 256 / 256) in * by (rewrite !Z.div_div by lia; reflexivity).
    lia.
Qed.

Lemma forall_below :
  forall (P : Z -> bool) (n : nat),
    forallb P (map Z.of_nat (seq 0 n)) = true ->
    forall x, 0 <= x < Z.of_nat n -> P x = true.
Proof.
  intros P n H x Hx.
  rewrite forallb_forall in H. apply H.
  rewrite <- (Z2Nat.id x) by lia.
  apply in_map. apply in_seq. lia.
Qed.

Lemma header_byte1 :
  forall (m : bool) x, 0 <= x < 128 ->
    Z.land (Z.lor (if m then 0x80 else 0) x) 0x7F = x
    /\ bit_set (Z.lor (if m then 0x80 else 0) x) 0x80 = m.
Proof.
  intros m x Hx.
  pose proof (forall_below
                (fun x => (Z.land (Z.lor 0x80 x) 0x7F =? x)
                          && Bool.eqb (bit_set (Z.lor 0x80 x) 0x80) true
                          && (Z.land (Z.lor 0 x) 0x7F =? x)
                          && Bool.eqb (bit_set (Z.lor 0 x) 0x80) false)
                128 eq_refl x Hx) as H.
  cbv beta in H.
  repeat (apply andb_prop in H; destruct H as [H ?]).
  repeat match goal with
         | K : (_ =? _) = true |- _ => apply Z.eqb_eq in K
         | K : Bool.eqb _ _ = true |- _ => apply Bool.eqb_prop in K
         end.
  destruct m; split; assumption.
Qed.

Lemma header_byte0 :
  forall (fin : bool) op, valid_opcode op ->
    let b0 := Z.lor (if fin then Z.lor 0 finMask else 0) (Z.land op opMask) in
    bit_set b0 finMask = fin /\ bit_set b0 0x40 = false
    /\ bit_set b0 0x20 = false /\ bit_set b0 0x10 = false
    /\ Z.land b0 opMask = op /\ bit_set b0 rsvMask = false.
Proof.
  intros fin op Hop. unfold valid_opcode in Hop. simpl in Hop.
  destruct Hop as [<- | [<- | [<- | [<- | [<- | [<- | []]]]]]];
    destruct fin; vm_compute; repeat split; reflexivity.
Qed.

Lemma len_repeat : forall n, 0 <= n -> len (repeat 0 (Z.to_nat n)) = n.
Proof. intros n Hn. unfold len. rewrite repeat_length. lia. Qed.

Lemma readFrame_wire :
  forall (fin : bool) op (m : bool) b0 b1 ext key payload rest maxSize,
    bit_set b0 finMask = fin -> bit_set b0 0x40 = false ->
    bit_set b0 0x20 = false -> bit_set b0 0x10 = false ->
    Z.land b0 opMask = op -> bit_set b0 rsvMask = false ->
    valid_opcode op -> (8 <= op -> fin = true) ->
    bit_set b1 0x80 = m ->
    (forall r, readPayloadLen (Z.land b1 0x7F) (ext ++ r) = Ok (len payload, r)) ->
    (if m then length key = 4%nat else key = []) ->
    len payload <= maxSize ->
    readFrame (b0 :: b1 :: ext ++ key ++ payload ++ rest) maxSize
    = Ok (mkFrame fin false false false op m key
            (if m then maskFrom 0 payload key else payload), rest).
Proof.
  intros fin op m b0 b1 ext key payload rest maxSize
         Hfin H1 H2 H3 Hop Hrsv Hvop Hctl Hm Hlen Hkey Hmax.
  unfold readFrame, readFrameHeader.
  rewrite (io_ReadFull_app [b0; b1] (ext ++ key ++ payload ++ rest)
           : io_ReadFull (b0 :: b1 :: ext ++ key ++ payload ++ rest) 2 = _).
  cbn [nth].
  rewrite Hrsv, Hfin, H1, H2, H3, Hop, Hm. cbn [Opcode Fin Masked].
  assert (((op >? 7) && (op <? 8) = false) /\ (op >? 10) = false
          /\ ((op >=? 8) && negb fin = false)) as [C1 [C2 C3]].
  { clear Hop. unfold valid_opcode in Hvop. simpl in Hvop.
    destruct Hvop as [E | [E | [E | [E | [E | [E | []]]]]]]; subst op;
      (split; [reflexivity | split; [reflexivity |]]);
      try reflexivity;
      rewrite Hctl by (vm_compute; discriminate); reflexivity. }
  rewrite C1, C2, C3. rewrite Hlen.
  assert (0 <= len payload) as Hpos by (unfold len; lia).
  destruct m.
  - replace 4%nat with (length key) by assumption.
    rewrite io_ReadFull_app.
    cbn [set_MaskKey set_Payload Payload Fin Rsv1 Rsv2 Rsv3 Opcode Masked MaskKey].
    rewrite len_repeat by assumption.
    replace (len payload >? maxSize) with false by (symmetry; rewrite Z.gtb_ltb; apply Z.ltb_ge; lia).
    destruct payload as [| p ps].
    + reflexivity.
    + replace (len (p :: ps) >? 0) with true
        by (symmetry; rewrite Z.gtb_ltb; apply Z.ltb_lt; unfold len; simpl length; lia).
      rewrite repeat_length. unfold len. rewrite Nat2Z.id.
      rewrite io_ReadFull_app.
      unfold maskBytes. rewrite Hkey.
      replace (4 <? Nat.min 4 (length (p :: ps)))%nat with false
        by (symmetry; apply Nat.ltb_ge; lia).
      reflexivity.
  - subst key. cbn [app].
    cbn [set_MaskKey set_Payload Payload Fin Rsv1 Rsv2 Rsv3 Opcode Masked MaskKey].
    rewrite len_repeat by assumption.
    replace (len payload >? maxSize) with false by (symmetry; rewrite Z.gtb_ltb; apply Z.ltb_ge; lia).
    destruct payload as [| p ps].
    + reflexivity.
    + replace (len (p :: ps) >? 0) with true
        by (symmetry; rewrite Z.gtb_ltb; apply Z.ltb_lt; unfold len; simpl length; lia).
      rewrite repeat_length. unfold len. rewrite Nat2Z.id.
      rewrite io_ReadFull_app. reflexivity.
Qed.

Lemma length_encoding :
  forall (m : bool) n, 0 <= n <= 4294967295 ->
    forall b1 ext,
      (if n <? 126 then (Z.lor (if m then 0x80 else 0) (to_byte n), [])
       else if n <? 65536
            then (Z.lor (if m then 0x80 else 0) 126,
                  BigEndian_PutUint16 (to_uint16 n))
            else (Z.lor (if m then 0x80 else 0) 127,
                  BigEndian_PutUint64 (to_uint64 n))) = (b1, ext) ->
      bit_set b1 0x80 = m
      /\ (forall r, readPayloadLen (Z.land b1 0x7F) (ext ++ r) = Ok (n, r))
      /\ (length ext <= 8)%nat.
Proof.
  intros m n Hn b1 ext E.
  destruct (Z.ltb_spec n 126) as [L1 | G1].
  - inversion E; subst; clear E.
    unfold to_byte. rewrite Z.mod_small by lia.
    destruct (header_byte1 m n) as [A B]; [lia |].
    split; [exact B | split; [| simpl; lia]].
    intros r. rewrite A. unfold readPayloadLen.
    replace (n =? 126) with false by (symmetry; apply Z.eqb_neq; lia).
    replace (n =? 127) with false by (symmetry; apply Z.eqb_neq; lia).
    reflexivity.
  - destruct (Z.ltb_spec n 65536) as [L2 | G2].
    + inversion E; subst; clear E.
      destruct (header_byte1 m 126) as [A B]; [lia |].
      split; [exact B | split; [| simpl; lia]].
      intros r. rewrite A. unfold readPayloadLen.
      replace (126 =? 126) with true by reflexivity.
      unfold to_uint16. rewrite Z.mod_small by lia.
      rewrite (io_ReadFull_app (BigEndian_PutUint16 n) r
               : io_ReadFull (BigEndian_PutUint16 n ++ r) 2 = _).
      rewrite Uint16_PutUint16 by lia. reflexivity.
    + inversion E; subst; clear E.
      destruct (header_byte1 m 127) as [A B]; [lia |].
      split; [exact B | split; [| simpl; lia]].
      intros r. rewrite A. unfold readPayloadLen.
      replace (127 =? 126) with false by reflexivity.
      replace (127 =? 127) with true by reflexivity.
      unfold to_uint64. rewrite Z.mod_small by lia.
      destruct (Uint32_of_bytes n) as [P U]; [lia |].
      rewrite P.
      match goal with
      | |- context [io_ReadFull (?a ++ r) 8] =>
          rewrite (io_ReadFull_app a r : io_ReadFull (a ++ r) 8 = _)
      end.
      cbn [nth skipn Z.eqb negb orb].
      rewrite U. reflexivity.
Qed.

Lemma firstn_length_app :
  forall (a b : list Z), firstn (length a) (a ++ b) = a.
Proof.
  intros a b. rewrite firstn_app, firstn_all, Nat.sub_diag.
  cbn [firstn]. apply app_nil_r.
Qed.

Lemma header_assembled :
  forall buf hd key,
    firstn (length hd + length key)
      (put_at (put_at buf 0 hd) (length hd) key) = hd ++ key.
Proof.
  intros buf hd key. unfold put_at. cbn [firstn app Nat.add].
  rewrite (firstn_length_app hd).
  rewrite app_assoc. rewrite <- length_app.
  apply firstn_length_app.
Qed.

(** C6, as amended: a syntactically valid frame whose reserved bits are
    clear, written by [writeFrame] and parsed by [readFrame] under a frame
    limit that admits its payload, comes back with the same fin, reserved
    bits, opcode, masked flag and mask key; the payload comes back as written
    when the frame is unmasked and XOR-ed with the mask key when it is
    masked ([writeFrame] emits the payload as given, [readFrame] unmasks). *)
Theorem frame_roundtrip :
  forall f w buf maxSize rest,
    valid_frame f -> (14 <= length buf)%nat -> len (Payload f) <= maxSize ->
    exists wire buf',
      writeFrame w buf f = Ok (w ++ wire, buf')
      /\ readFrame (wire ++ rest) maxSize = Ok (unmasked f, rest).
Proof.
  intros f w buf maxSize rest Hv Hbuf Hmax.
  destruct f as [fin r1 r2 r3 op m key payload].
  destruct Hv as [Hop Hctl Hrsv Hkey _ Hlen].
  cbn [Opcode Fin Payload Masked MaskKey Rsv1 Rsv2 Rsv3] in *.
  destruct Hrsv as [-> [-> ->]].
  unfold writeFrame, unmasked.
  cbn [Opcode Fin Payload Masked MaskKey Rsv1 Rsv2 Rsv3 set_Payload].
  assert (0 <= len payload) as Hpos by (unfold len; lia).
  destruct (if len payload <? 126
            then (Z.lor (if m then 128 else 0) (to_byte (len payload)), [])
            else if len payload <? 65536
                 then (Z.lor (if m then 128 else 0) 126,
                       BigEndian_PutUint16 (to_uint16 (len payload)))
                 else (Z.lor (if m then 128 else 0) 127,
                       BigEndian_PutUint64 (to_uint64 (len payload))))
    as [b1 ext] eqn:E.
  destruct (length_encoding m (len payload) (conj Hpos Hlen) b1 ext E)
    as [Hm [Hrd Hext]].
  destruct (header_byte0 fin op Hop) as (B1 & B2 & B3 & B4 & B5 & B6).
  cbv zeta in B1, B2, B3, B4, B5, B6.
  set (b0 := Z.lor (if fin then Z.lor 0 finMask else 0) (Z.land op opMask)) in *.
  assert (length (if m then firstn 4 key else []) = if m then 4%nat else 0%nat)
    as Hk.
  { destruct m; [| reflexivity]. destruct Hkey as [Hk _].
    rewrite firstn_all2 by lia. exact Hk. }
  assert ((if m then firstn 4 key else []) = key) as Hk'.
  { destruct m; [| symmetry; exact Hkey]. destruct Hkey as [Hk4 _].
    apply firstn_all2. lia. }
  exists (b0 :: b1 :: ext ++ key ++ payload), 
    (put_at (put_at buf 0 (b0 :: b1 :: ext)) (2 + length ext)
       (if m then firstn 4 key else [])).
  split.
  - replace (length buf <? (if m then (2 + length ext + 4)%nat
                            else (2 + length ext)%nat))%nat with false
      by (symmetry; apply Nat.ltb_ge; destruct m; lia).
    f_equal. f_equal. f_equal.
    replace (if m then (2 + length ext + 4)%nat else (2 + length ext)%nat)
      with (length (b0 :: b1 :: ext)
            + length (if m then firstn 4 key else []))%nat
      by (rewrite Hk; simpl; destruct m; lia).
    change (2 + length ext)%nat with (length (b0 :: b1 :: ext)).
    rewrite header_assembled. rewrite Hk'.
    cbn [app]. rewrite <- !app_assoc. reflexivity.
  - cbn [app]. rewrite <- !app_assoc.
    apply readFrame_wire; try assumption.
    + intros H. apply Hctl in H. apply H.
    + destruct m; [apply Hkey | exact Hkey].
Qed.

Ltac prove_bytes := repeat constructor; unfold is_byte; lia.

Lemma frame_roundtrip_witness :
  let f := mkFrame true false false false opText true
             [0x37; 0xfa; 0x21; 0x3d] [0x7f; 0x9f; 0x4d; 0x51; 0x58] in
  valid_frame f
  /\ (14 <= length (repeat 0 14))%nat
  /\ len (Payload f) <= 4096
  /\ exists wire buf',
      writeFrame [] (repeat 0 14) f = Ok ([] ++ wire, buf')
      /\ readFrame (wire ++ []) 4096 = Ok (unmasked f, []).
Proof.
  cbv zeta.
  assert (valid_frame (mkFrame true false false false opText true
                         [0x37; 0xfa; 0x21; 0x3d]
                         [0x7f; 0x9f; 0x4d; 0x51; 0x58])) as Hv.
  { constructor; cbn [Opcode Fin Rsv1 Rsv2 Rsv3 Masked MaskKey Payload].
    - unfold valid_opcode. simpl. auto.
    - unfold opText. lia.
    - auto.
    - split; [reflexivity | prove_bytes].
    - prove_bytes.
    - unfold len. simpl. lia. }
  split; [exact Hv |].
  split; [simpl; lia |].
  split; [unfold len; simpl; lia |].
  apply (frame_roundtrip _ [] (repeat 0 14) 4096 [] Hv).
  - simpl. lia.
  - unfold len. simpl. lia.
Defined.

(** C6, the claim as written fails on a masked frame: the parsed payload is
    the written one XOR-ed with the key, not the written one.  It also fails
    on a frame that carries rsv1, which [readFrame] refuses. *)
Lemma masked_payload_changes :
  let f := mkFrame true false false false opText true [1; 2; 3; 4] [0; 0] in
  let g := mkFrame true true false false opText false [] [0x61] in
  writeFrame [] (repeat 0 14) f
  = Ok ([0x81; 0x82; 1; 2; 3; 4; 0; 0], [0x81; 0x82; 1; 2; 3; 4] ++ repeat 0 8)
  /\ readFrame [0x81; 0x82; 1; 2; 3; 4; 0; 0] 4096
     = Ok (set_Payload f [1; 2], [])
  /\ [1; 2] <> Payload f
  /\ writeFrame [] (repeat 0 14) g
     = Ok ([0xC1; 0x01; 0x61], [0xC1; 0x01] ++ repeat 0 12)
  /\ readFrame [0xC1; 0x01; 0x61] 4096 = Err ErrInvalidFrame.
Proof.
  cbv zeta. repeat split; try reflexivity. discriminate.
Qed.
(** *** Close codes *)

Ltac split_code c :=
  repeat match goal with
         | |- context [c =? ?k] =>
             destruct (Z.eqb_spec c k); [subst c; vm_compute; intuition (try discriminate; try lia) |]
         end.

(** C7, as amended: [IsRecoverable] answers true exactly for 1001, 1005,
    1006, 1011, 1012, 1013, 1014 and every code from 4000 on; every other
    code, among them 1000, 1002, 1003, 1007, 1008, 1009 and 1010, gets
    false. *)
Theorem IsRecoverable_exactly :
  forall c : CloseCode,
    IsRecoverable c = true <->
    (In c [1001; 1005; 1006; 1011; 1012; 1013; 1014] \/ 4000 <= c).
Proof.
  intros c.
  unfold IsRecoverable, case_of, CloseNormalClosure, CloseGoingAway,
    CloseProtocolError, CloseUnsupportedData, CloseNoStatusReceived,
    CloseAbnormalClosure, CloseInvalidPayloadData, ClosePolicyViolation,
    CloseMessageTooBig, CloseMandatoryExtension, CloseInternalError,
    CloseServiceRestart, CloseTryAgainLater, CloseBadGateway.
  split_code c.
  simpl. rewrite Z.geb_le. split.
  - intros H. right. exact H.
  - intros [H | H]; [| exact H].
    simpl in H. intuition congruence.
Qed.

(** C7, the claim as written fails at 1005 (no status received): the code is
    below 4000 and outside the claim's list, yet it is recoverable. *)
Lemma IsRecoverable_1005 :
  IsRecoverable 1005 = true
  /\ ~ In 1005 [1001; 1006; 1011; 1012; 1013; 1014]
  /\ 1005 < 4000.
Proof.
  split; [reflexivity | split; [| lia]].
  simpl. intuition discriminate.
Qed.

(** *** Connection state machine *)

Lemma ConnectionState_eqb_eq :
  forall a b, ConnectionState_eqb a b = true <-> a = b.
Proof.
  intros a b; split.
  - destruct a, b; simpl; intros H; try reflexivity; discriminate H.
  - intros ->. destruct b; reflexivity.
Qed.

Lemma ConnectionState_eqb_refl : forall a, ConnectionState_eqb a a = true.
Proof. intros a. apply ConnectionState_eqb_eq. reflexivity. Qed.

Lemma transition_cas :
  forall sm from to err attempt now,
    (snd (transition sm from to err attempt now) = true <-> state sm = from)
    /\ (state sm = from ->
        state (fst (transition sm from to err attempt now)) = to)
    /\ (state sm <> from ->
        fst (transition sm from to err attempt now) = sm).
Proof.
  intros sm from to err attempt now. unfold transition.
  destruct (ConnectionState_eqb (state sm) from) eqn:E; simpl.
  - apply ConnectionState_eqb_eq in E.
    repeat split; auto. intros H. contradiction.
  - assert (state sm <> from) as N.
    { intros H. apply ConnectionState_eqb_eq in H. congruence. }
    repeat split; try discriminate; auto; intros H; contradiction.
Qed.

Lemma forceTransition_swap :
  forall sm to err attempt now,
    state (fst (forceTransition sm to err attempt now)) = to
    /\ snd (forceTransition sm to err attempt now) = state sm.
Proof.
  intros sm to err attempt now. unfold forceTransition.
  destruct (ConnectionState_eqb (state sm) to); simpl; split; reflexivity.
Qed.

(** [isValidTransition] is membership in the lifecycle table. *)
Lemma isValidTransition_table :
  forall from to,
    isValidTransition from to = true <-> In to (validTransitions from).
Proof.
  intros from to. unfold isValidTransition. rewrite existsb_exists. split.
  - intros [s [Hin Heq]]. apply ConnectionState_eqb_eq in Heq. subst. exact Hin.
  - intros Hin. exists to. split; [exact Hin | apply ConnectionState_eqb_refl].
Qed.

(** C2, as amended: along an edge [(from, to)] of the lifecycle table,
    [transition] is a compare-and-set: it succeeds exactly when the current
    state is [from]; a successful call leaves the state at [to], one step
    along the table from the state it found, and a failed call changes
    nothing.  [forceTransition] sets the state to [to] from every state, the
    closed one included, and returns the state it replaced. *)
Theorem transition_on_table_edge :
  forall sm from to err attempt now,
    isValidTransition from to = true ->
    let r := transition sm from to err attempt now in
    (snd r = true <-> state sm = from)
    /\ (snd r = true ->
        state (fst r) = to
        /\ In (state (fst r)) (validTransitions (state sm)))
    /\ (snd r = false -> fst r = sm)
    /\ state (fst (forceTransition sm to err attempt now)) = to
    /\ snd (forceTransition sm to err attempt now) = state sm.
Proof.
  intros sm from to err attempt now Hedge r.
  destruct (transition_cas sm from to err attempt now) as [H1 [H2 H3]].
  destruct (forceTransition_swap sm to err attempt now) as [H4 H5].
  fold r in H1, H2, H3.
  split; [exact H1 |].
  split.
  - intros Hok. apply H1 in Hok.
    split; [apply H2; exact Hok |].
    rewrite (H2 Hok), Hok. apply isValidTransition_table. exact Hedge.
  - split; [| split; assumption].
    intros Hfail. apply H3. intros Heq. apply H1 in Heq. congruence.
Qed.

Lemma transition_on_table_edge_witness :
  let r := transition newStateManager StateDisconnected StateConnecting
             None 0 0 in
  isValidTransition StateDisconnected StateConnecting = true
  /\ snd r = true
  /\ state (fst r) = StateConnecting
  /\ In (state (fst r)) (validTransitions (state newStateManager)).
Proof.
  cbv zeta. split; [reflexivity |]. split; [reflexivity |].
  apply (transition_on_table_edge newStateManager StateDisconnected
           StateConnecting None 0 0); reflexivity.
Defined.

(** C2, the claim as written fails on a manager whose state is closed:
    [forceTransition] to the connected state leaves the closed state, and
    [transition] from closed to connecting succeeds although the table has no
    such edge. *)
Lemma closed_state_is_left :
  let sm := mkStateManager StateClosed EmptyString [] [] in
  state sm = StateClosed
  /\ state (fst (forceTransition sm StateConnected None 0 0)) = StateConnected
  /\ StateConnected <> StateClosed
  /\ snd (transition sm StateClosed StateConnecting None 0 0) = true
  /\ state (fst (transition sm StateClosed StateConnecting None 0 0))
     = StateConnecting
  /\ isValidTransition StateClosed StateConnecting = false.
Proof.
  simpl. repeat split; try reflexivity. discriminate.
Qed.

(** *** Message Queue.queue counters *)

Lemma wrap64_small :
  forall z, -9223372036854775808 <= z < 9223372036854775808 -> wrap64 z = z.
Proof.
  intros z Hz. unfold wrap64.
  rewrite Z.mod_small by lia. lia.
Qed.

Section QueueFacts.

Variables T Ctx World : Type.

Lemma signals_keep_counters :
  forall (q : list (Queue.queuedMessage T Ctx)) (mq : Queue.MessageQueue T Ctx),
    let mq' := fold_left
                 (fun m qm => Queue.signal m (Queue.errCh qm)
                                (Some ErrQueueCleared)) q mq in
    Queue.sent mq' = Queue.sent mq /\ Queue.dropped mq' = Queue.dropped mq
    /\ Queue.enqueued mq' = Queue.enqueued mq /\ Queue.queue mq' = Queue.queue mq.
Proof.
  induction q as [| qm q IH]; intros mq; simpl.
  - repeat split.
  - specialize (IH (Queue.signal mq (Queue.errCh qm) (Some ErrQueueCleared))).
    simpl in IH. exact IH.
Qed.

Lemma flushLoop_counts :
  forall sendFn ctxErr now (q : list (Queue.queuedMessage T Ctx))
         (mq : Queue.MessageQueue T Ctx) (w : World),
    0 <= Queue.sent mq -> 0 <= Queue.dropped mq ->
    Queue.sent mq + Queue.dropped mq + Z.of_nat (length q)
    < 9223372036854775808 ->
    let mq' := fst (Queue.flushLoop sendFn ctxErr now q mq w) in
    Queue.sent mq <= Queue.sent mq'
    /\ Queue.dropped mq <= Queue.dropped mq'
    /\ Queue.sent mq' + Queue.dropped mq'
       = Queue.sent mq + Queue.dropped mq + Z.of_nat (length q)
    /\ Queue.enqueued mq' = Queue.enqueued mq
    /\ Queue.queue mq' = Queue.queue mq.
Proof.
  intros sendFn ctxErr now.
  induction q as [| qm q IH]; intros mq w Hs Hd Hb.
  - simpl. repeat split; lia.
  - simpl length in Hb. rewrite Nat2Z.inj_succ in Hb.
    assert (forall (m1 : Queue.MessageQueue T Ctx) (w1 : World),
               Queue.sent mq <= Queue.sent m1 ->
               Queue.dropped mq <= Queue.dropped m1 ->
               Queue.sent m1 + Queue.dropped m1
               = Queue.sent mq + Queue.dropped mq + 1 ->
               Queue.enqueued m1 = Queue.enqueued mq ->
               Queue.queue m1 = Queue.queue mq ->
               let mq' := fst (Queue.flushLoop sendFn ctxErr now q m1 w1) in
               Queue.sent mq <= Queue.sent mq'
               /\ Queue.dropped mq <= Queue.dropped mq'
               /\ Queue.sent mq' + Queue.dropped mq'
                  = Queue.sent mq + Queue.dropped mq
                    + Z.of_nat (length (qm :: q))
               /\ Queue.enqueued mq' = Queue.enqueued mq
               /\ Queue.queue mq' = Queue.queue mq) as Hstep.
    { intros m1 w1 L1 L2 E1 E2 E3.
      destruct (IH m1 w1) as (I1 & I2 & I3 & I4 & I5); try lia.
      cbv zeta. simpl length. rewrite Nat2Z.inj_succ.
      repeat split; try lia; congruence. }
    assert (Queue.dropped mq + 1 < 9223372036854775808) as Bd by lia.
    assert (Queue.sent mq + 1 < 9223372036854775808) as Bs by lia.
    cbn [Queue.flushLoop].
    destruct (now >? Queue.timeout qm).
    + apply Hstep; simpl; unfold add64;
        try rewrite wrap64_small by lia; try reflexivity; lia.
    + destruct (match Queue.ctx qm with
                | Some c => ctxErr w c
                | None => None
                end) as [e |].
      * apply Hstep; simpl; unfold add64;
          try rewrite wrap64_small by lia; try reflexivity; lia.
      * destruct (sendFn w (Queue.ctx qm) (Queue.msg qm)) as [err w'].
        destruct err as [e |].
        -- apply Hstep; simpl; unfold add64;
             try rewrite wrap64_small by lia; try reflexivity; lia.
        -- apply Hstep; simpl; unfold add64;
             try rewrite wrap64_small by lia; try reflexivity; lia.
Qed.

Lemma Clear_counted :
  forall n (mq : Queue.MessageQueue T Ctx) r, n < 9223372036854775808 ->
    Queue.counted n mq r -> Queue.counted n (Queue.Clear mq) r.
Proof.
  intros n mq r Hn (Hs & Hd & He & Hr & Heq & Hle).
  unfold Queue.Clear.
  pose proof (signals_keep_counters (Queue.queue mq) mq) as K. simpl in K.
  destruct K as [K1 [K2 [K3 K4]]].
  unfold Queue.counted, Queue.Size in *. simpl.
  rewrite K1, K2, K3. unfold add64.
  rewrite wrap64_small by lia.
  repeat split; lia.
Qed.

Lemma step_counted :
  forall n (s : Queue.run_state T Ctx World) (c : Queue.call T Ctx World),
    n + 1 < 9223372036854775808 ->
    Queue.counted n (Queue.mq_of s) (Queue.rejected s) ->
    Queue.counted (n + 1) (Queue.mq_of (Queue.step s c))
      (Queue.rejected (Queue.step s c)).
Proof.
  intros n s c Hn Hc.
  assert (Queue.counted (n + 1) (Queue.mq_of s) (Queue.rejected s)) as Hc1.
  { unfold Queue.counted in *. intuition lia. }
  destruct c as [now cx m | sendFn ctxErr now | |]; simpl.
  - unfold Queue.Enqueue.
    destruct (Queue.closed (Queue.mq_of s)); simpl; [exact Hc1 |].
    destruct Hc as (Hs & Hd & He & Hr & Heq & Hle).
    destruct (Queue.Size (Queue.mq_of s) >=? Queue.maxSize (Queue.mq_of s)); simpl.
    + unfold Queue.counted, Queue.Size in *. simpl. unfold add64.
      rewrite wrap64_small by lia. repeat split; lia.
    + unfold Queue.counted, Queue.Size in *. simpl. unfold add64.
      rewrite wrap64_small by lia.
      rewrite length_app. simpl. repeat split; lia.
  - unfold Queue.Flush.
    destruct Hc as (Hs & Hd & He & Hr & Heq & Hle).
    pose proof (flushLoop_counts sendFn ctxErr now (Queue.queue (Queue.mq_of s))
                  (Queue.with_queue (Queue.mq_of s) []) (Queue.world_of s))
      as K.
    simpl in K. unfold Queue.Size in *.
    destruct K as (K1 & K2 & K3 & K4 & K5); try lia.
    destruct (Queue.flushLoop sendFn ctxErr now (Queue.queue (Queue.mq_of s))
                (Queue.with_queue (Queue.mq_of s) []) (Queue.world_of s))
      as [mq' w'].
    simpl in *. unfold Queue.counted, Queue.Size. rewrite K5. simpl.
    repeat split; lia.
  - apply Clear_counted; [lia | exact Hc1].
  - unfold Queue.Close.
    destruct (Queue.closed (Queue.mq_of s)); [exact Hc1 |].
    apply Clear_counted; [lia |]. exact Hc1.
Qed.

Lemma run_counted :
  forall (cs : list (Queue.call T Ctx World)) n
         (s : Queue.run_state T Ctx World),
    n + Z.of_nat (length cs) < 9223372036854775808 ->
    Queue.counted n (Queue.mq_of s) (Queue.rejected s) ->
    let s' := fold_left (@Queue.step T Ctx World) cs s in
    Queue.counted (n + Z.of_nat (length cs)) (Queue.mq_of s') (Queue.rejected s').
Proof.
  induction cs as [| c cs IH]; intros n s Hn Hc.
  - simpl. rewrite Z.add_0_r. exact Hc.
  - simpl fold_left. simpl length in *.
    replace (n + Z.of_nat (S (length cs)))
      with ((n + 1) + Z.of_nat (length cs)) by lia.
    apply IH; [lia |].
    apply step_counted; [lia | exact Hc].
Qed.

End QueueFacts.

Lemma Enqueue_closed_keeps :
  forall (T Ctx World : Type) (s : Queue.run_state T Ctx World) now cx m,
    fst (Queue.Enqueue (Queue.mq_of s) now cx m) = Err ErrQueueClosed ->
    Queue.step s (Queue.CallEnqueue now cx m) = s.
Proof.
  intros T Ctx World [mq w r] now cx m. cbn [Queue.mq_of Queue.step].
  unfold Queue.Enqueue.
  destruct (Queue.closed mq); [reflexivity |].
  destruct (Queue.Size mq >=? Queue.maxSize mq); cbn [fst]; discriminate.
Qed.

(** C3, as amended: after any run of Enqueue, Flush, Clear and Close calls on
    a fresh Queue.queue (fewer than 2^63 calls, so that no 64-bit counter wraps),
    Queue.enqueued plus the number of Enqueue calls rejected with ErrQueueFull
    equals sent + dropped + current size; and an Enqueue that is rejected
    with ErrQueueClosed in the state reached leaves that state as it is: the
    queue with its three counters, and the count of ErrQueueFull
    rejections. *)
Theorem queue_counters_balance :
  forall (T Ctx World : Type) (maxSize timeout : Z) (w : World)
         (cs : list (Queue.call T Ctx World)),
    Z.of_nat (length cs) < 9223372036854775808 ->
    let s := Queue.run (Queue.newMessageQueue T Ctx maxSize timeout) w cs in
    Queue.enqueued (Queue.mq_of s) + Queue.rejected s
    = Queue.sent (Queue.mq_of s) + Queue.dropped (Queue.mq_of s)
      + Queue.Size (Queue.mq_of s)
    /\ forall now cx m,
         fst (Queue.Enqueue (Queue.mq_of s) now cx m) = Err ErrQueueClosed ->
         Queue.step s (Queue.CallEnqueue now cx m) = s.
Proof.
  intros T Ctx World maxSize timeout w cs Hn. unfold Queue.run.
  pose proof (run_counted T Ctx World cs 0
                (Queue.mkRun (Queue.newMessageQueue T Ctx maxSize timeout) w 0))
    as K.
  simpl in K.
  assert (Queue.counted 0 (Queue.newMessageQueue T Ctx maxSize timeout) 0) as H0.
  { unfold Queue.counted, Queue.Size. simpl. lia. }
  specialize (K Hn H0).
  destruct K as (_ & _ & _ & _ & Heq & _).
  split; [exact Heq |].
  intros now cx m. apply Enqueue_closed_keeps.
Qed.

Lemma queue_counters_balance_witness :
  let cs := [Queue.CallEnqueue 0 None 7%nat;
             Queue.CallEnqueue 1 None 8%nat;
             Queue.CallFlush Queue.sendOk Queue.ctxLive 2;
             Queue.CallEnqueue 3 None 9%nat;
             Queue.CallClose;
             Queue.CallEnqueue 4 None 10%nat] in
  let s := Queue.run (Queue.newMessageQueue nat unit 1 0) tt cs in
  Z.of_nat (length cs) < 9223372036854775808
  /\ Queue.enqueued (Queue.mq_of s) + Queue.rejected s
     = Queue.sent (Queue.mq_of s) + Queue.dropped (Queue.mq_of s)
       + Queue.Size (Queue.mq_of s)
  /\ fst (Queue.Enqueue (Queue.mq_of s) 5 None 11%nat) = Err ErrQueueClosed
  /\ Queue.step s (Queue.CallEnqueue 5 None 11%nat) = s.
Proof.
  cbv zeta.
  assert (Z.of_nat
            (length
               [Queue.CallEnqueue 0 None 7%nat;
                Queue.CallEnqueue 1 None 8%nat;
                Queue.CallFlush Queue.sendOk Queue.ctxLive 2;
                Queue.CallEnqueue 3 None 9%nat;
                @Queue.CallClose nat unit unit;
                Queue.CallEnqueue 4 None 10%nat])
          < 9223372036854775808) as Hn by (simpl; lia).
  split; [exact Hn |].
  destruct (queue_counters_balance nat unit unit 1 0 tt _ Hn) as [B C].
  split; [exact B |].
  split; [reflexivity | apply C; reflexivity].
Defined.

(** C3, the claim as written fails once an Enqueue is rejected with
    ErrQueueFull: the rejected call raises [dropped] and leaves [enqueued]. *)
Lemma queue_full_breaks_balance :
  let s := Queue.run (Queue.newMessageQueue nat unit 1 0) tt
             [Queue.CallEnqueue 0 None 7%nat;
              Queue.CallEnqueue 1 None 8%nat] in
  Queue.enqueued (Queue.mq_of s) = 1
  /\ Queue.sent (Queue.mq_of s) = 0
  /\ Queue.dropped (Queue.mq_of s) = 1
  /\ Queue.Size (Queue.mq_of s) = 1
  /\ Queue.enqueued (Queue.mq_of s)
     <> Queue.sent (Queue.mq_of s) + Queue.dropped (Queue.mq_of s)
        + Queue.Size (Queue.mq_of s).
Proof.
  vm_compute. repeat split; discriminate.
Qed.

(** *** Accept key *)

Example sha1_abc :
  sha1.SHA1 (bytes_of_string "abc")
  = [0xa9; 0x99; 0x3e; 0x36; 0x47; 0x06; 0x81; 0x6a; 0xba; 0x3e;
     0x25; 0x71; 0x78; 0x50; 0xc2; 0x6c; 0x9c; 0xd0; 0xd8; 0x9d].
Proof. vm_compute. reflexivity. Qed.

Example sha1_two_blocks :
  sha1.SHA1 (bytes_of_string
               "abcdbcdecdefdefgefghfghighijhijkijkljklmklmnlmnomnopnopq")
  = [0x84; 0x98; 0x3e; 0x44; 0x1c; 0x3b; 0xd2; 0x6e; 0xba; 0xae;
     0x4a; 0xa1; 0xf9; 0x51; 0x29; 0xe5; 0xe5; 0x46; 0x70; 0xf1].
Proof. vm_compute. reflexivity. Qed.

Example base64_foobar :
  base64.EncodeToString (bytes_of_string "foobar") = "Zm9vYmFy"%string
  /\ base64.EncodeToString (bytes_of_string "fooba") = "Zm9vYmE="%string
  /\ base64.EncodeToString (bytes_of_string "foob") = "Zm9vYg=="%string.
Proof. vm_compute. repeat split. Qed.

Ltac dlia := zify; Z.to_euclidean_division_equations; lia.

Lemma blocks_app_prefix :
  forall k hh p q, (k * 64 <= length p)%nat ->
    sha1.blocks k hh (p ++ q) = sha1.blocks k hh p.
Proof.
  induction k as [| k IH]; intros hh p q Hk; [reflexivity |].
  cbn [sha1.blocks]. unfold sha1.chunk.
  rewrite firstn_app, skipn_app.
  replace (64 - length p)%nat with 0%nat by lia.
  change (firstn 0 q) with (@nil Z). change (skipn 0 q) with q.
  rewrite app_nil_r.
  apply IH. rewrite length_skipn. lia.
Qed.

Lemma blocks_add :
  forall k1 k2 hh p,
    sha1.blocks (k1 + k2) hh p
    = sha1.blocks k2 (sha1.blocks k1 hh p) (skipn (k1 * 64) p).
Proof.
  induction k1 as [| k1 IH]; intros k2 hh p; [reflexivity |].
  cbn [sha1.blocks Nat.add]. rewrite IH. unfold sha1.chunk.
  rewrite skipn_skipn. f_equal. f_equal. lia.
Qed.

Lemma absorbed_New : absorbed sha1.New [].
Proof. repeat split. Qed.

Lemma skipn_app_le :
  forall (n : nat) (a b : list Z), (n <= length a)%nat ->
    skipn n (a ++ b) = skipn n a ++ b.
Proof.
  intros n a b H. rewrite skipn_app.
  replace (n - length a)%nat with 0%nat by lia. reflexivity.
Qed.

Lemma skipn_app_all :
  forall (a b : list Z), skipn (length a) (a ++ b) = b.
Proof.
  intros a b. rewrite skipn_app, skipn_all, Nat.sub_diag. reflexivity.
Qed.

(** The bulk step of Write on a digest that holds no unfinished block. *)
Lemma bulk_absorbed :
  forall hh m p,
    (length m mod 64 = 0)%nat ->
    hh = sha1.blocks (length m / 64) sha1.init m ->
    forall h2 p2,
      (if (sha1.chunk <=? length p)%nat
       then (sha1.blockGeneric hh
               (firstn (length p / sha1.chunk * sha1.chunk) p),
             skipn (length p / sha1.chunk * sha1.chunk) p)
       else (hh, p)) = (h2, p2) ->
      h2 = sha1.blocks (length (m ++ p) / 64) sha1.init (m ++ p)
      /\ p2 = skipn (length (m ++ p) / 64 * 64) (m ++ p).
Proof.
  intros hh m p Hal Hh h2 p2 E. unfold sha1.chunk in E.
  assert (length m = (length m / 64 * 64)%nat) as Hm by dlia.
  assert (length (m ++ p) / 64 = length m / 64 + length p / 64)%nat as Hq.
  { rewrite length_app. dlia. }
  rewrite Hq.
  assert (skipn ((length m / 64 + length p / 64) * 64) (m ++ p)
          = skipn (length p / 64 * 64) p) as Hs.
  { replace ((length m / 64 + length p / 64) * 64)%nat
      with (length p / 64 * 64 + length m)%nat by lia.
    rewrite <- skipn_skipn. rewrite skipn_app_all. reflexivity. }
  assert (sha1.blocks (length m / 64 + length p / 64) sha1.init (m ++ p)
          = sha1.blocks (length p / 64) hh p) as Hb.
  { rewrite blocks_add. rewrite <- Hm. rewrite skipn_app_all.
    rewrite blocks_app_prefix by lia. rewrite <- Hh. reflexivity. }
  rewrite Hs, Hb.
  destruct (Nat.leb_spec 64 (length p)) as [L | G];
    apply pair_equal_spec in E; destruct E as [E1 E2]; subst h2 p2.
  - split; [| reflexivity].
    unfold sha1.blockGeneric, sha1.chunk.
    rewrite length_firstn.
    replace (Nat.min (length p / 64 * 64) (length p) / 64)%nat
      with (length p / 64)%nat by dlia.
    transitivity (sha1.blocks (length p / 64) hh
                    (firstn (length p / 64 * 64) p
                     ++ skipn (length p / 64 * 64) p)).
    + symmetry. apply blocks_app_prefix. rewrite length_firstn. dlia.
    + rewrite firstn_skipn. reflexivity.
  - replace (length p / 64)%nat with 0%nat by dlia.
    split; reflexivity.
Qed.

Lemma Write_absorbed :
  forall d m p, absorbed d m -> absorbed (sha1.Write d p) (m ++ p).
Proof.
  intros d m p (Hh & Hx & Hl).
  assert (length (sha1.x d) = (length m mod 64)%nat) as Hxl.
  { rewrite Hx, length_skipn. dlia. }
  assert (to_uint64 (sha1.len d + Z.of_nat (length p))
          = to_uint64 (Z.of_nat (length (m ++ p)))) as Hlen.
  { rewrite Hl. unfold to_uint64. rewrite length_app, Nat2Z.inj_add.
    rewrite Zplus_mod_idemp_l. reflexivity. }
  unfold sha1.Write. rewrite Hlen.
  destruct (Nat.ltb_spec 0 (length (sha1.x d))) as [Hpos | Hzero].
  - set (n := Nat.min (sha1.chunk - length (sha1.x d)) (length p)).
    assert (n <= length p)%nat as Hn by (unfold n; lia).
    destruct (Nat.eqb_spec (length (sha1.x d ++ firstn n p)) sha1.chunk)
      as [Hfull | Hnot].
    + (* the unfinished block is completed *)
      assert (length (sha1.x d) + n = 64)%nat as Hsum.
      { rewrite length_app, length_firstn in Hfull.
        unfold sha1.chunk in Hfull. lia. }
      set (m' := m ++ firstn n p).
      assert (length m' = length m + n)%nat as Hm'.
      { unfold m'. rewrite length_app, length_firstn. lia. }
      assert (length m' mod 64 = 0)%nat as Hal by dlia.
      assert (sha1.block1 (sha1.h d) (sha1.x d ++ firstn n p)
              = sha1.blocks (length m' / 64) sha1.init m') as Hh'.
      { replace (length m' / 64)%nat with (length m / 64 + 1)%nat by dlia.
        rewrite blocks_add. unfold m'.
        rewrite blocks_app_prefix by dlia. rewrite <- Hh.
        rewrite skipn_app_le by dlia. rewrite <- Hx.
        cbn [sha1.blocks]. f_equal. symmetry.
        apply firstn_all2. rewrite Hfull. unfold sha1.chunk. lia. }
      destruct (if (sha1.chunk <=? length (skipn n p))%nat
                then (sha1.blockGeneric
                        (sha1.block1 (sha1.h d) (sha1.x d ++ firstn n p))
                        (firstn (length (skipn n p) / sha1.chunk * sha1.chunk)
                           (skipn n p)),
                      skipn (length (skipn n p) / sha1.chunk * sha1.chunk)
                        (skipn n p))
                else (sha1.block1 (sha1.h d) (sha1.x d ++ firstn n p),
                      skipn n p)) as [h2 p2] eqn:E.
      destruct (bulk_absorbed _ m' (skipn n p) Hal Hh' h2 p2 E) as [B1 B2].
      unfold m' in B1, B2. rewrite <- app_assoc, firstn_skipn in B1, B2.
      unfold absorbed. cbn [sha1.h sha1.x sha1.len].
      split; [exact B1 | split; [| reflexivity]].
      destruct p2 as [| y p2]; [| exact B2].
      cbn [length Nat.ltb Nat.leb]. exact B2.
    + (* the unfinished block stays unfinished *)
      assert (length (sha1.x d) + n < 64)%nat as Hsum.
      { rewrite length_app, length_firstn in Hnot.
        unfold sha1.chunk in Hnot. unfold n, sha1.chunk in *. lia. }
      assert (n = length p) as Hnp by (unfold n, sha1.chunk in *; lia).
      rewrite Hnp. rewrite skipn_all, firstn_all.
      cbn [length Nat.leb Nat.ltb].
      unfold absorbed. cbn [sha1.h sha1.x sha1.len].
      assert (length (m ++ p) / 64 = length m / 64)%nat as Hq.
      { rewrite length_app. dlia. }
      rewrite Hq.
      split; [| split; [| reflexivity]].
      * rewrite blocks_app_prefix by dlia. exact Hh.
      * rewrite skipn_app_le by dlia. rewrite <- Hx. reflexivity.
  - (* no unfinished block *)
    assert (length m mod 64 = 0)%nat as Hal by lia.
    assert (sha1.x d = []) as Hnil.
    { destruct (sha1.x d); [reflexivity | simpl in Hzero; lia]. }
    destruct (if (sha1.chunk <=? length p)%nat
              then (sha1.blockGeneric (sha1.h d)
                      (firstn (length p / sha1.chunk * sha1.chunk) p),
                    skipn (length p / sha1.chunk * sha1.chunk) p)
              else (sha1.h d, p)) as [h2 p2] eqn:E.
    destruct (bulk_absorbed _ m p Hal Hh h2 p2 E) as [B1 B2].
    unfold absorbed. cbn [sha1.h sha1.x sha1.len].
    split; [exact B1 | split; [| reflexivity]].
    rewrite Hnil.
    destruct p2 as [| y p2]; [| exact B2].
    cbn [length Nat.ltb Nat.leb]. exact B2.
Qed.

(** Two writes and a sum hash the concatenation. *)
Lemma Sum_is_SHA1 :
  forall a b,
    sha1.Sum (sha1.Write (sha1.Write sha1.New a) b) [] = sha1.SHA1 (a ++ b).
Proof.
  intros a b.
  pose proof (Write_absorbed _ _ b (Write_absorbed _ _ a absorbed_New)) as R.
  cbn [app] in R.
  set (d := sha1.Write (sha1.Write sha1.New a) b) in *.
  unfold sha1.Sum, sha1.checkSum, sha1.SHA1. cbn [app].
  destruct R as (Hh & Hx & Hl).
  pose proof (Write_absorbed d (a ++ b) (sha1.padding (sha1.len d))
                (conj Hh (conj Hx Hl))) as (Ph & _ & _).
  rewrite Ph. rewrite Hl. reflexivity.
Qed.

(** C9: for every key the accept value is base64(SHA1(key ++ GUID)), the
    hash being that of the concatenation although the code feeds the digest
    in two writes; for the key of RFC 6455 it is s3pPLMBiTxaQ9kYGzzhZRbK+xOo=. *)
Theorem computeAcceptKey_spec :
  (forall k : string,
      computeAcceptKey k
      = base64.EncodeToString
          (sha1.SHA1 (bytes_of_string k ++ bytes_of_string websocketGUID)))
  /\ computeAcceptKey "dGhlIHNhbXBsZSBub25jZQ=="
     = "s3pPLMBiTxaQ9kYGzzhZRbK+xOo="%string.
Proof.
  split.
  - intros k. unfold computeAcceptKey. cbv zeta.
    rewrite Sum_is_SHA1. reflexivity.
  - vm_compute. reflexivity.
Qed.

(** *** The flate reader *)

Example inflate_stored :
  flate.ReadAll [0x01; 0x05; 0x00; 0xfa; 0xff; 0x48; 0x65; 0x6c; 0x6c; 0x6f]
  = ([0x48; 0x65; 0x6c; 0x6c; 0x6f], None).
Proof. vm_compute. reflexivity. Qed.

(** "Hello" in one final block with the fixed code (RFC 7692, 7.2.3.4). *)
Example inflate_fixed_final :
  flate.ReadAll [0xf3; 0x48; 0xcd; 0xc9; 0xc9; 0x07; 0x00]
  = ([0x48; 0x65; 0x6c; 0x6c; 0x6f], None).
Proof. vm_compute. reflexivity. Qed.

(** The same message after a sync flush (RFC 7692, 7.2.3.1): all of it is
    read, and the reader then runs off the end of a stream that has no final
    block. *)
Example inflate_sync_flushed :
  flate.ReadAll [0xf2; 0x48; 0xcd; 0xc9; 0xc9; 0x07; 0x00;
                 0x00; 0x00; 0xff; 0xff]
  = ([0x48; 0x65; 0x6c; 0x6c; 0x6f], Some io_ErrUnexpectedEOF).
Proof. vm_compute. reflexivity. Qed.

(** With an empty final block after the sync marker the stream ends well. *)
Example inflate_sync_flushed_then_final :
  flate.ReadAll [0xf2; 0x48; 0xcd; 0xc9; 0xc9; 0x07; 0x00;
                 0x00; 0x00; 0xff; 0xff; 0x01; 0x00; 0x00; 0xff; 0xff]
  = ([0x48; 0x65; 0x6c; 0x6c; 0x6f], None).
Proof. vm_compute. reflexivity. Qed.

Example inflate_storedFlush :
  flate.ReadAll (storedFlush [0x48; 0x65; 0x6c; 0x6c; 0x6f])
  = ([0x48; 0x65; 0x6c; 0x6c; 0x6f], Some io_ErrUnexpectedEOF).
Proof. vm_compute. reflexivity. Qed.

(** A block compressed with a dynamic code, and a back reference. *)
Example inflate_dynamic :
  flate.ReadAll
    [0x1d; 0xc6; 0x49; 0x01; 0x00; 0x00; 0x10; 0x40; 0xc0; 0xac; 0xa3; 0x7f;
     0x88; 0x3d; 0x3c; 0x20; 0x2a; 0x97; 0x9d; 0x37; 0x5e; 0x1d; 0x0c]
  = (bytes_of_string "abaabbbabaababbaababaaaabaaabbbbbaa", None).
Proof. vm_compute. reflexivity. Qed.

Lemma take_bits_length :
  forall n bits v r,
    flate.take_bits n bits = Some (v, r) ->
    (length r + n = length bits)%nat.
Proof.
  induction n as [| n IH]; intros bits v r H; simpl in H.
  - inversion H; subst. lia.
  - destruct bits as [| b bits]; [discriminate |].
    destruct (flate.take_bits n bits) as [[v' r'] |] eqn:E; [| discriminate].
    inversion H; subst. apply IH in E. simpl. lia.
Qed.

Lemma take_bytes_length :
  forall n bits bs r,
    flate.take_bytes n bits = Some (bs, r) ->
    (length r <= length bits)%nat.
Proof.
  induction n as [| n IH]; intros bits bs r H; cbn [flate.take_bytes] in H.
  - inversion H; subst. lia.
  - destruct (flate.take_bits 8 bits) as [[b r1] |] eqn:E1; [| discriminate].
    destruct (flate.take_bytes n r1) as [[bs' r'] |] eqn:E2; [| discriminate].
    inversion H; subst. apply IH in E2. apply take_bits_length in E1. lia.
Qed.

Lemma walk_length :
  forall n l code first index h bits v r,
    flate.walk n l code first index h bits = Ok (v, r) ->
    (length r < length bits)%nat.
Proof.
  induction n as [| n IH]; intros l code first index h bits v r H;
    cbn [flate.walk] in H; [discriminate |].
  destruct bits as [| b bits]; [discriminate |].
  destruct (code + Z.b2z b - first <?
            nth (Z.to_nat l) (flate.counts h) 0).
  - inversion H; subst. simpl. lia.
  - apply IH in H. simpl. lia.
Qed.

Lemma huffSym_length :
  forall h bits v r,
    flate.huffSym h bits = Ok (v, r) -> (length r < length bits)%nat.
Proof.
  intros h bits v r H. unfold flate.huffSym in H.
  destruct (Z.of_nat (length bits) <? flate.hmin h); [discriminate |].
  destruct (flate.hmax h =? 0); [discriminate |].
  eapply walk_length; eassumption.
Qed.

Lemma readCodeBits_length :
  forall n order bits acc acc' r,
    flate.readCodeBits n order bits acc = Ok (acc', r) ->
    (length r <= length bits)%nat.
Proof.
  induction n as [| n IH]; intros order bits acc acc' r H;
    cbn [flate.readCodeBits] in H.
  - inversion H; subst. lia.
  - destruct order as [| o order]; [inversion H; subst; lia |].
    destruct (flate.take_bits 3 bits) as [[v r1] |] eqn:E; [| discriminate].
    apply IH in H. apply take_bits_length in E. lia.
Qed.

Lemma readLengths_length :
  forall fuel n h1 bits lens lens' r,
    flate.readLengths fuel n h1 bits lens = Ok (lens', r) ->
    (length r <= length bits)%nat.
Proof.
  induction fuel as [| fuel IH]; intros n h1 bits lens lens' r H;
    cbn [flate.readLengths] in H.
  - destruct (n <=? Z.of_nat (length lens)); [| discriminate].
    inversion H; subst. lia.
  - destruct (n <=? Z.of_nat (length lens)); [inversion H; subst; lia |].
    destruct (flate.huffSym h1 bits) as [[x bits1] | e] eqn:E; [| discriminate].
    apply huffSym_length in E.
    destruct (x <? 16).
    + apply IH in H. lia.
    + destruct (if x =? 16
                then match lens with
                     | [] => Err flate_CorruptInputError
                     | prev :: _ => Ok (3, 2%nat, prev)
                     end
                else if x =? 17 then Ok (3, 3%nat, 0)
                     else if x =? 18 then Ok (11, 7%nat, 0)
                          else Err flate_InternalError)
        as [[[rep nb] b] | e]; [| discriminate].
      destruct (flate.take_bits nb bits1) as [[extra bits2] |] eqn:E2;
        [| discriminate].
      apply take_bits_length in E2.
      destruct (Z.of_nat (length lens) + (rep + extra) >? n); [discriminate |].
      apply IH in H. lia.
Qed.

Lemma readHuffman_length :
  forall bits hl hd r,
    flate.readHuffman bits = Ok (hl, hd, r) -> (length r < length bits)%nat.
Proof.
  intros bits hl hd r H. unfold flate.readHuffman in H.
  destruct (flate.take_bits 14 bits) as [[v bits1] |] eqn:E1; [| discriminate].
  apply take_bits_length in E1.
  destruct (Z.land v 31 + 257 >? flate.maxNumLit); [discriminate |].
  destruct (Z.land (Z.shiftr v 5) 31 + 1 >? flate.maxNumDist); [discriminate |].
  destruct (flate.readCodeBits _ _ bits1 []) as [[acc bits2] | e] eqn:E2;
    [| discriminate].
  apply readCodeBits_length in E2.
  destruct (flate.init (flate.codebits_of acc)) as [h1 |]; [| discriminate].
  destruct (flate.readLengths _ _ h1 bits2 []) as [[lens bits3] | e] eqn:E3;
    [| discriminate].
  apply readLengths_length in E3.
  destruct (flate.init (firstn _ lens)); [| discriminate].
  destruct (flate.init (firstn _ (skipn _ lens))); [| discriminate].
  inversion H; subst. lia.
Qed.

Lemma readDist_length :
  forall hd bits d r,
    flate.readDist hd bits = Ok (d, r) -> (length r <= length bits)%nat.
Proof.
  intros hd bits d r H. unfold flate.readDist in H.
  destruct (match hd with
            | Some h => flate.huffSym h bits
            | None =>
                match flate.take_bits 5 bits with
                | Some (v, r) => Ok (flate.reverse5 v, r)
                | None => Err io_ErrUnexpectedEOF
                end
            end) as [[dist bits1] | e] eqn:E; [| discriminate].
  assert (length bits1 <= length bits)%nat as L1.
  { destruct hd as [h |].
    - apply huffSym_length in E. lia.
    - destruct (flate.take_bits 5 bits) as [[v r'] |] eqn:E5; [| discriminate].
      inversion E; subst. apply take_bits_length in E5. lia. }
  destruct (dist <? 4); [inversion H; subst; exact L1 |].
  destruct (dist <? flate.maxNumDist); [| discriminate].
  destruct (flate.take_bits _ bits1) as [[v bits2] |] eqn:E2; [| discriminate].
  inversion H; subst. apply take_bits_length in E2. lia.
Qed.

(** The fuel [ReadAll] gives the loop is never used up. *)
Lemma run_enough_fuel :
  forall fuel st bits rout,
    (length bits < fuel)%nat -> flate.run fuel st bits rout <> None.
Proof.
  induction fuel as [| fuel IH]; intros st bits rout Hf; [lia |].
  cbn [flate.run].
  destruct st as [| final hl hd].
  - destruct (flate.take_bits 3 bits) as [[hdr bits1] |] eqn:E1; [| discriminate].
    apply take_bits_length in E1.
    destruct (Z.shiftr hdr 1 =? 0).
    + pose proof (length_skipn (length bits1 mod 8) bits1) as Ls.
      destruct (flate.take_bits 32 _) as [[v bits2] |] eqn:E2; [| discriminate].
      apply take_bits_length in E2.
      destruct (negb _); [discriminate |].
      destruct (flate.take_bytes _ bits2) as [[data bits3] |] eqn:E3;
        [| discriminate].
      apply take_bytes_length in E3.
      destruct (Z.odd hdr); [discriminate |].
      apply IH. lia.
    + destruct (Z.shiftr hdr 1 =? 1); [apply IH; lia |].
      destruct (Z.shiftr hdr 1 =? 2); [| discriminate].
      destruct (flate.readHuffman bits1) as [[[hl hd] bits2] | e] eqn:E2;
        [| discriminate].
      apply readHuffman_length in E2. apply IH. lia.
  - destruct (flate.huffSym hl bits) as [[v bits1] | e] eqn:E1; [| discriminate].
    apply huffSym_length in E1.
    destruct (v <? 256); [apply IH; lia |].
    destruct (v =? 256).
    + destruct final; [discriminate | apply IH; lia].
    + destruct (flate.lengthOf v) as [[base n] |]; [| discriminate].
      destruct (flate.take_bits n bits1) as [[extra bits2] |] eqn:E2;
        [| discriminate].
      apply take_bits_length in E2.
      destruct (flate.readDist hd bits2) as [[dist bits3] | e] eqn:E3;
        [| discriminate].
      apply readDist_length in E3.
      destruct (dist >? _); [discriminate |].
      apply IH. lia.
Qed.

(** *** Connection, compression *)

Lemma io_ReadFull_length :
  forall r n a r',
    io_ReadFull r n = Ok (a, r') -> (length r' + n = length r)%nat.
Proof.
  intros r n a r' H. unfold io_ReadFull in H.
  destruct (Nat.eqb_spec n 0) as [-> | Hn].
  - inversion H; subst. lia.
  - destruct r as [| x r]; [discriminate |].
    destruct (Nat.ltb_spec (length (x :: r)) n) as [L | G]; [discriminate |].
    inversion H; subst. rewrite length_skipn. lia.
Qed.

Lemma readPayloadLen_length :
  forall n r v r',
    readPayloadLen n r = Ok (v, r') -> (length r' <= length r)%nat.
Proof.
  intros n r v r' H. unfold readPayloadLen in H.
  destruct (n =? 126).
  - destruct (io_ReadFull r 2) as [[b r1] | e] eqn:E; [| discriminate].
    inversion H; subst. apply io_ReadFull_length in E. lia.
  - destruct (n =? 127).
    + destruct (io_ReadFull r 8) as [[b r1] | e] eqn:E; [| discriminate].
      destruct (_ || _); [discriminate |].
      inversion H; subst. apply io_ReadFull_length in E. lia.
    + inversion H; subst. lia.
Qed.

Lemma readFrameHeader_length :
  forall r f r',
    readFrameHeader r = Ok (f, r') -> (length r' + 2 <= length r)%nat.
Proof.
  intros r f r' H. unfold readFrameHeader in H.
  destruct (io_ReadFull r 2) as [[hd r1] | e] eqn:E1; [| discriminate].
  apply io_ReadFull_length in E1.
  destruct (bit_set (nth 0 hd 0) rsvMask); [discriminate |].
  cbn [Opcode Fin Masked] in H.
  destruct (_ && _); [discriminate |].
  destruct (_ >? 10); [discriminate |].
  destruct (_ && _); [discriminate |].
  destruct (readPayloadLen _ r1) as [[n r2] | e] eqn:E2; [| discriminate].
  apply readPayloadLen_length in E2.
  destruct (bit_set (nth 1 hd 0) 128).
  - destruct (io_ReadFull r2 4) as [[k r3] | e] eqn:E3; [| discriminate].
    apply io_ReadFull_length in E3. inversion H; subst. lia.
  - inversion H; subst. lia.
Qed.

Lemma readFrame_length :
  forall r maxSize f r',
    readFrame r maxSize = Ok (f, r') -> (length r' < length r)%nat.
Proof.
  intros r maxSize f r' H. unfold readFrame in H.
  destruct (readFrameHeader r) as [[frame r1] | e] eqn:E1; [| discriminate].
  apply readFrameHeader_length in E1.
  destruct (len (Payload frame) >? maxSize); [discriminate |].
  destruct (len (Payload frame) >? 0).
  - destruct (io_ReadFull r1 _) as [[p r2] | e] eqn:E2; [| discriminate].
    apply io_ReadFull_length in E2.
    destruct (Masked frame).
    + destruct (maskBytes p (MaskKey frame)); [| discriminate].
      inversion H; subst. lia.
    + inversion H; subst. lia.
  - inversion H; subst. lia.
Qed.

(** The fuel [readMessage] gives the frame loop is never used up. *)
Lemma readLoop_enough_fuel :
  forall fuel c messagePayload firstFrame,
    (length (reader c) < fuel)%nat ->
    readLoop fuel c messagePayload firstFrame <> None.
Proof.
  induction fuel as [| fuel IH]; intros c mp ff Hf; [lia |].
  cbn [readLoop].
  destruct (readFrame (reader c) (maxFrameSize c)) as [[frame r'] | e] eqn:E;
    [| discriminate].
  apply readFrame_length in E.
  assert (forall mp' ff',
             (if len (mp ++ Payload frame) >? maxMessageSize (with_reader c r')
              then Some (Err ErrMessageTooLarge, with_reader c r')
              else if Fin frame
                   then Some (Ok (mp ++ Payload frame), with_reader c r')
                   else readLoop fuel (with_reader c r') mp' ff') <> None) as Ha.
  { intros mp' ff'. destruct (_ >? _); [discriminate |].
    destruct (Fin frame); [discriminate |]. apply IH. simpl. lia. }
  destruct (Opcode frame =? opContinuation).
  { destruct ff; [discriminate | apply Ha]. }
  destruct (Opcode frame =? opClose); [discriminate |].
  destruct (Opcode frame =? opPing).
  { destruct (writeFrame _ _ _) as [[w' buf'] | e]; [| discriminate].
    apply IH. simpl. lia. }
  destruct (Opcode frame =? opPong); [apply IH; simpl; lia |].
  destruct (_ || _); [| discriminate].
  destruct (negb ff); [discriminate | apply Ha].
Qed.

Lemma maskFrom_involutive :
  forall p k i, maskFrom i (maskFrom i p k) k = p.
Proof.
  induction p as [| x p IH]; intros k i; [reflexivity |].
  cbn [maskFrom]. rewrite IH. f_equal.
  rewrite Z.lxor_assoc, Z.lxor_nilpotent, Z.lxor_0_r. reflexivity.
Qed.

Lemma maskFrom_length :
  forall p k i, length (maskFrom i p k) = length p.
Proof.
  induction p as [| x p IH]; intros k i; [reflexivity |].
  cbn [maskFrom length]. rewrite IH. reflexivity.
Qed.

Lemma readFrame_rsv :
  forall b0 b1 rest maxSize,
    bit_set b0 rsvMask = true ->
    readFrame (b0 :: b1 :: rest) maxSize = Err ErrInvalidFrame.
Proof.
  intros b0 b1 rest maxSize H. unfold readFrame, readFrameHeader.
  rewrite (io_ReadFull_app [b0; b1] rest
           : io_ReadFull (b0 :: b1 :: rest) 2 = _).
  cbn [nth]. rewrite H. reflexivity.
Qed.

(** C5: a frame with a reserved bit set is refused with ErrInvalidFrame by
    Read on every open connection, whether or not compression was negotiated
    for it: the read path has no relaxed check for rsv1, so the second half
    of the claim (a data frame with only rsv1 is accepted once compression
    was negotiated) does not hold of the code. *)
Theorem Read_refuses_reserved_bits :
  forall (M : MsgType) c ctx b0 b1 rest,
    closed c = false -> cancelled ctx = false ->
    bit_set b0 rsvMask = true ->
    reader c = b0 :: b1 :: rest ->
    fst (Read M c ctx) = Err ErrInvalidFrame.
Proof.
  intros M c ctx b0 b1 rest Hc Hx Hrsv Hr.
  unfold Read. rewrite Hc, Hx. unfold readMessage.
  cbn [readLoop]. rewrite Hr.
  rewrite readFrame_rsv by exact Hrsv. reflexivity.
Qed.

Lemma Read_refuses_reserved_bits_witness :
  let c := newConn true (Some (newCompressionManager 256))
             [0xC1; 0x01; 0x61] in
  closed c = false /\ compression c = Some (mkCompressionManager true 256)
  /\ bit_set 0xC1 rsvMask = true
  /\ fst (Read StringMsg c None) = Err ErrInvalidFrame.
Proof.
  cbv zeta. split; [reflexivity |]. split; [reflexivity |].
  split; [reflexivity |].
  apply (Read_refuses_reserved_bits StringMsg _ None
           0xC1 0x01 [0x61]); reflexivity.
Defined.

(** A final text or binary frame with an empty payload, masked or not, is an
    empty message. *)
Lemma readMessage_empty_frame :
  forall c op (m : bool) key rest,
    op = opText \/ op = opBinary ->
    (if m then length key = 4%nat else key = []) ->
    reader c = (0x80 + op) :: (if m then 0x80 else 0x00) :: key ++ rest ->
    0 <= maxFrameSize c -> 0 <= maxMessageSize c ->
    readMessage c = (Ok [], with_reader c rest).
Proof.
  intros c op m key rest Hop Hkey Hr Hf Hm.
  unfold readMessage. cbn [readLoop]. rewrite Hr.
  pose proof (readFrame_wire true op m (0x80 + op) (if m then 0x80 else 0x00)
                [] key [] rest (maxFrameSize c)) as R.
  cbn [app] in R. rewrite R; clear R.
  - cbn [Opcode Fin Payload]. cbv beta zeta.
    replace (if m then maskFrom 0 [] key else []) with (@nil Z)
      by (destruct m; reflexivity).
    cbn [app with_reader maxMessageSize].
    replace (len [] >? maxMessageSize c) with false
      by (symmetry; rewrite Z.gtb_ltb; apply Z.ltb_ge; exact Hm).
    destruct Hop as [-> | ->]; reflexivity.
  - destruct Hop as [-> | ->]; reflexivity.
  - destruct Hop as [-> | ->]; reflexivity.
  - destruct Hop as [-> | ->]; reflexivity.
  - destruct Hop as [-> | ->]; reflexivity.
  - destruct Hop as [-> | ->]; reflexivity.
  - destruct Hop as [-> | ->]; reflexivity.
  - unfold valid_opcode. simpl. destruct Hop as [-> | ->]; auto.
  - reflexivity.
  - destruct m; reflexivity.
  - intros r. destruct m; reflexivity.
  - exact Hkey.
  - exact Hf.
Qed.

(** C10: when the frame loop hands back an empty message, Read returns the
    zero value of [T] and no error, whatever the compression manager and the
    decoder of the message type would have done with the payload. *)
Theorem Read_empty_message :
  forall (M : MsgType) c ctx c',
    closed c = false -> cancelled ctx = false ->
    readMessage c = (Ok [], c') ->
    Read M c ctx = (Ok (zero M), c').
Proof.
  intros M c ctx c' Hc Hx Hm.
  unfold Read. rewrite Hc, Hx, Hm. reflexivity.
Qed.

Lemma Read_empty_message_witness :
  let c := newConn false (Some (newCompressionManager 256))
             [0x82; 0x80; 1; 2; 3; 4] in
  closed c = false
  /\ readMessage c = (Ok [], with_reader c [])
  /\ Decompress (mkCompressionManager true 256) [] = Err io_ErrUnexpectedEOF
  /\ json_Unmarshal StrictMsg [] = None
  /\ Read StrictMsg c None = (Ok 0%nat, with_reader c []).
Proof.
  cbv zeta. split; [reflexivity |]. split; [reflexivity |].
  split; [vm_compute; reflexivity |]. split; [reflexivity |].
  apply (Read_empty_message StrictMsg _ None); reflexivity.
Defined.

Lemma stripTail_marker :
  forall w, stripTail (w ++ [0x00; 0x00; 0xff; 0xff]) = w.
Proof.
  intros w. unfold stripTail.
  rewrite length_app. cbn [length].
  replace (4 <=? length w + 4)%nat with true
    by (symmetry; apply Nat.leb_le; lia).
  replace (length w + 4 - 4)%nat with (length w) by lia.
  rewrite skipn_app, skipn_all, Nat.sub_diag. cbn [skipn app nth].
  cbn [Z.eqb Pos.eqb andb].
  rewrite firstn_app, firstn_all, Nat.sub_diag. cbn [firstn].
  apply app_nil_r.
Qed.

(** C4: Compress cuts the sync marker off what the writer flushed and
    Decompress puts it back, so Decompress inflates exactly the flushed
    stream.  A flushed stream has no final block: the reader yields all of
    [B] and then fails with io.ErrUnexpectedEOF, and so does Decompress,
    where the claim expects [B] back. *)
Theorem Decompress_Compress_fails :
  forall (deflate : list Z -> list Z) cm B w,
    deflate B = w ++ [0x00; 0x00; 0xff; 0xff] ->
    flate.ReadAll (deflate B) = (B, Some io_ErrUnexpectedEOF) ->
    Compress deflate cm B = Ok w
    /\ Decompress cm w = Err io_ErrUnexpectedEOF.
Proof.
  intros deflate cm B w Hw Hr. split.
  - unfold Compress. rewrite Hw, stripTail_marker. reflexivity.
  - unfold Decompress. rewrite <- Hw, Hr. reflexivity.
Qed.

Lemma Decompress_Compress_fails_witness :
  let cm := newCompressionManager 256 in
  ShouldCompress cm (len aaa) = true
  /\ flate.ReadAll aaa_flushed = (aaa, Some io_ErrUnexpectedEOF)
  /\ Compress (fun _ => aaa_flushed) cm aaa = Ok (firstn 8 aaa_flushed)
  /\ Decompress cm (firstn 8 aaa_flushed) = Err io_ErrUnexpectedEOF.
Proof.
  cbv zeta. split; [reflexivity |].
  assert (flate.ReadAll aaa_flushed = (aaa, Some io_ErrUnexpectedEOF)) as H
      by (vm_compute; reflexivity).
  split; [exact H |].
  apply (Decompress_Compress_fails (fun _ => aaa_flushed)
           (newCompressionManager 256) aaa (firstn 8 aaa_flushed)).
  - reflexivity.
  - exact H.
Defined.

(** C8, as amended: a client connection on which the message is not
    compressed writes "hello world" as one frame that begins with 0x81 0x8D,
    then the 4-byte mask key, then 13 masked payload bytes (the JSON text of
    the string, quotes included); a server connection without compression
    that reads these bytes yields exactly "hello world".  encoding/json
    enters through what it does on this one string. *)
Theorem hello_world_on_the_wire :
  forall marshal unmarshal (deflate : list Z -> list Z) c s key ctx1 ctx2,
    marshal hello_world = Some quoted_hello ->
    unmarshal quoted_hello = Some hello_world ->
    closed c = false -> isClient c = true -> cancelled ctx1 = false ->
    (forall cm, compression c = Some cm -> ShouldCompress cm 13 = false) ->
    13 <= maxMessageSize c -> (14 <= length (writeBuf c))%nat ->
    length key = 4%nat ->
    closed s = false -> cancelled ctx2 = false -> compression s = None ->
    13 <= maxFrameSize s -> 13 <= maxMessageSize s ->
    let M := StringMsgWith marshal unmarshal in
    let wire := 0x81 :: 0x8D :: key ++ maskFrom 0 quoted_hello key in
    fst (Write M deflate c ctx1 hello_world key) = None
    /\ writer (snd (Write M deflate c ctx1 hello_world key)) = writer c ++ wire
    /\ length (maskFrom 0 quoted_hello key) = 13%nat
    /\ Read M (with_reader s wire) ctx2 = (Ok hello_world, with_reader s []).
Proof.
  intros marshal unmarshal deflate c s key ctx1 ctx2
         Hm Hu Hc Hcl Hx1 Hcomp Hmax Hbuf Hkey Hs Hx2 Hsc Hsf Hsm M wire.
  assert (length (maskFrom 0 quoted_hello key) = 13%nat) as Hlen
      by (rewrite maskFrom_length; reflexivity).
  assert (Write M deflate c ctx1 hello_world key
          = (None, with_writer c (writer c ++ wire)
                     (put_at (put_at (writeBuf c) 0 [0x81; 0x8D]) 2 key)))
    as HW.
  { unfold Write. rewrite Hc, Hx1. cbn [M StringMsgWith json_Marshal dynOf].
    rewrite Hm.
    replace (len quoted_hello >? maxMessageSize c) with false
      by (symmetry; rewrite Z.gtb_ltb; apply Z.ltb_ge;
          change (len quoted_hello) with 13; lia).
    assert (match compression c with
            | Some cm =>
                if ShouldCompress cm (len quoted_hello)
                then match Compress deflate cm quoted_hello with
                     | Ok compressedPayload =>
                         if len compressedPayload <? len quoted_hello
                         then (compressedPayload, true)
                         else (quoted_hello, false)
                     | Err _ => (quoted_hello, false)
                     end
                else (quoted_hello, false)
            | None => (quoted_hello, false)
            end = (quoted_hello, false)) as Hnc.
    { destruct (compression c) as [cm |] eqn:Ecm; [| reflexivity].
      change (len quoted_hello) with 13. rewrite (Hcomp cm eq_refl).
      reflexivity. }
    rewrite Hnc. rewrite Hcl.
    unfold maskBytes. rewrite Hkey.
    replace (4 <? Nat.min 4 (length quoted_hello))%nat with false
      by reflexivity.
    unfold writeFrame.
    cbn [set_Payload set_MaskKey Fin Rsv1 Rsv2 Rsv3 Opcode Masked MaskKey
         Payload].
    unfold len. rewrite Hlen.
    change (Z.of_nat 13 <? 126) with true. cbv iota.
    change (Z.lor (Z.lor 0 finMask) (Z.land opText opMask)) with 129.
    change (Z.lor 128 (to_byte (Z.of_nat 13))) with 141.
    cbn [length Nat.add].
    replace (length (writeBuf c) <? 6)%nat with false
      by (symmetry; apply Nat.ltb_ge; lia).
    rewrite (firstn_all2 key) by lia.
    pose proof (header_assembled (writeBuf c) [129; 141] key) as HA.
    rewrite Hkey in HA. cbn [length Nat.add] in HA.
    rewrite HA. unfold wire. reflexivity. }
  rewrite HW. cbn [fst snd with_writer writer].
  split; [reflexivity |]. split; [reflexivity |]. split; [exact Hlen |].
  unfold Read. cbn [with_reader closed]. rewrite Hs, Hx2.
  unfold readMessage. cbn [with_reader reader].
  cbn [readLoop]. cbn [with_reader reader maxFrameSize].
  assert (readFrame wire (maxFrameSize s)
          = Ok (mkFrame true false false false opText true key quoted_hello,
                [])) as HR.
  { unfold wire.
    pose proof (readFrame_wire true opText true 0x81 0x8D [] key
                  (maskFrom 0 quoted_hello key) [] (maxFrameSize s)) as R.
    cbn [app] in R. rewrite app_nil_r in R.
    rewrite maskFrom_involutive in R. apply R; try reflexivity.
    - unfold valid_opcode. simpl. auto.
    - exact Hkey.
    - unfold len. rewrite Hlen. lia. }
  rewrite HR.
  cbn [Opcode Fin Payload]. cbv beta zeta.
  change (opText =? opContinuation) with false.
  change (opText =? opClose) with false.
  change (opText =? opPing) with false.
  change (opText =? opPong) with false.
  change ((opText =? opText) || (opText =? opBinary)) with true.
  cbv iota. cbn [negb app with_reader maxMessageSize].
  replace (len quoted_hello >? maxMessageSize s) with false
    by (symmetry; rewrite Z.gtb_ltb; apply Z.ltb_ge;
        change (len quoted_hello) with 13; lia).
  cbn [compression closed closeOnce closeCode closeReason isClient].
  change (len quoted_hello =? 0) with false. cbv iota.
  change (compression (with_reader (with_reader s wire) []))
    with (compression s).
  change (with_reader (with_reader s wire) []) with (with_reader s []).
  rewrite Hsc. cbn [M StringMsgWith json_Unmarshal].
  rewrite Hu. reflexivity.
Qed.

Lemma hello_world_on_the_wire_witness :
  let c := newConn true None [] in
  let s := newConn false None [] in
  let key := [0x37; 0xfa; 0x21; 0x3d] in
  let wire := 0x81 :: 0x8D :: key ++ maskFrom 0 quoted_hello key in
  plain_Marshal hello_world = Some quoted_hello
  /\ plain_Unmarshal quoted_hello = Some hello_world
  /\ fst (Write StringMsg storedFlush c None hello_world key) = None
  /\ writer (snd (Write StringMsg storedFlush c None hello_world key))
     = writer c ++ wire
  /\ length (maskFrom 0 quoted_hello key) = 13%nat
  /\ Read StringMsg (with_reader s wire) None
     = (Ok hello_world, with_reader s []).
Proof.
  cbv zeta. split; [reflexivity |]. split; [reflexivity |].
  apply (hello_world_on_the_wire plain_Marshal plain_Unmarshal storedFlush
           (newConn true None []) (newConn false None [])
           [0x37; 0xfa; 0x21; 0x3d] None None);
    try reflexivity; try discriminate;
    try (cbn [newConn maxMessageSize maxFrameSize writeBuf];
         try rewrite repeat_length; lia).
Defined.

(** C8, the claim as written fails on the wire: the second byte is 0x8D,
    not 0x85, and 13 payload bytes follow the mask key, not 5; the frame has
    19 bytes, not 11. *)
Lemma hello_world_header_byte :
  let c := newConn true None [] in
  let key := [0x37; 0xfa; 0x21; 0x3d] in
  let w := writer (snd (Write StringMsg storedFlush c None hello_world key)) in
  w = [0x81; 0x8D; 0x37; 0xfa; 0x21; 0x3d;
       0x15; 0x92; 0x44; 0x51; 0x5b; 0x95; 0x01; 0x4a; 0x58; 0x88; 0x4d;
       0x59; 0x15]
  /\ nth 1 w 0 <> 0x85
  /\ length w = 19%nat.
Proof.
  cbv zeta. split; [vm_compute; reflexivity |].
  split; [vm_compute; discriminate | reflexivity].
Qed.


(** *** Further properties of the codec, the close codes and the connection *)

(** Masking twice with the same key gives the payload back:
    unmask(mask(P, K), K) = P for every payload and every 4-byte key. *)
Theorem maskBytes_twice :
  forall payload key masked,
    length key = 4%nat ->
    maskBytes payload key = Ok masked ->
    maskBytes masked key = Ok payload.
Proof.
  intros payload key masked Hk H. unfold maskBytes in *.
  rewrite Hk in *.
  replace (4 <? Nat.min 4 (length payload))%nat with false in H
    by (symmetry; apply Nat.ltb_ge; lia).
  inversion H; subst; clear H.
  replace (4 <? Nat.min 4 (length (maskFrom 0 payload key)))%nat with false
    by (symmetry; apply Nat.ltb_ge; lia).
  rewrite maskFrom_involutive. reflexivity.
Qed.

Lemma maskBytes_twice_witness :
  let key := [0x37; 0xfa; 0x21; 0x3d] in
  let payload := [0x48; 0x65; 0x6c; 0x6c; 0x6f] in
  let masked := [0x7f; 0x9f; 0x4d; 0x51; 0x58] in
  length key = 4%nat
  /\ maskBytes payload key = Ok masked
  /\ maskBytes masked key = Ok payload.
Proof.
  cbv zeta. split; [reflexivity |]. split; [reflexivity |].
  apply (maskBytes_twice [0x48; 0x65; 0x6c; 0x6c; 0x6f]
           [0x37; 0xfa; 0x21; 0x3d]); reflexivity.
Defined.

Lemma IsReserved_codes :
  forall c : CloseCode, IsReserved c = true <-> In c [1005; 1006; 1015].
Proof.
  intros c.
  unfold IsReserved, case_of, CloseNoStatusReceived, CloseAbnormalClosure,
    CloseTLSHandshake.
  split_code c.
  simpl. split; [discriminate |].
  intros H. intuition congruence.
Qed.

(** The valid close codes are the codes of 1000..1015 and 3000..4999 that
    are not reserved. *)
Theorem IsValid_exactly :
  forall c : CloseCode,
    IsValid c = true <->
    (~ In c [1005; 1006; 1015]
     /\ ((1000 <= c /\ c <= 1015) \/ (3000 <= c /\ c < 5000))).
Proof.
  intros c. unfold IsValid.
  pose proof (IsReserved_codes c) as R.
  destruct (IsReserved c).
  - split; [discriminate |]. intros [N _]. exfalso. apply N, R. reflexivity.
  - assert (~ In c [1005; 1006; 1015]) as N.
    { intros H. apply R in H. discriminate. }
    rewrite orb_true_iff, !andb_true_iff, !Z.geb_le, !Z.leb_le, Z.ltb_lt.
    tauto.
Qed.

(** The frame loop of Read ends on every finite input: the fuel
    [readMessage] gives it is enough. *)
Theorem readMessage_terminates :
  forall c, exists r, readLoop (S (length (reader c))) c [] true = Some r.
Proof.
  intros c.
  pose proof (readLoop_enough_fuel (S (length (reader c))) c [] true) as H.
  destruct (readLoop (S (length (reader c))) c [] true) as [r |].
  - exists r. reflexivity.
  - exfalso. apply H; [lia | reflexivity].
Qed.

(** *** Frames on the wire and the frame loop of Read *)

Lemma valid_readable : forall f, valid_frame f -> readable_frame f.
Proof.
  intros f [Hop Hctl Hrsv Hkey _ Hlen]. split; try assumption.
  - unfold valid_opcode in Hop. simpl in Hop.
    destruct Hop as [<- | [<- | [<- | [<- | [<- | [<- | []]]]]]]; vm_compute; split; discriminate.
  - intros H. apply Hctl, H.
  - destruct (Masked f); [apply Hkey | exact Hkey].
Qed.

Lemma nibble_cases :
  forall op, 0 <= op <= 15 ->
    In op [0; 1; 2; 3; 4; 5; 6; 7; 8; 9; 10; 11; 12; 13; 14; 15].
Proof.
  intros op H. simpl.
  assert (op = 0 \/ op = 1 \/ op = 2 \/ op = 3 \/ op = 4 \/ op = 5 \/ op = 6
          \/ op = 7 \/ op = 8 \/ op = 9 \/ op = 10 \/ op = 11 \/ op = 12
          \/ op = 13 \/ op = 14 \/ op = 15) by lia.
  intuition auto.
Qed.

Lemma headByte_bits :
  forall (fin r1 r2 r3 : bool) op, 0 <= op <= 15 ->
    let b0 := headByte fin r1 r2 r3 op in
    bit_set b0 finMask = fin /\ bit_set b0 0x40 = r1
    /\ bit_set b0 0x20 = r2 /\ bit_set b0 0x10 = r3
    /\ Z.land b0 opMask = op /\ bit_set b0 rsvMask = r1 || r2 || r3
    /\ 0 <= b0 < 256.
Proof.
  intros fin r1 r2 r3 op Hop.
  pose proof (nibble_cases op Hop) as H. simpl in H.
  repeat (destruct H as [<- | H]); try contradiction;
    destruct fin, r1, r2, r3; vm_compute; repeat split; congruence.
Qed.

Lemma writeFrame_bytes :
  forall f w buf,
    (14 <= length buf)%nat ->
    (Masked f = true -> length (MaskKey f) = 4%nat) ->
    exists buf',
      writeFrame w buf f
      = Ok (w ++ headByte (Fin f) (Rsv1 f) (Rsv2 f) (Rsv3 f) (Opcode f)
              :: fst (lengthBytes (Masked f) (len (Payload f)))
              :: snd (lengthBytes (Masked f) (len (Payload f)))
              ++ (if Masked f then MaskKey f else []) ++ Payload f, buf').
Proof.
  intros f w buf Hbuf Hkey.
  destruct f as [fin r1 r2 r3 op m key payload].
  cbn [Opcode Fin Payload Masked MaskKey Rsv1 Rsv2 Rsv3] in *.
  unfold writeFrame.
  cbn [Opcode Fin Payload Masked MaskKey Rsv1 Rsv2 Rsv3].
  fold (lengthBytes m (len payload)).
  destruct (lengthBytes m (len payload)) as [b1 ext] eqn:E.
  assert (length ext <= 8)%nat as Hext.
  { unfold lengthBytes in E.
    destruct (len payload <? 126); [inversion E; simpl; lia |].
    destruct (len payload <? 65536); inversion E; simpl; lia. }
  fold (headByte fin r1 r2 r3 op).
  set (b0 := headByte fin r1 r2 r3 op).
  assert ((if m then firstn 4 key else []) = (if m then key else [])) as Hk'.
  { destruct m; [| reflexivity]. apply firstn_all2. rewrite Hkey; auto. }
  assert (length (if m then key else []) = if m then 4%nat else 0%nat) as Hk.
  { destruct m; [apply Hkey; reflexivity | reflexivity]. }
  eexists.
  replace (length buf <? (if m then (2 + length ext + 4)%nat
                          else (2 + length ext)%nat))%nat with false
    by (symmetry; apply Nat.ltb_ge; destruct m; lia).
  f_equal. f_equal. f_equal.
  rewrite Hk'.
  replace (if m then (2 + length ext + 4)%nat else (2 + length ext)%nat)
    with (length (b0 :: b1 :: ext) + length (if m then key else []))%nat
    by (rewrite Hk; simpl; destruct m; lia).
  change (2 + length ext)%nat with (length (b0 :: b1 :: ext)).
  rewrite header_assembled.
  cbn [fst snd app]. rewrite <- !app_assoc. reflexivity.
Qed.

Lemma frameBytes_eq :
  forall f,
    (Masked f = true -> length (MaskKey f) = 4%nat) ->
    frameBytes f
    = headByte (Fin f) (Rsv1 f) (Rsv2 f) (Rsv3 f) (Opcode f)
      :: fst (lengthBytes (Masked f) (len (Payload f)))
      :: snd (lengthBytes (Masked f) (len (Payload f)))
      ++ (if Masked f then MaskKey f else []) ++ Payload f.
Proof.
  intros f Hk. unfold frameBytes.
  destruct (writeFrame_bytes f [] (repeat 0 maxFrameHeaderSize)) as [buf' E];
    [rewrite repeat_length; unfold maxFrameHeaderSize; lia | exact Hk |].
  rewrite E. reflexivity.
Qed.

Lemma writeFrame_frameBytes :
  forall f w buf,
    (14 <= length buf)%nat ->
    (Masked f = true -> length (MaskKey f) = 4%nat) ->
    exists buf', writeFrame w buf f = Ok (w ++ frameBytes f, buf').
Proof.
  intros f w buf Hbuf Hk.
  destruct (writeFrame_bytes f w buf Hbuf Hk) as [buf' E].
  exists buf'. rewrite E, frameBytes_eq by exact Hk. reflexivity.
Qed.

Lemma readFrame_wire_any :
  forall (fin : bool) op (m : bool) b0 b1 ext key payload rest maxSize,
    bit_set b0 finMask = fin -> bit_set b0 0x40 = false ->
    bit_set b0 0x20 = false -> bit_set b0 0x10 = false ->
    Z.land b0 opMask = op -> bit_set b0 rsvMask = false ->
    0 <= op <= 10 -> (8 <= op -> fin = true) ->
    bit_set b1 0x80 = m ->
    (forall r, readPayloadLen (Z.land b1 0x7F) (ext ++ r) = Ok (len payload, r)) ->
    (if m then length key = 4%nat else key = []) ->
    len payload <= maxSize ->
    readFrame (b0 :: b1 :: ext ++ key ++ payload ++ rest) maxSize
    = Ok (mkFrame fin false false false op m key
            (if m then maskFrom 0 payload key else payload), rest).
Proof.
  intros fin op m b0 b1 ext key payload rest maxSize
         Hfin H1 H2 H3 Hop Hrsv Hvop Hctl Hm Hlen Hkey Hmax.
  unfold readFrame, readFrameHeader.
  rewrite (io_ReadFull_app [b0; b1] (ext ++ key ++ payload ++ rest)
           : io_ReadFull (b0 :: b1 :: ext ++ key ++ payload ++ rest) 2 = _).
  cbn [nth].
  rewrite Hrsv, Hfin, H1, H2, H3, Hop, Hm. cbn [Opcode Fin Masked].
  assert (((op >? 7) && (op <? 8) = false) /\ (op >? 10) = false
          /\ ((op >=? 8) && negb fin = false)) as [C1 [C2 C3]].
  { clear Hop. split; [| split].
    - destruct (Z.gtb_spec op 7), (Z.ltb_spec op 8); try reflexivity; lia.
    - destruct (Z.gtb_spec op 10); [lia | reflexivity].
    - destruct (Z.geb_spec op 8); [| reflexivity].
      rewrite Hctl by lia. reflexivity. }
  rewrite C1, C2, C3. rewrite Hlen.
  assert (0 <= len payload) as Hpos by (unfold len; lia).
  destruct m.
  - replace 4%nat with (length key) by assumption.
    rewrite io_ReadFull_app.
    cbn [set_MaskKey set_Payload Payload Fin Rsv1 Rsv2 Rsv3 Opcode Masked MaskKey].
    rewrite len_repeat by assumption.
    replace (len payload >? maxSize) with false by (symmetry; rewrite Z.gtb_ltb; apply Z.ltb_ge; lia).
    destruct payload as [| p ps].
    + reflexivity.
    + replace (len (p :: ps) >? 0) with true
        by (symmetry; rewrite Z.gtb_ltb; apply Z.ltb_lt; unfold len; simpl length; lia).
      rewrite repeat_length. unfold len. rewrite Nat2Z.id.
      rewrite io_ReadFull_app.
      unfold maskBytes. rewrite Hkey.
      replace (4 <? Nat.min 4 (length (p :: ps)))%nat with false
        by (symmetry; apply Nat.ltb_ge; lia).
      reflexivity.
  - subst key. cbn [app].
    cbn [set_MaskKey set_Payload Payload Fin Rsv1 Rsv2 Rsv3 Opcode Masked MaskKey].
    rewrite len_repeat by assumption.
    replace (len payload >? maxSize) with false by (symmetry; rewrite Z.gtb_ltb; apply Z.ltb_ge; lia).
    destruct payload as [| p ps].
    + reflexivity.
    + replace (len (p :: ps) >? 0) with true
        by (symmetry; rewrite Z.gtb_ltb; apply Z.ltb_lt; unfold len; simpl length; lia).
      rewrite repeat_length. unfold len. rewrite Nat2Z.id.
      rewrite io_ReadFull_app. reflexivity.
Qed.

Lemma lengthBytes_read :
  forall (m : bool) n, 0 <= n <= 4294967295 ->
    bit_set (fst (lengthBytes m n)) 0x80 = m
    /\ (forall r, readPayloadLen (Z.land (fst (lengthBytes m n)) 0x7F)
                    (snd (lengthBytes m n) ++ r) = Ok (n, r))
    /\ (length (snd (lengthBytes m n)) <= 8)%nat.
Proof.
  intros m n Hn.
  destruct (lengthBytes m n) as [b1 ext] eqn:E.
  exact (length_encoding m n Hn b1 ext E).
Qed.

Lemma readFrame_frameBytes :
  forall f rest maxSize,
    readable_frame f -> len (Payload f) <= maxSize ->
    readFrame (frameBytes f ++ rest) maxSize = Ok (unmasked f, rest).
Proof.
  intros f rest maxSize [Hop Hctl Hrsv Hkey Hlen] Hmax.
  rewrite frameBytes_eq
    by (intros Hm; rewrite Hm in Hkey; exact Hkey).
  destruct f as [fin r1 r2 r3 op m key payload].
  cbn [Opcode Fin Payload Masked MaskKey Rsv1 Rsv2 Rsv3] in *.
  destruct Hrsv as [-> [-> ->]].
  assert (0 <= len payload) as Hpos by (unfold len; lia).
  destruct (lengthBytes_read m (len payload) (conj Hpos Hlen)) as [Hm [Hrd _]].
  destruct (headByte_bits fin false false false op) as (B1 & B2 & B3 & B4 & B5 & B6 & _);
    [lia |].
  cbv zeta in B1, B2, B3, B4, B5, B6.
  unfold unmasked. cbn [Masked Payload MaskKey set_Payload Fin Rsv1 Rsv2 Rsv3 Opcode].
  cbn [app]. rewrite <- !app_assoc.
  assert ((if m then key else []) = key) as ->.
  { destruct m; [reflexivity | symmetry; exact Hkey]. }
  apply readFrame_wire_any; try assumption.
Qed.

Lemma readLoop_mono :
  forall fuel c mp ff r,
    readLoop fuel c mp ff = Some r ->
    forall fuel', (fuel <= fuel')%nat -> readLoop fuel' c mp ff = Some r.
Proof.
  induction fuel as [| fuel IH]; intros c mp ff r H fuel' Hf; [discriminate |].
  destruct fuel' as [| fuel']; [lia |].
  cbn [readLoop] in *.
  destruct (readFrame (reader c) (maxFrameSize c)) as [[frame r'] | e];
    [| exact H].
  assert (forall mp' ff',
    (if len (mp ++ Payload frame) >? maxMessageSize (with_reader c r')
     then Some (Err ErrMessageTooLarge, with_reader c r')
     else if Fin frame
          then Some (Ok (mp ++ Payload frame), with_reader c r')
          else readLoop fuel (with_reader c r') mp' ff') = Some r ->
    (if len (mp ++ Payload frame) >? maxMessageSize (with_reader c r')
     then Some (Err ErrMessageTooLarge, with_reader c r')
     else if Fin frame
          then Some (Ok (mp ++ Payload frame), with_reader c r')
          else readLoop fuel' (with_reader c r') mp' ff') = Some r) as Ha.
  { intros mp' ff'. destruct (_ >? _); [auto |].
    destruct (Fin frame); [auto |]. intros E. apply (IH _ _ _ _ E). lia. }
  destruct (Opcode frame =? opContinuation).
  { destruct ff; [exact H | apply Ha, H]. }
  destruct (Opcode frame =? opClose); [exact H |].
  destruct (Opcode frame =? opPing).
  { destruct (writeFrame _ _ _) as [[w' buf'] | e]; [| exact H].
    apply (IH _ _ _ _ H). lia. }
  destruct (Opcode frame =? opPong); [apply (IH _ _ _ _ H); lia |].
  destruct (_ || _); [| exact H].
  destruct (negb ff); [exact H | apply Ha, H].
Qed.

Lemma readLoop_fuel :
  forall fuel fuel' c mp ff,
    (length (reader c) < fuel)%nat -> (length (reader c) < fuel')%nat ->
    readLoop fuel c mp ff = readLoop fuel' c mp ff.
Proof.
  intros fuel fuel' c mp ff H H'.
  destruct (readLoop fuel c mp ff) as [r |] eqn:E.
  - destruct (Nat.le_ge_cases fuel fuel') as [L | L].
    + symmetry. apply (readLoop_mono _ _ _ _ _ E). exact L.
    + destruct (readLoop fuel' c mp ff) as [r' |] eqn:E'.
      * rewrite (readLoop_mono _ _ _ _ _ E' fuel L) in E. congruence.
      * exfalso. apply (readLoop_enough_fuel _ _ _ _ H' E').
  - exfalso. apply (readLoop_enough_fuel _ _ _ _ H E).
Qed.

Lemma readMessage_readFrom : forall c, readMessage c = readFrom c [] true.
Proof. reflexivity. Qed.

Lemma readFrom_fuel :
  forall fuel c mp ff, (length (reader c) < fuel)%nat ->
    readLoop fuel c mp ff = Some (readFrom c mp ff).
Proof.
  intros fuel c mp ff H. unfold readFrom.
  rewrite (readLoop_fuel (S (length (reader c))) fuel) by lia.
  destruct (readLoop fuel c mp ff) eqn:E; [reflexivity |].
  exfalso. apply (readLoop_enough_fuel _ _ _ _ H E).
Qed.

Lemma frameBytes_length :
  forall f, (Masked f = true -> length (MaskKey f) = 4%nat) ->
    (2 <= length (frameBytes f))%nat.
Proof.
  intros f H. rewrite frameBytes_eq by exact H. simpl. lia.
Qed.

(** One turn of the loop on a frame that readFrame accepts. *)
Lemma readFrom_frame :
  forall c f rest mp ff,
    readable_frame f -> len (Payload f) <= maxFrameSize c ->
    readFrom (with_reader c (frameBytes f ++ rest)) mp ff
    = let frame := unmasked f in
      let c1 := with_reader c rest in
      let append (ff' : bool) :=
        let mp' := mp ++ Payload frame in
        if len mp' >? maxMessageSize c1 then (Err ErrMessageTooLarge, c1)
        else if Fin frame then (Ok mp', c1)
        else readFrom c1 mp' ff' in
      if Opcode frame =? opContinuation then
        if ff then (Err ErrInvalidFrame, c1) else append ff
      else if Opcode frame =? opClose then
        (Err ErrConnectionClosed,
         latchClosed c1
           (if len (Payload frame) >=? 2
            then BigEndian_Uint16 (firstn 2 (Payload frame)) else 1000)
           (if len (Payload frame) >? 2 then skipn 2 (Payload frame) else []))
      else if Opcode frame =? opPing then
        match writeFrame (writer c1) (writeBuf c1)
                (mkFrame true false false false opPong false []
                   (Payload frame)) with
        | Err e => (Err e, c1)
        | Ok (w', buf') => readFrom (with_writer c1 w' buf') mp ff
        end
      else if Opcode frame =? opPong then readFrom c1 mp ff
      else if (Opcode frame =? opText) || (Opcode frame =? opBinary) then
        if negb ff then (Err ErrInvalidFrame, c1) else append false
      else (Err ErrUnsupportedFrameType, c1).
Proof.
  intros c f rest mp ff Hr Hmax.
  assert (2 <= length (frameBytes f))%nat as H2.
  { apply frameBytes_length. intros Hm. destruct Hr as [_ _ _ Hk _].
    rewrite Hm in Hk. exact Hk. }
  unfold readFrom at 1.
  cbn [reader with_reader readLoop maxFrameSize].
  rewrite readFrame_frameBytes by assumption.
  cbv zeta.
  change (with_reader (with_reader c (frameBytes f ++ rest)) rest)
    with (with_reader c rest).
  set (c1 := with_reader c rest).
  assert (length (reader c1) < length (frameBytes f ++ rest))%nat as Hl.
  { subst c1. cbn [reader with_reader]. rewrite length_app. lia. }
  assert (forall mp' ff',
    (if len (mp ++ Payload (unmasked f)) >? maxMessageSize c1
     then Some (Err ErrMessageTooLarge, c1)
     else if Fin (unmasked f)
          then Some (Ok (mp ++ Payload (unmasked f)), c1)
          else readLoop (length (frameBytes f ++ rest)) c1 mp' ff')
    = Some (if len (mp ++ Payload (unmasked f)) >? maxMessageSize c1
            then (Err ErrMessageTooLarge, c1)
            else if Fin (unmasked f)
                 then (Ok (mp ++ Payload (unmasked f)), c1)
                 else readFrom c1 mp' ff')) as Ha.
  { intros mp' ff'. destruct (_ >? _); [reflexivity |].
    destruct (Fin _); [reflexivity |]. apply readFrom_fuel. exact Hl. }
  destruct (Opcode (unmasked f) =? opContinuation).
  { destruct ff; [reflexivity | rewrite Ha; reflexivity]. }
  destruct (Opcode (unmasked f) =? opClose); [reflexivity |].
  destruct (Opcode (unmasked f) =? opPing).
  { destruct (writeFrame _ _ _) as [[w' buf'] | e]; [| reflexivity].
    rewrite readFrom_fuel; [reflexivity |]. exact Hl. }
  destruct (Opcode (unmasked f) =? opPong).
  { rewrite readFrom_fuel; [reflexivity | exact Hl]. }
  destruct (_ || _); [| reflexivity].
  destruct (negb ff); [reflexivity | rewrite Ha; reflexivity].
Qed.

Lemma peerFrame_readable :
  forall fin op key p,
    0 <= op <= 10 -> (8 <= op -> fin = true) -> key_ok key ->
    len p <= 4294967295 ->
    readable_frame (peerFrame fin op key p).
Proof.
  intros fin op key p Hop Hctl Hk Hl.
  destruct key as [k |]; split; cbn; auto.
  unfold len in *. rewrite maskFrom_length. exact Hl.
Qed.

Lemma peerFrame_unmasked :
  forall fin op key p,
    Fin (unmasked (peerFrame fin op key p)) = fin
    /\ Opcode (unmasked (peerFrame fin op key p)) = op
    /\ Payload (unmasked (peerFrame fin op key p)) = p.
Proof.
  intros fin op [k |] p; cbn; repeat split.
  apply maskFrom_involutive.
Qed.

Lemma peerFrame_len :
  forall fin op key p, len (Payload (peerFrame fin op key p)) = len p.
Proof.
  intros fin op [k |] p; cbn; [| reflexivity].
  unfold len. rewrite maskFrom_length. reflexivity.
Qed.

Lemma len_app : forall a b, len (a ++ b) = len a + len b.
Proof. intros. unfold len. rewrite length_app. lia. Qed.

Lemma len_nonneg : forall a, 0 <= len a.
Proof. intros. unfold len. lia. Qed.

Lemma readFrom_continuations :
  forall chunks c mp rest,
    chunks <> [] ->
    Forall (chunk_ok c) chunks ->
    len (mp ++ concat (map snd chunks)) <= maxMessageSize c ->
    readFrom (with_reader c (fragments opContinuation chunks ++ rest)) mp false
    = (Ok (mp ++ concat (map snd chunks)), with_reader c rest).
Proof.
  induction chunks as [| [k p] chunks IH]; intros c mp rest Hne Hok Hmax;
    [congruence |].
  inversion Hok as [| ? ? [Hk [Hf Hl]] Hok']; subst. cbn [fst snd] in *.
  cbn [fragments map concat snd] in *.
  rewrite <- app_assoc.
  rewrite readFrom_frame;
    [| apply peerFrame_readable; auto; try (vm_compute; split; discriminate);
       intros H; vm_compute in H; exfalso; apply H; reflexivity
     | rewrite peerFrame_len; exact Hf].
  cbv zeta.
  destruct (peerFrame_unmasked (match chunks with [] => true | _ => false end)
              opContinuation k p) as [E1 [E2 E3]].
  rewrite E1, E2, E3.
  replace (opContinuation =? opContinuation) with true by reflexivity.
  cbn [maxMessageSize with_reader].
  rewrite app_assoc in Hmax.
  pose proof (len_app (mp ++ p) (concat (map snd chunks))) as La.
  pose proof (len_nonneg (concat (map snd chunks))) as Ln.
  replace (len (mp ++ p) >? maxMessageSize c) with false
    by (symmetry; rewrite Z.gtb_ltb; apply Z.ltb_ge; lia).
  destruct chunks as [| ch chunks].
  - cbn [map concat fragments app]. rewrite app_nil_r. reflexivity.
  - change (with_reader c ?r)
      with (with_reader c r).
    rewrite IH; [rewrite app_assoc; reflexivity | discriminate | exact Hok' |].
    exact Hmax.
Qed.

Lemma readMessage_fragments :
  forall chunks c op rest,
    op = opText \/ op = opBinary ->
    chunks <> [] ->
    Forall (chunk_ok c) chunks ->
    len (concat (map snd chunks)) <= maxMessageSize c ->
    readMessage (with_reader c (fragments op chunks ++ rest))
    = (Ok (concat (map snd chunks)), with_reader c rest).
Proof.
  intros chunks c op rest Hop Hne Hok Hmax.
  destruct chunks as [| [k p] chunks]; [congruence |].
  inversion Hok as [| ? ? [Hk [Hf Hl]] Hok']; subst. cbn [fst snd] in *.
  rewrite readMessage_readFrom.
  cbn [fragments map concat snd] in *.
  rewrite <- app_assoc.
  rewrite readFrom_frame;
    [| apply peerFrame_readable; auto;
       [destruct Hop as [-> | ->]; vm_compute; split; discriminate
       | intros H; destruct Hop as [-> | ->]; vm_compute in H; exfalso;
         apply H; reflexivity]
     | rewrite peerFrame_len; exact Hf].
  cbv zeta.
  destruct (peerFrame_unmasked (match chunks with [] => true | _ => false end)
              op k p) as [E1 [E2 E3]].
  rewrite E1, E2, E3.
  replace (op =? opContinuation) with false
    by (destruct Hop as [-> | ->]; reflexivity).
  replace (op =? opClose) with false
    by (destruct Hop as [-> | ->]; reflexivity).
  replace (op =? opPing) with false
    by (destruct Hop as [-> | ->]; reflexivity).
  replace (op =? opPong) with false
    by (destruct Hop as [-> | ->]; reflexivity).
  replace ((op =? opText) || (op =? opBinary)) with true
    by (destruct Hop as [-> | ->]; reflexivity).
  cbn [negb app maxMessageSize with_reader].
  pose proof (len_app p (concat (map snd chunks))) as La.
  pose proof (len_nonneg (concat (map snd chunks))) as Ln.
  replace (len p >? maxMessageSize c) with false
    by (symmetry; rewrite Z.gtb_ltb; apply Z.ltb_ge; lia).
  destruct chunks as [| ch chunks].
  - cbn [map concat fragments app]. rewrite app_nil_r. reflexivity.
  - change (mkConn (closed c) (closeOnce c) (closeCode c) (closeReason c)
              (isClient c) (compression c) (maxFrameSize c) (maxMessageSize c)
              ?r (writer c) (writeBuf c)) with (with_reader c r).
    rewrite readFrom_continuations; [reflexivity | discriminate | exact Hok' |].
    exact Hmax.
Qed.

Lemma Read_delivers :
  forall (M : MsgType) c ctx p c',
    closed c = false -> cancelled ctx = false ->
    readMessage c = (Ok p, c') -> p <> [] ->
    ((forall cm, compression c' = Some cm -> enabled cm = false) ->
     forall msg, json_Unmarshal M p = Some msg ->
       Read M c ctx = (Ok msg, c'))
    /\ (forall cm, compression c' = Some cm -> enabled cm = true ->
          (forall e, Decompress cm p = Err e -> Read M c ctx = (Err e, c'))
          /\ (forall inflated msg,
                Decompress cm p = Ok inflated ->
                json_Unmarshal M inflated = Some msg ->
                Read M c ctx = (Ok msg, c'))).
Proof.
  intros M c ctx p c' Hc Hx Hr Hp.
  assert (Read M c ctx
          = match (match compression c' with
                   | Some cm =>
                       if enabled cm then Decompress cm p else Ok p
                   | None => Ok p
                   end) with
            | Err e => (Err e, c')
            | Ok q =>
                match json_Unmarshal M q with
                | Some msg => (Ok msg, c')
                | None =>
                    match ptrKind M with
                    | PtrBytes inj => (Ok (inj q), c')
                    | PtrString inj => (Ok (inj q), c')
                    | PtrOther => (Err ErrDeserializationFailed, c')
                    end
                end
            end) as E.
  { unfold Read. rewrite Hc, Hx, Hr.
    replace (len p =? 0) with false
      by (symmetry; apply Z.eqb_neq; destruct p;
          [congruence | unfold len; simpl; lia]).
    reflexivity. }
  split.
  - intros Hoff msg Hj. rewrite E.
    destruct (compression c') as [cm |]; [rewrite (Hoff cm eq_refl) |];
      rewrite Hj; reflexivity.
  - intros cm Hcm Hon. rewrite E, Hcm, Hon. split.
    + intros e ->. reflexivity.
    + intros inflated msg -> ->. reflexivity.
Qed.

Lemma Read_fails :
  forall (M : MsgType) c ctx e c',
    closed c = false -> cancelled ctx = false ->
    readMessage c = (Err e, c') ->
    Read M c ctx = (Err e, c').
Proof.
  intros M c ctx e c' Hc Hx Hr. unfold Read. rewrite Hc, Hx, Hr. reflexivity.
Qed.



(** A ping is answered with a pong that carries the same payload, unmasked,
    and Read goes on with the frames that follow, at the start of a message
    or between its fragments. *)
Theorem ping_is_answered_with_pong :
  forall (M : MsgType) c ctx key p rest mp ff,
    closed c = false -> cancelled ctx = false ->
    key_ok key -> len p <= maxFrameSize c -> len p <= 4294967295 ->
    (14 <= length (writeBuf c))%nat ->
    exists buf',
      let ping := frameBytes (peerFrame true opPing key p) in
      let c' := with_writer (with_reader c rest) (writer c ++ pongFor p) buf' in
      readFrom (with_reader c (ping ++ rest)) mp ff = readFrom c' mp ff
      /\ Read M (with_reader c (ping ++ rest)) ctx = Read M c' ctx.
Proof.
  intros M c ctx key p rest mp ff Hc Hx Hk Hf Hl Hb.
  destruct (writeFrame_frameBytes
              (mkFrame true false false false opPong false [] p)
              (writer c) (writeBuf c) Hb) as [buf' E];
    [cbn; discriminate |].
  assert (forall mp ff,
    readFrom (with_reader c (frameBytes (peerFrame true opPing key p) ++ rest))
      mp ff
    = readFrom (with_writer (with_reader c rest) (writer c ++ pongFor p) buf')
        mp ff) as R.
  { intros mp' ff'.
    rewrite readFrom_frame;
      [| apply peerFrame_readable; auto; vm_compute; split; discriminate
       | rewrite peerFrame_len; exact Hf].
    cbv zeta.
    destruct (peerFrame_unmasked true opPing key p) as [E1 [E2 E3]].
    rewrite E2, E3.
    replace (opPing =? opContinuation) with false by reflexivity.
    replace (opPing =? opClose) with false by reflexivity.
    replace (opPing =? opPing) with true by reflexivity.
    cbn [writer writeBuf with_reader].
    rewrite E. reflexivity. }
  exists buf'. cbv zeta. split; [apply R |].
  unfold Read. cbn [closed with_reader with_writer].
  rewrite Hc, Hx. rewrite !readMessage_readFrom, R. reflexivity.
Qed.

Lemma ping_is_answered_with_pong_witness :
  let c := newConn false None [] in
  let key := Some [0x12; 0x34; 0x56; 0x78] in
  let p := [0x61; 0x62; 0x63] in
  frameBytes (peerFrame true opPing key p)
  = [0x89; 0x83; 0x12; 0x34; 0x56; 0x78; 0x73; 0x56; 0x35]
  /\ pongFor p = [0x8A; 0x03; 0x61; 0x62; 0x63]
  /\ exists buf',
      let ping := frameBytes (peerFrame true opPing key p) in
      let c' := with_writer (with_reader c [0x81; 0x00])
                  (writer c ++ pongFor p) buf' in
      readFrom (with_reader c (ping ++ [0x81; 0x00])) [] true
      = readFrom c' [] true
      /\ Read StringMsg (with_reader c (ping ++ [0x81; 0x00])) None
         = Read StringMsg c' None.
Proof.
  cbv zeta. split; [reflexivity |]. split; [reflexivity |].
  apply (ping_is_answered_with_pong StringMsg (newConn false None []) None
           (Some [0x12; 0x34; 0x56; 0x78]) [0x61; 0x62; 0x63] [0x81; 0x00]
           [] true).
  - reflexivity.
  - reflexivity.
  - reflexivity.
  - vm_compute. discriminate.
  - vm_compute. discriminate.
  - vm_compute. lia.
Defined.

Lemma Read_on_close_frame :
  forall (M : MsgType) c ctx key p rest,
    closed c = false -> closeOnce c = false -> cancelled ctx = false ->
    key_ok key -> len p <= maxFrameSize c -> len p <= 4294967295 ->
    Read M (with_reader c (frameBytes (peerFrame true opClose key p) ++ rest))
      ctx
    = (Err ErrConnectionClosed,
       mkConn true true
         (if len p >=? 2 then BigEndian_Uint16 (firstn 2 p) else 1000)
         (skipn 2 p) (isClient c) (compression c) (maxFrameSize c)
         (maxMessageSize c) rest (writer c) (writeBuf c)).
Proof.
  intros M c ctx key p rest Hc Ho Hx Hk Hf Hl.
  unfold Read. cbn [closed with_reader]. rewrite Hc, Hx.
  rewrite readMessage_readFrom.
  rewrite readFrom_frame;
    [| apply peerFrame_readable; auto; [vm_compute; split; discriminate]
     | rewrite peerFrame_len; exact Hf].
  cbv zeta.
  destruct (peerFrame_unmasked true opClose key p) as [E1 [E2 E3]].
  rewrite E2, E3.
  replace (opClose =? opContinuation) with false by reflexivity.
  replace (opClose =? opClose) with true by reflexivity.
  unfold latchClosed. cbn [closeOnce with_reader]. rewrite Ho.
  cbn [isClient compression maxFrameSize maxMessageSize reader writer writeBuf].
  replace (if len p >? 2 then skipn 2 p else []) with (skipn 2 p);
    [reflexivity |].
  destruct (Z.gtb_spec (len p) 2) as [G | L]; [reflexivity |].
  apply skipn_all2. unfold len in L. lia.
Qed.

(** A close frame ends Read with ErrConnectionClosed and marks the connection
    closed.  The code is read from the first two bytes of the payload and the
    reason from the rest; a payload of fewer than two bytes gives code 1000
    and no reason.  No close frame is sent back, neither by Read nor by a
    later Close. *)
Theorem Read_close_frame :
  forall (M : MsgType) c ctx key p rest code reason,
    closed c = false -> closeOnce c = false -> cancelled ctx = false ->
    key_ok key -> len p <= maxFrameSize c -> len p <= 4294967295 ->
    let r := Read M (with_reader c
                       (frameBytes (peerFrame true opClose key p) ++ rest))
               ctx in
    fst r = Err ErrConnectionClosed
    /\ IsClosed (snd r) = true
    /\ closeCode (snd r)
       = (if len p >=? 2 then BigEndian_Uint16 (firstn 2 p) else 1000)
    /\ closeReason (snd r) = skipn 2 p
    /\ reader (snd r) = rest
    /\ writer (snd r) = writer c
    /\ Close (snd r) code reason = (None, snd r).
Proof.
  intros M c ctx key p rest code reason Hc Ho Hx Hk Hf Hl r.
  subst r. rewrite Read_on_close_frame by assumption.
  cbn [fst snd]. repeat split; reflexivity.
Qed.

Lemma Read_close_frame_witness :
  let c := newConn false None [] in
  let r := Read StringMsg
             (with_reader c
                (frameBytes (peerFrame true opClose (Some [1; 2; 3; 4]) [0x03])
                 ++ [0x81; 0x00])) None in
  fst r = Err ErrConnectionClosed
  /\ IsClosed (snd r) = true
  /\ closeCode (snd r) = 1000
  /\ closeReason (snd r) = []
  /\ reader (snd r) = [0x81; 0x00]
  /\ writer (snd r) = []
  /\ Close (snd r) 1001 [0x62; 0x79; 0x65] = (None, snd r).
Proof.
  cbv zeta.
  apply (Read_close_frame StringMsg (newConn false None []) None
           (Some [1; 2; 3; 4]) [0x03] [0x81; 0x00] 1001 [0x62; 0x79; 0x65]).
  - reflexivity.
  - reflexivity.
  - reflexivity.
  - reflexivity.
  - vm_compute. discriminate.
  - vm_compute. discriminate.
Defined.

Lemma to_uint16_bytes :
  forall code,
    BigEndian_Uint16 (BigEndian_PutUint16 (to_uint16 code)) = code mod 65536.
Proof.
  intros code. unfold to_uint16. apply Uint16_PutUint16.
  apply Z.mod_pos_bound. lia.
Qed.

(** Close marks the connection closed with the code and the reason and sends
    one unmasked close frame; the peer that reads the frame gets
    ErrConnectionClosed and finds the code, taken modulo 65536, and the
    reason. *)
Theorem Close_reaches_peer :
  forall (M : MsgType) c p ctx code reason rest,
    closeOnce c = false -> (14 <= length (writeBuf c))%nat ->
    closed p = false -> closeOnce p = false -> cancelled ctx = false ->
    2 + len reason <= maxFrameSize p -> 2 + len reason <= 4294967295 ->
    exists buf',
      Close c code reason
      = (None,
         mkConn true true code reason (isClient c) (compression c)
           (maxFrameSize c) (maxMessageSize c) (reader c)
           (writer c ++ closeFrameFor code reason) buf')
      /\ Read M (with_reader p (closeFrameFor code reason ++ rest)) ctx
         = (Err ErrConnectionClosed,
            mkConn true true (code mod 65536) reason (isClient p)
              (compression p) (maxFrameSize p) (maxMessageSize p) rest
              (writer p) (writeBuf p)).
Proof.
  intros M c p ctx code reason rest Ho Hb Hc Hpo Hx Hf Hl.
  set (payload := BigEndian_PutUint16 (to_uint16 code) ++ reason).
  assert (len payload = 2 + len reason) as Hlen.
  { unfold payload, len. rewrite length_app. simpl length. lia. }
  destruct (writeFrame_frameBytes
              (mkFrame true false false false opClose false [] payload)
              (writer c) (writeBuf c) Hb) as [buf' E];
    [cbn; discriminate |].
  exists buf'. split.
  - unfold Close. rewrite Ho. cbv zeta.
    unfold latchClosed. rewrite Ho. cbn [writer writeBuf].
    fold payload. rewrite E. reflexivity.
  - unfold closeFrameFor. fold payload.
    change (mkFrame true false false false opClose false [] payload)
      with (peerFrame true opClose None payload).
    rewrite Read_on_close_frame; try assumption; try exact I; try lia.
    replace (len payload >=? 2) with true
      by (symmetry; apply Z.geb_le; pose proof (len_nonneg reason); lia).
    unfold payload at 1 2.
    change (firstn 2 (BigEndian_PutUint16 (to_uint16 code) ++ reason))
      with (BigEndian_PutUint16 (to_uint16 code)).
    change (skipn 2 (BigEndian_PutUint16 (to_uint16 code) ++ reason))
      with reason.
    rewrite to_uint16_bytes. reflexivity.
Qed.

Lemma Close_reaches_peer_witness :
  let c := newConn true None [] in
  let p := newConn false None [] in
  closeFrameFor 1001 [0x62; 0x79; 0x65] = [0x88; 0x05; 0x03; 0xE9; 0x62; 0x79; 0x65]
  /\ exists buf',
      Close c 1001 [0x62; 0x79; 0x65]
      = (None,
         mkConn true true 1001 [0x62; 0x79; 0x65] true None 4096 1048576 []
           ([] ++ closeFrameFor 1001 [0x62; 0x79; 0x65]) buf')
      /\ Read StringMsg
           (with_reader p (closeFrameFor 1001 [0x62; 0x79; 0x65] ++ [])) None
         = (Err ErrConnectionClosed,
            mkConn true true (1001 mod 65536) [0x62; 0x79; 0x65] false None
              4096 1048576 [] [] (repeat 0 4096)).
Proof.
  cbv zeta. split; [reflexivity |].
  apply (Close_reaches_peer StringMsg (newConn true None [])
           (newConn false None []) None 1001 [0x62; 0x79; 0x65] []).
  - reflexivity.
  - vm_compute. lia.
  - reflexivity.
  - reflexivity.
  - reflexivity.
  - vm_compute. discriminate.
  - vm_compute. discriminate.
Defined.

(** After Close the connection is closed for good: the code and the reason
    of the first Close stay, a second Close sends nothing, and Read and Write
    fail with ErrConnectionClosed without touching the connection. *)
Theorem Close_is_final :
  forall (M : MsgType) (deflate : list Z -> list Z) c code reason
         code' reason' ctx msg key,
    closeOnce c = false ->
    let c' := snd (Close c code reason) in
    IsClosed c' = true
    /\ closeCode c' = code /\ closeReason c' = reason
    /\ Close c' code' reason' = (None, c')
    /\ Read M c' ctx = (Err ErrConnectionClosed, c')
    /\ Write M deflate c' ctx msg key = (Some ErrConnectionClosed, c').
Proof.
  intros M deflate c code reason code' reason' ctx msg key Ho c'.
  assert (closed c' = true /\ closeOnce c' = true /\ closeCode c' = code
          /\ closeReason c' = reason) as (H1 & H2 & H3 & H4).
  { subst c'. unfold Close. rewrite Ho. cbv zeta.
    unfold latchClosed. rewrite Ho. cbn [writer writeBuf].
    destruct (writeFrame _ _ _) as [[w' buf'] | e]; cbn; auto. }
  unfold IsClosed. repeat split; auto.
  - unfold Close. rewrite H2. reflexivity.
  - unfold Read. rewrite H1. reflexivity.
  - unfold Write. rewrite H1. reflexivity.
Qed.

Lemma Close_is_final_witness :
  let c := newConn false None [0x81; 0x00] in
  let c' := snd (Close c 1000 []) in
  closeOnce c = false
  /\ IsClosed c' = true
  /\ closeCode c' = 1000 /\ closeReason c' = []
  /\ Close c' 1011 [0x78] = (None, c')
  /\ Read StringMsg c' None = (Err ErrConnectionClosed, c')
  /\ Write StringMsg storedFlush c' None hello_world []
     = (Some ErrConnectionClosed, c').
Proof.
  cbv zeta. split; [reflexivity |].
  apply (Close_is_final StringMsg storedFlush
           (newConn false None [0x81; 0x00]) 1000 [] 1011 [0x78] None
           hello_world []).
  reflexivity.
Defined.


Lemma readLoop_within_limit :
  forall fuel c mp ff p c',
    readLoop fuel c mp ff = Some (Ok p, c') ->
    len p <= maxMessageSize c.
Proof.
  induction fuel as [| fuel IH]; intros c mp ff p c' H; [discriminate |].
  cbn [readLoop] in H.
  destruct (readFrame (reader c) (maxFrameSize c)) as [[frame r'] | e];
    [| discriminate].
  assert (forall mp' ff',
    (if len (mp ++ Payload frame) >? maxMessageSize (with_reader c r')
     then Some (Err ErrMessageTooLarge, with_reader c r')
     else if Fin frame
          then Some (Ok (mp ++ Payload frame), with_reader c r')
          else readLoop fuel (with_reader c r') mp' ff') = Some (Ok p, c') ->
    len p <= maxMessageSize c) as Ha.
  { intros mp' ff'. cbn [maxMessageSize with_reader].
    destruct (Z.gtb_spec (len (mp ++ Payload frame)) (maxMessageSize c));
      [discriminate |].
    destruct (Fin frame).
    - intros E. inversion E; subst. assumption.
    - intros E. apply IH in E. exact E. }
  destruct (Opcode frame =? opContinuation).
  { destruct ff; [discriminate | apply (Ha _ _ H)]. }
  destruct (Opcode frame =? opClose); [discriminate |].
  destruct (Opcode frame =? opPing).
  { destruct (writeFrame _ _ _) as [[w' buf'] | e]; [| discriminate].
    apply IH in H. exact H. }
  destruct (Opcode frame =? opPong); [apply IH in H; exact H |].
  destruct (_ || _); [| discriminate].
  destruct (negb ff); [discriminate | apply (Ha _ _ H)].
Qed.

Lemma readFrom_continuations_too_large :
  forall chunks c mp rest,
    chunks <> [] ->
    Forall (chunk_ok c) chunks ->
    maxMessageSize c < len (mp ++ concat (map snd chunks)) ->
    fst (readFrom (with_reader c (fragments opContinuation chunks ++ rest))
           mp false)
    = Err ErrMessageTooLarge.
Proof.
  induction chunks as [| [k p] chunks IH]; intros c mp rest Hne Hok Hmax;
    [congruence |].
  inversion Hok as [| ? ? [Hk [Hf Hl]] Hok']; subst. cbn [fst snd] in *.
  cbn [fragments map concat snd] in *.
  rewrite <- app_assoc.
  rewrite readFrom_frame;
    [| apply peerFrame_readable; auto; try (vm_compute; split; discriminate);
       intros H; vm_compute in H; exfalso; apply H; reflexivity
     | rewrite peerFrame_len; exact Hf].
  cbv zeta.
  destruct (peerFrame_unmasked (match chunks with [] => true | _ => false end)
              opContinuation k p) as [E1 [E2 E3]].
  rewrite E1, E2, E3.
  replace (opContinuation =? opContinuation) with true by reflexivity.
  cbn [maxMessageSize with_reader].
  rewrite app_assoc in Hmax.
  destruct (Z.gtb_spec (len (mp ++ p)) (maxMessageSize c)) as [G | L];
    [reflexivity |].
  destruct chunks as [| ch chunks].
  - cbn [map concat] in Hmax. rewrite app_nil_r in Hmax. lia.
  - apply IH; [discriminate | exact Hok' | exact Hmax].
Qed.

(** The message limit: a message whose fragments add up to more than
    [maxMessageSize] bytes makes Read fail with ErrMessageTooLarge, and the
    frame loop never hands over more than [maxMessageSize] bytes. *)
Theorem Read_message_limit :
  forall (M : MsgType) c ctx op chunks rest,
    closed c = false -> cancelled ctx = false ->
    op = opText \/ op = opBinary ->
    chunks <> [] -> Forall (chunk_ok c) chunks ->
    maxMessageSize c < len (concat (map snd chunks)) ->
    fst (Read M (with_reader c (fragments op chunks ++ rest)) ctx)
    = Err ErrMessageTooLarge
    /\ forall c0 p c', readMessage c0 = (Ok p, c') ->
                       len p <= maxMessageSize c0.
Proof.
  intros M c ctx op chunks rest Hc Hx Hop Hne Hok Hmax. split.
  - assert (fst (readMessage (with_reader c (fragments op chunks ++ rest)))
            = Err ErrMessageTooLarge) as R.
    { destruct chunks as [| [k p] chunks]; [congruence |].
      inversion Hok as [| ? ? [Hk [Hf Hl]] Hok']; subst. cbn [fst snd] in *.
      rewrite readMessage_readFrom.
      cbn [fragments map concat snd] in *.
      rewrite <- app_assoc.
      rewrite readFrom_frame;
        [| apply peerFrame_readable; auto;
           [destruct Hop as [-> | ->]; vm_compute; split; discriminate
           | intros H; destruct Hop as [-> | ->]; vm_compute in H; exfalso;
             apply H; reflexivity]
         | rewrite peerFrame_len; exact Hf].
      cbv zeta.
      destruct (peerFrame_unmasked
                  (match chunks with [] => true | _ => false end) op k p)
        as [E1 [E2 E3]].
      rewrite E1, E2, E3.
      replace (op =? opContinuation) with false
        by (destruct Hop as [-> | ->]; reflexivity).
      replace (op =? opClose) with false
        by (destruct Hop as [-> | ->]; reflexivity).
      replace (op =? opPing) with false
        by (destruct Hop as [-> | ->]; reflexivity).
      replace (op =? opPong) with false
        by (destruct Hop as [-> | ->]; reflexivity).
      replace ((op =? opText) || (op =? opBinary)) with true
        by (destruct Hop as [-> | ->]; reflexivity).
      cbn [negb app maxMessageSize with_reader].
      destruct (Z.gtb_spec (len p) (maxMessageSize c)) as [G | L];
        [reflexivity |].
      destruct chunks as [| ch chunks].
      + cbn [map concat] in Hmax. rewrite app_nil_r in Hmax. lia.
      + apply readFrom_continuations_too_large;
          [discriminate | exact Hok' | exact Hmax]. }
    unfold Read. cbn [closed with_reader]. rewrite Hc, Hx.
    destruct (readMessage _) as [[p | e] c'] eqn:E; cbn [fst] in R;
      [discriminate | inversion R; reflexivity].
  - intros c0 p c' H. unfold readMessage in H.
    destruct (readLoop _ c0 [] true) as [r |] eqn:E; [| discriminate].
    subst r. apply (readLoop_within_limit _ _ _ _ _ _ E).
Qed.

Lemma Read_message_limit_witness :
  let c := mkConn false false 0 [] false None 4096 4 [] [] (repeat 0 4096) in
  let chunks := [(None, [0x22; 0x61; 0x62]); (None, [0x63; 0x22])] in
  fragments opText chunks = [0x01; 0x03; 0x22; 0x61; 0x62; 0x80; 0x02; 0x63; 0x22]
  /\ fst (Read StringMsg (with_reader c (fragments opText chunks ++ [])) None)
     = Err ErrMessageTooLarge
  /\ forall c0 p c', readMessage c0 = (Ok p, c') -> len p <= maxMessageSize c0.
Proof.
  cbv zeta. split; [reflexivity |].
  apply (Read_message_limit StringMsg
           (mkConn false false 0 [] false None 4096 4 [] [] (repeat 0 4096))
           None opText [(None, [0x22; 0x61; 0x62]); (None, [0x63; 0x22])] []).
  - reflexivity.
  - reflexivity.
  - left. reflexivity.
  - discriminate.
  - repeat constructor; vm_compute; discriminate.
  - vm_compute. reflexivity.
Defined.

(** Frames out of sequence are refused with ErrInvalidFrame: a continuation
    frame when no message is in progress, and a text or binary frame while
    the fragments of a message are still coming. *)
Theorem Read_refuses_frames_out_of_sequence :
  forall (M : MsgType) c ctx fin key p op op' key' p' rest,
    closed c = false -> cancelled ctx = false ->
    key_ok key -> len p <= maxFrameSize c -> len p <= 4294967295 ->
    len p <= maxMessageSize c ->
    op = opText \/ op = opBinary -> op' = opText \/ op' = opBinary ->
    key_ok key' -> len p' <= maxFrameSize c -> len p' <= 4294967295 ->
    Read M (with_reader c
              (frameBytes (peerFrame fin opContinuation key p) ++ rest)) ctx
    = (Err ErrInvalidFrame, with_reader c rest)
    /\ Read M (with_reader c
                 (frameBytes (peerFrame false op key p)
                  ++ frameBytes (peerFrame fin op' key' p') ++ rest)) ctx
       = (Err ErrInvalidFrame, with_reader c rest).
Proof.
  intros M c ctx fin key p op op' key' p' rest Hc Hx Hk Hf Hl Hm Hop Hop'
         Hk' Hf' Hl'.
  split.
  - apply Read_fails; auto.
    rewrite readMessage_readFrom.
    rewrite readFrom_frame;
      [| apply peerFrame_readable; auto; try (vm_compute; split; discriminate);
         intros H; vm_compute in H; exfalso; apply H; reflexivity
       | rewrite peerFrame_len; exact Hf].
    cbv zeta.
    destruct (peerFrame_unmasked fin opContinuation key p) as [E1 [E2 E3]].
    rewrite E2. reflexivity.
  - apply Read_fails; auto.
    rewrite readMessage_readFrom.
    rewrite readFrom_frame;
      [| apply peerFrame_readable; auto;
         [destruct Hop as [-> | ->]; vm_compute; split; discriminate
         | intros H; destruct Hop as [-> | ->]; vm_compute in H; exfalso;
           apply H; reflexivity]
       | rewrite peerFrame_len; exact Hf].
    cbv zeta.
    destruct (peerFrame_unmasked false op key p) as [E1 [E2 E3]].
    rewrite E1, E2, E3.
    replace (op =? opContinuation) with false
      by (destruct Hop as [-> | ->]; reflexivity).
    replace (op =? opClose) with false
      by (destruct Hop as [-> | ->]; reflexivity).
    replace (op =? opPing) with false
      by (destruct Hop as [-> | ->]; reflexivity).
    replace (op =? opPong) with false
      by (destruct Hop as [-> | ->]; reflexivity).
    replace ((op =? opText) || (op =? opBinary)) with true
      by (destruct Hop as [-> | ->]; reflexivity).
    cbn [negb app maxMessageSize with_reader].
    replace (len p >? maxMessageSize c) with false
      by (symmetry; rewrite Z.gtb_ltb; apply Z.ltb_ge; lia).
    change (mkConn (closed c) (closeOnce c) (closeCode c) (closeReason c)
              (isClient c) (compression c) (maxFrameSize c) (maxMessageSize c)
              ?r (writer c) (writeBuf c)) with (with_reader c r).
    rewrite readFrom_frame;
      [| apply peerFrame_readable; auto;
         [destruct Hop' as [-> | ->]; vm_compute; split; discriminate
         | intros H; destruct Hop' as [-> | ->]; vm_compute in H; exfalso;
           apply H; reflexivity]
       | rewrite peerFrame_len; exact Hf'].
    cbv zeta.
    destruct (peerFrame_unmasked fin op' key' p') as [F1 [F2 F3]].
    rewrite F2.
    replace (op' =? opContinuation) with false
      by (destruct Hop' as [-> | ->]; reflexivity).
    replace (op' =? opClose) with false
      by (destruct Hop' as [-> | ->]; reflexivity).
    replace (op' =? opPing) with false
      by (destruct Hop' as [-> | ->]; reflexivity).
    replace (op' =? opPong) with false
      by (destruct Hop' as [-> | ->]; reflexivity).
    replace ((op' =? opText) || (op' =? opBinary)) with true
      by (destruct Hop' as [-> | ->]; reflexivity).
    reflexivity.
Qed.

Lemma Read_refuses_frames_out_of_sequence_witness :
  let c := newConn false None [] in
  Read StringMsg
    (with_reader c
       (frameBytes (peerFrame true opContinuation None [0x61]) ++ [])) None
  = (Err ErrInvalidFrame, with_reader c [])
  /\ Read StringMsg
       (with_reader c
          (frameBytes (peerFrame false opText None [0x61])
           ++ frameBytes (peerFrame true opBinary (Some [1; 2; 3; 4]) [0x62])
           ++ [])) None
     = (Err ErrInvalidFrame, with_reader c []).
Proof.
  cbv zeta.
  apply (Read_refuses_frames_out_of_sequence StringMsg
           (newConn false None []) None true None [0x61] opText opBinary
           (Some [1; 2; 3; 4]) [0x62] []).
  - reflexivity.
  - reflexivity.
  - exact I.
  - vm_compute. discriminate.
  - vm_compute. discriminate.
  - vm_compute. discriminate.
  - left. reflexivity.
  - right. reflexivity.
  - reflexivity.
  - vm_compute. discriminate.
  - vm_compute. discriminate.
Defined.

Lemma Write_sends :
  forall (M : MsgType) deflate c ctx msg key payload,
    json_Marshal M msg = Some payload ->
    closed c = false -> cancelled ctx = false ->
    (forall cm, compression c = Some cm ->
                ShouldCompress cm (len payload) = false) ->
    len payload <= maxMessageSize c ->
    (14 <= length (writeBuf c))%nat ->
    (isClient c = true -> length key = 4%nat) ->
    exists buf',
      Write M deflate c ctx msg key
      = (None,
         with_writer c
           (writer c
            ++ messageFrame (isClient c) (opcodeOf M msg) key payload)
           buf').
Proof.
  intros M deflate c ctx msg key payload Hj Hc Hx Hcm Hm Hb Hk.
  unfold Write. rewrite Hc, Hx, Hj.
  replace (len payload >? maxMessageSize c) with false
    by (symmetry; rewrite Z.gtb_ltb; apply Z.ltb_ge; lia).
  fold (opcodeOf M msg).
  assert ((match compression c with
           | Some cm =>
               if ShouldCompress cm (len payload)
               then match Compress deflate cm payload with
                    | Ok compressedPayload =>
                        if len compressedPayload <? len payload
                        then (compressedPayload, true)
                        else (payload, false)
                    | Err _ => (payload, false)
                    end
               else (payload, false)
           | None => (payload, false)
           end) = (payload, false)) as ->.
  { destruct (compression c) as [cm |]; [| reflexivity].
    rewrite (Hcm cm eq_refl). reflexivity. }
  unfold messageFrame.
  destruct (isClient c) eqn:Hcl.
  - unfold maskBytes. rewrite (Hk eq_refl).
    replace (4 <? Nat.min 4 (length payload))%nat with false
      by (symmetry; apply Nat.ltb_ge; lia).
    change (set_Payload
              (set_MaskKey
                 (mkFrame true false false false (opcodeOf M msg) true []
                    payload) key) (maskFrom 0 payload key))
      with (peerFrame true (opcodeOf M msg) (Some key) payload).
    destruct (writeFrame_frameBytes
                (peerFrame true (opcodeOf M msg) (Some key) payload)
                (writer c) (writeBuf c) Hb) as [buf' E];
      [intros _; cbn; apply Hk; reflexivity |].
    exists buf'. rewrite E. reflexivity.
  - change (mkFrame true false false false (opcodeOf M msg) false [] payload)
      with (peerFrame true (opcodeOf M msg) None payload).
    destruct (writeFrame_frameBytes
                (peerFrame true (opcodeOf M msg) None payload)
                (writer c) (writeBuf c) Hb) as [buf' E];
      [cbn; discriminate |].
    exists buf'. rewrite E. reflexivity.
Qed.

(** What one endpoint writes the other reads, unless the reader has
    compression enabled.  A message that encoding/json encodes and decodes
    back, written by Write without compression (none on the writer, or a
    payload below its threshold), by a server or, masked, by a client, goes
    out in one frame.  The Read of a peer without compression enabled
    delivers the message and leaves the bytes that follow in the reader.  A
    peer with compression enabled passes the payload, sent as it is, through
    Decompress, and when that fails its Read returns the error instead of
    the message. *)
Theorem Write_then_Read :
  forall (M : MsgType) deflate a b ctx1 ctx2 msg key payload rest,
    json_Marshal M msg = Some payload ->
    json_Unmarshal M payload = Some msg ->
    payload <> [] ->
    closed a = false -> cancelled ctx1 = false ->
    (forall cm, compression a = Some cm ->
                ShouldCompress cm (len payload) = false) ->
    len payload <= maxMessageSize a ->
    (14 <= length (writeBuf a))%nat ->
    (isClient a = true -> length key = 4%nat) ->
    closed b = false -> cancelled ctx2 = false ->
    len payload <= maxFrameSize b -> len payload <= maxMessageSize b ->
    len payload <= 4294967295 ->
    exists wire buf',
      Write M deflate a ctx1 msg key
      = (None, with_writer a (writer a ++ wire) buf')
      /\ ((forall cm, compression b = Some cm -> enabled cm = false) ->
          Read M (with_reader b (wire ++ rest)) ctx2
          = (Ok msg, with_reader b rest))
      /\ (forall cm e,
            compression b = Some cm -> enabled cm = true ->
            Decompress cm payload = Err e ->
            Read M (with_reader b (wire ++ rest)) ctx2
            = (Err e, with_reader b rest)).
Proof.
  intros M deflate a b ctx1 ctx2 msg key payload rest Hj Hu Hne Ha Hx1 Hcm
         Hma Hb Hk Hcb Hx2 Hfb Hmb Hl.
  destruct (Write_sends M deflate a ctx1 msg key payload Hj Ha Hx1 Hcm Hma
              Hb Hk) as [buf' E].
  exists (messageFrame (isClient a) (opcodeOf M msg) key payload), buf'.
  split; [exact E |].
  assert (opcodeOf M msg = opText \/ opcodeOf M msg = opBinary) as Hop.
  { unfold opcodeOf. destruct (dynOf M msg); auto. }
  pose proof (readMessage_fragments
                [(if isClient a then Some key else None, payload)] b
                (opcodeOf M msg) rest Hop) as Hread.
  cbn [fragments map concat snd app] in Hread.
  rewrite !app_nil_r in Hread.
  assert (readMessage
            (with_reader b
               (messageFrame (isClient a) (opcodeOf M msg) key payload
                ++ rest))
          = (Ok payload, with_reader b rest)) as Hmsg.
  { unfold messageFrame. apply Hread.
    - discriminate.
    - constructor; [| constructor]. split; [| split]; cbn [fst snd]; auto.
      destruct (isClient a); [apply Hk; reflexivity | exact I].
    - exact Hmb. }
  destruct (Read_delivers M
              (with_reader b
                 (messageFrame (isClient a) (opcodeOf M msg) key payload
                  ++ rest))
              ctx2 payload (with_reader b rest) Hcb Hx2 Hmsg Hne)
    as [Hoff Hon].
  split.
  - intros Hb'. apply Hoff; [exact Hb' | exact Hu].
  - intros cm e Hc1 Hc2 He. destruct (Hon cm Hc1 Hc2) as [Herr _].
    apply Herr. exact He.
Qed.

Lemma Write_then_Read_witness :
  let a := newConn true None [] in
  let b := newConn false None [] in
  let b' := newConn false (Some (newCompressionManager 256)) [] in
  let key := [0x37; 0xfa; 0x21; 0x3d] in
  (exists wire buf',
    Write StringMsg storedFlush a None hello_world key
    = (None, with_writer a (writer a ++ wire) buf')
    /\ Read StringMsg (with_reader b (wire ++ [0x88; 0x00])) None
       = (Ok hello_world, with_reader b [0x88; 0x00]))
  /\ (exists wire buf',
    Write StringMsg storedFlush a None hello_world key
    = (None, with_writer a (writer a ++ wire) buf')
    /\ Read StringMsg (with_reader b' (wire ++ [0x88; 0x00])) None
       = (Err flate_CorruptInputError, with_reader b' [0x88; 0x00])).
Proof.
  cbv zeta. split.
  - destruct (Write_then_Read StringMsg storedFlush (newConn true None [])
             (newConn false None []) None None hello_world
             [0x37; 0xfa; 0x21; 0x3d] quoted_hello [0x88; 0x00])
      as [wire [buf' [W [R _]]]].
    + reflexivity.
    + reflexivity.
    + discriminate.
    + reflexivity.
    + reflexivity.
    + intros cm H. discriminate H.
    + vm_compute. discriminate.
    + vm_compute. lia.
    + reflexivity.
    + reflexivity.
    + reflexivity.
    + vm_compute. discriminate.
    + vm_compute. discriminate.
    + vm_compute. discriminate.
    + exists wire, buf'. split; [exact W |]. apply R.
      intros cm H. discriminate H.
  - destruct (Write_then_Read StringMsg storedFlush (newConn true None [])
             (newConn false (Some (newCompressionManager 256)) []) None None
             hello_world [0x37; 0xfa; 0x21; 0x3d] quoted_hello [0x88; 0x00])
      as [wire [buf' [W [_ R]]]].
    + reflexivity.
    + reflexivity.
    + discriminate.
    + reflexivity.
    + reflexivity.
    + intros cm H. discriminate H.
    + vm_compute. discriminate.
    + vm_compute. lia.
    + reflexivity.
    + reflexivity.
    + reflexivity.
    + vm_compute. discriminate.
    + vm_compute. discriminate.
    + vm_compute. discriminate.
    + exists wire, buf'. split; [exact W |].
      apply (R (newCompressionManager 256)); [reflexivity | reflexivity |].
      vm_compute. reflexivity.
Defined.

(** A message that Write compresses goes out with RSV1 set, and the Read of
    the peer refuses it with ErrInvalidFrame, whether or not the peer has
    compression on. *)
Theorem compressed_message_is_refused :
  forall (M M' : MsgType) deflate a b ctx1 ctx2 msg key payload cm rest,
    json_Marshal M msg = Some payload ->
    closed a = false -> cancelled ctx1 = false ->
    compression a = Some cm -> ShouldCompress cm (len payload) = true ->
    len (stripTail (deflate payload)) < len payload ->
    len payload <= maxMessageSize a ->
    (14 <= length (writeBuf a))%nat ->
    (isClient a = true -> length key = 4%nat) ->
    closed b = false -> cancelled ctx2 = false ->
    exists wire buf',
      Write M deflate a ctx1 msg key
      = (None, with_writer a (writer a ++ wire) buf')
      /\ bit_set (nth 0 wire 0) 0x40 = true
      /\ fst (Read M' (with_reader b (wire ++ rest)) ctx2)
         = Err ErrInvalidFrame.
Proof.
  intros M M' deflate a b ctx1 ctx2 msg key payload cm rest Hj Ha Hx1 Hcm Hs
         Hlt Hma Hb Hk Hcb Hx2.
  unfold Write. rewrite Ha, Hx1, Hj.
  replace (len payload >? maxMessageSize a) with false
    by (symmetry; rewrite Z.gtb_ltb; apply Z.ltb_ge; lia).
  fold (opcodeOf M msg).
  rewrite Hcm, Hs. unfold Compress.
  replace (len (stripTail (deflate payload)) <? len payload) with true
    by (symmetry; apply Z.ltb_lt; exact Hlt).
  set (q := stripTail (deflate payload)).
  set (f := if isClient a
            then mkFrame true true false false (opcodeOf M msg) true key
                   (maskFrom 0 q key)
            else mkFrame true true false false (opcodeOf M msg) false [] q).
  assert ((if isClient a
           then do maskedPayload <- maskBytes q key;
                Ok (set_Payload
                      (set_MaskKey
                         (mkFrame true true false false (opcodeOf M msg)
                            (isClient a) [] q) key) maskedPayload)
           else Ok (mkFrame true true false false (opcodeOf M msg)
                      (isClient a) [] q)) = Ok f) as ->.
  { subst f. destruct (isClient a) eqn:Hcl; [| reflexivity].
    unfold maskBytes. rewrite (Hk eq_refl).
    replace (4 <? Nat.min 4 (length q))%nat with false
      by (symmetry; apply Nat.ltb_ge; lia).
    reflexivity. }
  assert (Masked f = true -> length (MaskKey f) = 4%nat) as Hfk.
  { subst f. destruct (isClient a) eqn:Hcl; cbn; [intros _; apply Hk; reflexivity | discriminate]. }
  destruct (writeFrame_frameBytes f (writer a) (writeBuf a) Hb Hfk)
    as [buf' E].
  rewrite E. exists (frameBytes f), buf'.
  split; [reflexivity |].
  rewrite frameBytes_eq by exact Hfk.
  assert (Rsv1 f = true /\ Rsv2 f = false /\ Rsv3 f = false
          /\ 0 <= Opcode f <= 15) as (R1 & R2 & R3 & Ro).
  { subst f. destruct (isClient a); cbn; repeat split; try reflexivity;
      unfold opcodeOf; destruct (dynOf M msg); vm_compute; discriminate. }
  rewrite R1, R2, R3.
  destruct (headByte_bits (Fin f) true false false (Opcode f) Ro)
    as (_ & B2 & _ & _ & _ & B6 & _).
  cbv zeta in B2, B6.
  split; [exact B2 |].
  unfold Read. cbn [closed with_reader]. rewrite Hcb, Hx2.
  unfold readMessage. cbn [readLoop reader with_reader app].
  rewrite readFrame_rsv by exact B6. reflexivity.
Qed.

Lemma compressed_message_is_refused_witness :
  let cm := newCompressionManager 4 in
  let a := newConn true (Some cm) [] in
  let b := newConn false (Some cm) [] in
  let deflate := fun _ : list Z => [0x4a; 0x4c; 0x00; 0x00; 0x00; 0xff; 0xff] in
  exists wire buf',
    Write StringMsg deflate a None hello_world [1; 2; 3; 4]
    = (None, with_writer a (writer a ++ wire) buf')
    /\ bit_set (nth 0 wire 0) 0x40 = true
    /\ fst (Read StringMsg (with_reader b (wire ++ [])) None)
       = Err ErrInvalidFrame.
Proof.
  cbv zeta.
  apply (compressed_message_is_refused StringMsg StringMsg
           (fun _ : list Z => [0x4a; 0x4c; 0x00; 0x00; 0x00; 0xff; 0xff])
           (newConn true (Some (newCompressionManager 4)) [])
           (newConn false (Some (newCompressionManager 4)) [])
           None None hello_world [1; 2; 3; 4] quoted_hello
           (newCompressionManager 4) []).
  - reflexivity.
  - reflexivity.
  - reflexivity.
  - reflexivity.
  - reflexivity.
  - vm_compute. reflexivity.
  - vm_compute. discriminate.
  - vm_compute. lia.
  - reflexivity.
  - reflexivity.
  - reflexivity.
Defined.

(** *** Frames that are too large, streams that end early *)

Lemma frameHeader_eq :
  forall f,
    (Masked f = true -> length (MaskKey f) = 4%nat) ->
    frameHeader f
    = headByte (Fin f) (Rsv1 f) (Rsv2 f) (Rsv3 f) (Opcode f)
      :: fst (lengthBytes (Masked f) (len (Payload f)))
      :: snd (lengthBytes (Masked f) (len (Payload f)))
      ++ (if Masked f then MaskKey f else []).
Proof.
  intros f Hk. unfold frameHeader. rewrite frameBytes_eq by exact Hk.
  set (b0 := headByte _ _ _ _ _). set (lb := lengthBytes _ _).
  set (k := if Masked f then MaskKey f else []).
  replace (b0 :: fst lb :: snd lb ++ k ++ Payload f)
    with ((b0 :: fst lb :: snd lb ++ k) ++ Payload f)
    by (cbn; rewrite <- app_assoc; reflexivity).
  rewrite length_app, Nat.add_sub. apply firstn_length_app.
Qed.


Lemma PutUint64_high :
  forall n, 4294967296 <= n < 18446744073709551616 ->
    let b := BigEndian_PutUint64 n in
    negb (nth 0 b 0 =? 0) || negb (nth 1 b 0 =? 0)
    || negb (nth 2 b 0 =? 0) || negb (nth 3 b 0 =? 0) = true.
Proof.
  intros n Hn. cbv zeta. unfold BigEndian_PutUint64, to_byte. cbn [nth].
  rewrite !Z.shiftr_div_pow2 by lia.
  change (2 ^ 56) with 72057594037927936.
  change (2 ^ 48) with 281474976710656.
  change (2 ^ 40) with 1099511627776.
  change (2 ^ 32) with 4294967296.
  destruct (Z.eqb_spec ((n / 72057594037927936) mod 256) 0) as [E0 |];
    [| reflexivity].
  destruct (Z.eqb_spec ((n / 281474976710656) mod 256) 0) as [E1 |];
    [| reflexivity].
  destruct (Z.eqb_spec ((n / 1099511627776) mod 256) 0) as [E2 |];
    [| reflexivity].
  destruct (Z.eqb_spec ((n / 4294967296) mod 256) 0) as [E3 |];
    [| reflexivity].
  exfalso. revert E0 E1 E2 E3.
  Z.to_euclidean_division_equations. lia.
Qed.

Lemma readFrame_too_large :
  forall f maxSize tail,
    0 <= Opcode f <= 10 -> (8 <= Opcode f -> Fin f = true) ->
    Rsv1 f = false /\ Rsv2 f = false /\ Rsv3 f = false ->
    (if Masked f then length (MaskKey f) = 4%nat else MaskKey f = []) ->
    len (Payload f) < 18446744073709551616 ->
    maxSize < len (Payload f) \/ 4294967296 <= len (Payload f) ->
    readFrame (frameHeader f ++ tail) maxSize = Err ErrFrameTooLarge.
Proof.
  intros f maxSize tail Hop Hctl Hrsv Hkey H64 Hbig.
  assert (Masked f = true -> length (MaskKey f) = 4%nat) as Hk
    by (intros Hm; rewrite Hm in Hkey; exact Hkey).
  rewrite frameHeader_eq by exact Hk.
  destruct f as [fin r1 r2 r3 op m key payload].
  cbn [Opcode Fin Payload Masked MaskKey Rsv1 Rsv2 Rsv3] in *.
  destruct Hrsv as [-> [-> ->]].
  assert (0 <= len payload) as Hpos by (unfold len; lia).
  destruct (headByte_bits fin false false false op)
    as (B1 & B2 & B3 & B4 & B5 & B6 & _); [lia |].
  cbv zeta in B1, B2, B3, B4, B5, B6.
  set (b0 := headByte fin false false false op) in *.
  assert (((op >? 7) && (op <? 8) = false) /\ (op >? 10) = false
          /\ ((op >=? 8) && negb fin = false)) as [C1 [C2 C3]].
  { split; [| split].
    - destruct (Z.gtb_spec op 7), (Z.ltb_spec op 8); try reflexivity; lia.
    - destruct (Z.gtb_spec op 10); [lia | reflexivity].
    - destruct (Z.geb_spec op 8); [| reflexivity].
      rewrite Hctl by lia. reflexivity. }
  assert ((if m then key else []) = key) as ->.
  { destruct m; [reflexivity | symmetry; exact Hkey]. }
  destruct (Z.ltb_spec (len payload) 4294967296) as [L32 | G32].
  - (* the length fits 32 bits and is above the limit *)
    assert (maxSize < len payload) as Hmax by lia.
    destruct (lengthBytes_read m (len payload)) as [Hm [Hrd _]]; [lia |].
    unfold readFrame, readFrameHeader. cbn [app].
    rewrite <- app_assoc.
    match goal with
    | |- context [io_ReadFull (b0 :: ?b1 :: ?r) 2] =>
        rewrite (io_ReadFull_app [b0; b1] r
                 : io_ReadFull (b0 :: b1 :: r) 2 = _)
    end.
    cbn [nth]. rewrite B6, B1, B2, B3, B4, B5, Hm. cbn [Opcode Fin Masked].
    rewrite C1, C2, C3, Hrd.
    assert (forall fr r,
      (if len (Payload (set_Payload fr (repeat 0 (Z.to_nat (len payload))))) >? maxSize
       then @Err (Frame * Reader) ErrFrameTooLarge
       else r) = Err ErrFrameTooLarge) as R.
    { intros fr r. cbn [set_Payload Payload]. rewrite len_repeat by lia.
      replace (len payload >? maxSize) with true
        by (symmetry; apply Z.gtb_lt; lia).
      reflexivity. }
    destruct m.
    + replace 4%nat with (length key) by assumption.
      rewrite io_ReadFull_app. apply R.
    + subst key. cbn [app]. apply R.
  - (* the length does not fit 32 bits *)
    unfold lengthBytes.
    replace (len payload <? 126) with false by (symmetry; apply Z.ltb_ge; lia).
    replace (len payload <? 65536) with false
      by (symmetry; apply Z.ltb_ge; lia).
    cbn [fst snd].
    destruct (header_byte1 m 127) as [A B]; [lia |].
    unfold readFrame, readFrameHeader. cbn [app].
    rewrite <- app_assoc.
    match goal with
    | |- context [io_ReadFull (b0 :: ?b1 :: ?r) 2] =>
        rewrite (io_ReadFull_app [b0; b1] r
                 : io_ReadFull (b0 :: b1 :: r) 2 = _)
    end.
    cbn [nth]. rewrite B6, B1, B2, B3, B4, B5, B. cbn [Opcode Fin Masked].
    rewrite C1, C2, C3, A.
    unfold readPayloadLen.
    replace (127 =? 126) with false by reflexivity.
    replace (127 =? 127) with true by reflexivity.
    unfold to_uint64. rewrite Z.mod_small by lia.
    match goal with
    | |- context [io_ReadFull (BigEndian_PutUint64 ?n ++ ?r) 8] =>
        rewrite (io_ReadFull_app (BigEndian_PutUint64 n) r
                 : io_ReadFull (BigEndian_PutUint64 n ++ r) 8 = _)
    end.
    rewrite PutUint64_high by lia. reflexivity.
Qed.

(** A frame that is too large is refused on its header, whatever follows:
    with ErrFrameTooLarge when the payload length is above the limit given
    to readFrame, and, under any limit, when it does not fit 32 bits. *)
Theorem oversized_frames_are_refused :
  forall f maxSize tail,
    0 <= Opcode f <= 10 -> (8 <= Opcode f -> Fin f = true) ->
    Rsv1 f = false /\ Rsv2 f = false /\ Rsv3 f = false ->
    (if Masked f then length (MaskKey f) = 4%nat else MaskKey f = []) ->
    len (Payload f) < 18446744073709551616 ->
    maxSize < len (Payload f) \/ 4294967296 <= len (Payload f) ->
    readFrame (frameHeader f ++ tail) maxSize = Err ErrFrameTooLarge.
Proof.
  intros f maxSize tail Hop Hctl Hrsv Hkey H64 Hbig.
  apply readFrame_too_large; assumption.
Qed.

Lemma oversized_frames_are_refused_witness :
  let f := mkFrame true false false false opBinary true [1; 2; 3; 4]
             (repeat 0x61 200) in
  frameHeader f = [0x82; 0xFE; 0x00; 0xC8; 1; 2; 3; 4]
  /\ readFrame (frameHeader f ++ []) 199 = Err ErrFrameTooLarge.
Proof.
  cbv zeta. split; [reflexivity |].
  apply (oversized_frames_are_refused
           (mkFrame true false false false opBinary true [1; 2; 3; 4]
              (repeat 0x61 200)) 199 []).
  - vm_compute. split; discriminate.
  - intros H. reflexivity.
  - repeat split.
  - reflexivity.
  - vm_compute. reflexivity.
  - left. vm_compute. reflexivity.
Defined.

Lemma io_ReadFull_short :
  forall r n, (length r < n)%nat ->
    io_ReadFull r n
    = Err (match r with [] => io_EOF | _ => io_ErrUnexpectedEOF end).
Proof.
  intros r n H. unfold io_ReadFull.
  destruct n as [| n]; [lia |]. cbn [Nat.eqb].
  destruct r as [| x r]; [reflexivity |].
  replace (length (x :: r) <? S n)%nat with true
    by (symmetry; apply Nat.ltb_lt; exact H).
  reflexivity.
Qed.

Lemma io_ReadFull_firstn :
  forall a r k, (length a <= k)%nat ->
    io_ReadFull (firstn k (a ++ r)) (length a) = Ok (a, firstn (k - length a) r).
Proof.
  intros a r k H. rewrite firstn_app.
  rewrite firstn_all2 by exact H. apply io_ReadFull_app.
Qed.

Lemma firstn_short_length :
  forall (l : list Z) k, (k < length l)%nat -> length (firstn k l) = k.
Proof. intros l k H. rewrite length_firstn. lia. Qed.

Lemma firstn_nil_iff :
  forall (l : list Z) k, (k < length l)%nat ->
    match firstn k l with [] => k = 0%nat | _ => k <> 0%nat end.
Proof.
  intros l k H. destruct k; [reflexivity |].
  destruct l; [simpl in H; lia |]. cbn. discriminate.
Qed.

Lemma io_ReadFull_cut :
  forall (l : list Z) k n, (k < n)%nat -> (n <= length l)%nat ->
    io_ReadFull (firstn k l) n = Err (shortRead k).
Proof.
  intros l k n Hk Hn.
  rewrite io_ReadFull_short by (rewrite length_firstn; lia).
  pose proof (firstn_nil_iff l k ltac:(lia)) as H.
  destruct (firstn k l); destruct k; try reflexivity; congruence.
Qed.

Lemma lengthBytes_cut :
  forall (m : bool) n, 0 <= n <= 4294967295 ->
    forall (l : list Z) k,
      (k < length (snd (lengthBytes m n)))%nat ->
      (length (snd (lengthBytes m n)) <= length l)%nat ->
      readPayloadLen (Z.land (fst (lengthBytes m n)) 0x7F) (firstn k l)
      = Err (shortRead k).
Proof.
  intros m n Hn l k Hk Hl. unfold lengthBytes in *.
  destruct (Z.ltb_spec n 126) as [L1 | G1]; [cbn in Hk; lia |].
  destruct (Z.ltb_spec n 65536) as [L2 | G2]; cbn [fst snd] in *.
  - destruct (header_byte1 m 126) as [A _]; [lia |]. rewrite A.
    unfold readPayloadLen.
    replace (126 =? 126) with true by reflexivity.
    rewrite (io_ReadFull_cut l k 2) by (cbn in Hk, Hl; lia). reflexivity.
  - destruct (header_byte1 m 127) as [A _]; [lia |]. rewrite A.
    unfold readPayloadLen.
    replace (127 =? 126) with false by reflexivity.
    replace (127 =? 127) with true by reflexivity.
    rewrite (io_ReadFull_cut l k 8) by (cbn in Hk, Hl; lia). reflexivity.
Qed.

Lemma firstn_app_through :
  forall (a r : list Z) k, (length a <= k)%nat ->
    firstn k (a ++ r) = a ++ firstn (k - length a) r.
Proof.
  intros a r k H. rewrite firstn_app, firstn_all2 by exact H. reflexivity.
Qed.

Ltac settle_cut :=
  repeat match goal with
         | |- context [Nat.eqb ?a ?b] => destruct (Nat.eqb_spec a b)
         end;
  cbn [orb]; unfold shortRead;
  match goal with
  | |- context [match ?k with O => _ | S _ => _ end] =>
      destruct k eqn:?; try reflexivity; lia
  end.

(** A stream that ends inside a frame: readFrame reports io.EOF when the
    stream ends just where one of its reads starts, and io.ErrUnexpectedEOF
    when it ends in the middle of a read. *)
Theorem truncated_frame_errors :
  forall f maxSize n,
    readable_frame f -> len (Payload f) <= maxSize ->
    (n < length (frameBytes f))%nat ->
    readFrame (firstn n (frameBytes f)) maxSize
    = Err (if existsb (Nat.eqb n) (readStarts f) then io_EOF
           else io_ErrUnexpectedEOF).
Proof.
  intros f maxSize n [Hop Hctl Hrsv Hkey Hlen] Hmax Hn.
  assert (Masked f = true -> length (MaskKey f) = 4%nat) as Hk
    by (intros Hm; rewrite Hm in Hkey; exact Hkey).
  rewrite frameBytes_eq in * by exact Hk. unfold readStarts.
  destruct f as [fin r1 r2 r3 op m key payload].
  cbn [Opcode Fin Payload Masked MaskKey Rsv1 Rsv2 Rsv3] in *.
  destruct Hrsv as [-> [-> ->]].
  assert (0 <= len payload) as Hpos by (unfold len; lia).
  destruct (headByte_bits fin false false false op)
    as (B1 & B2 & B3 & B4 & B5 & B6 & _); [lia |].
  cbv zeta in B1, B2, B3, B4, B5, B6.
  set (b0 := headByte fin false false false op) in *.
  assert (((op >? 7) && (op <? 8) = false) /\ (op >? 10) = false
          /\ ((op >=? 8) && negb fin = false)) as [C1 [C2 C3]].
  { split; [| split].
    - destruct (Z.gtb_spec op 7), (Z.ltb_spec op 8); try reflexivity; lia.
    - destruct (Z.gtb_spec op 10); [lia | reflexivity].
    - destruct (Z.geb_spec op 8); [| reflexivity].
      rewrite Hctl by lia. reflexivity. }
  assert ((if m then key else []) = key) as Ek.
  { destruct m; [reflexivity | symmetry; exact Hkey]. }
  rewrite Ek in *.
  assert (length key = if m then 4%nat else 0%nat) as Lk.
  { destruct m; [exact Hkey | subst key; reflexivity]. }
  destruct (lengthBytes_read m (len payload) (conj Hpos Hlen))
    as [Hm [Hrd Hext]].
  pose proof (lengthBytes_cut m (len payload) (conj Hpos Hlen)) as Hcut.
  destruct (lengthBytes m (len payload)) as [b1 ext].
  cbn [fst snd] in *. cbv zeta.
  cbn [length] in Hn. rewrite !length_app in Hn.
  set (e := length ext) in *.
  rewrite <- Lk.
  destruct n as [| [| n]].
  - reflexivity.
  - cbn [firstn]. unfold readFrame, readFrameHeader.
    rewrite io_ReadFull_short by (cbn; lia).
    replace (existsb (Nat.eqb 1) [0%nat; 2%nat; (2 + e)%nat;
                                  (2 + e + length key)%nat]) with false
      by reflexivity.
    reflexivity.
  - cbn [firstn]. unfold readFrame, readFrameHeader.
    match goal with
    | |- context [io_ReadFull (b0 :: b1 :: ?r) 2] =>
        rewrite (io_ReadFull_app [b0; b1] r
                 : io_ReadFull (b0 :: b1 :: r) 2 = _)
    end.
    cbn [nth]. rewrite B6, B1, B2, B3, B4, B5, Hm. cbn [Opcode Fin Masked].
    rewrite C1, C2, C3.
    assert (forall a b : nat, (S (S a) =? 2 + b)%nat = (a =? b)%nat) as S2
      by (intros; reflexivity).
    assert (forall a b c : nat,
              (S (S a) =? 2 + b + c)%nat = (a =? b + c)%nat) as S3
      by (intros; reflexivity).
    cbn [existsb]. rewrite S3, !S2.
    replace (S (S n) =? 0)%nat with false by reflexivity.
    replace (S (S n) =? 2)%nat with (n =? 0)%nat by reflexivity.
    cbn [orb]. rewrite orb_false_r.
    destruct (Nat.ltb_spec n e) as [Le | Ge].
    + (* the stream ends in the extended length *)
      rewrite Hcut by (try rewrite !length_app; lia).
      settle_cut.
    + rewrite firstn_app_through by exact Ge. fold e. rewrite Hrd.
      destruct m.
      * (* masked: the key is read next *)
        rewrite Lk in *.
        destruct (Nat.ltb_spec (n - e) 4) as [L4 | G4].
        -- rewrite (io_ReadFull_cut (key ++ payload) (n - e) 4)
             by (try rewrite length_app; lia).
           settle_cut.
        -- rewrite firstn_app_through by lia.
           replace 4%nat with (length key) at 1 by assumption.
           rewrite io_ReadFull_app.
           cbn [set_MaskKey set_Payload Payload Fin Rsv1 Rsv2 Rsv3 Opcode
                Masked MaskKey].
           rewrite len_repeat by assumption.
           replace (len payload >? maxSize) with false
             by (symmetry; rewrite Z.gtb_ltb; apply Z.ltb_ge; lia).
           assert (n - e - length key < length payload)%nat as Lp by lia.
           replace (len payload >? 0) with true
             by (symmetry; apply Z.gtb_lt; unfold len; lia).
           rewrite repeat_length. unfold len. rewrite Nat2Z.id.
           rewrite (io_ReadFull_cut payload (n - e - length key)
                      (length payload)) by lia.
           rewrite Lk. settle_cut.
      * (* not masked: the payload is read next *)
        subst key. cbn [app length] in *.
        cbn [set_MaskKey set_Payload Payload Fin Rsv1 Rsv2 Rsv3 Opcode
             Masked MaskKey].
        rewrite len_repeat by assumption.
        replace (len payload >? maxSize) with false
          by (symmetry; rewrite Z.gtb_ltb; apply Z.ltb_ge; lia).
        assert (n - e < length payload)%nat as Lp by lia.
        replace (len payload >? 0) with true
          by (symmetry; apply Z.gtb_lt; unfold len; lia).
        rewrite repeat_length. unfold len. rewrite Nat2Z.id.
        rewrite (io_ReadFull_cut payload (n - e) (length payload)) by lia.
        settle_cut.
Qed.

Lemma truncated_frame_errors_witness :
  let f := mkFrame true false false false opText true [1; 2; 3; 4]
             (repeat 0x61 126) in
  readStarts f = [0; 2; 4; 8]%nat
  /\ readFrame (firstn 4 (frameBytes f)) 4096 = Err io_EOF
  /\ readFrame (firstn 5 (frameBytes f)) 4096 = Err io_ErrUnexpectedEOF.
Proof.
  cbv zeta. split; [reflexivity |].
  assert (readable_frame
            (mkFrame true false false false opText true [1; 2; 3; 4]
               (repeat 0x61 126))) as R.
  { split.
    - vm_compute. split; discriminate.
    - intros _. reflexivity.
    - repeat split.
    - reflexivity.
    - vm_compute. discriminate. }
  split.
  - apply (truncated_frame_errors
             (mkFrame true false false false opText true [1; 2; 3; 4]
                (repeat 0x61 126)) 4096 4 R).
    + vm_compute. discriminate.
    + vm_compute. lia.
  - apply (truncated_frame_errors
             (mkFrame true false false false opText true [1; 2; 3; 4]
                (repeat 0x61 126)) 4096 5 R).
    + vm_compute. discriminate.
    + vm_compute. lia.
Defined.

(** *** The message queue: capacity, results, Close *)

Section QueueMore.

Variables T Ctx World : Type.



Lemma flushLoop_keeps :
  forall sendFn ctxErr now (q : list (Queue.queuedMessage T Ctx)) (mq : Queue.MessageQueue T Ctx)
         (w : World),
    let mq' := fst (Queue.flushLoop sendFn ctxErr now q mq w) in
    Queue.queue mq' = Queue.queue mq
    /\ Queue.maxSize mq' = Queue.maxSize mq
    /\ Queue.closed mq' = Queue.closed mq
    /\ Queue.nextCh mq' = Queue.nextCh mq
    /\ Queue.enqueued mq' = Queue.enqueued mq
    /\ map fst (Queue.signals mq')
       = map fst (Queue.signals mq) ++ map Queue.errCh q.
Proof.
  intros sendFn ctxErr now.
  induction q as [| qm q IH]; intros mq w.
  - cbn. rewrite app_nil_r. repeat split.
  - cbn [Queue.flushLoop map].
    assert (forall (m1 : Queue.MessageQueue T Ctx) w1,
      Queue.queue m1 = Queue.queue mq ->
      Queue.maxSize m1 = Queue.maxSize mq ->
      Queue.closed m1 = Queue.closed mq ->
      Queue.nextCh m1 = Queue.nextCh mq ->
      Queue.enqueued m1 = Queue.enqueued mq ->
      map fst (Queue.signals m1)
      = map fst (Queue.signals mq) ++ [Queue.errCh qm] ->
      let mq' := fst (Queue.flushLoop sendFn ctxErr now q m1 w1) in
      Queue.queue mq' = Queue.queue mq
      /\ Queue.maxSize mq' = Queue.maxSize mq
      /\ Queue.closed mq' = Queue.closed mq
      /\ Queue.nextCh mq' = Queue.nextCh mq
      /\ Queue.enqueued mq' = Queue.enqueued mq
      /\ map fst (Queue.signals mq')
         = map fst (Queue.signals mq) ++ Queue.errCh qm :: map Queue.errCh q)
      as Hstep.
    { intros m1 w1 E1 E2 E3 E4 E5 E6.
      destruct (IH m1 w1) as (I1 & I2 & I3 & I4 & I5 & I6).
      cbv zeta. rewrite I1, I2, I3, I4, I5, I6, E6, <- app_assoc.
      repeat split; assumption. }
    destruct (now >? Queue.timeout qm).
    + apply Hstep; cbn; try reflexivity. rewrite map_app. reflexivity.
    + destruct (match Queue.ctx qm with
                | Some c => ctxErr w c
                | None => None
                end) as [e |].
      * apply Hstep; cbn; try reflexivity. rewrite map_app. reflexivity.
      * destruct (sendFn w (Queue.ctx qm) (Queue.msg qm)) as [err w'].
        destruct err as [e |];
          apply Hstep; cbn; try reflexivity; rewrite map_app; reflexivity.
Qed.

Lemma clearSignals_keeps :
  forall (q : list (Queue.queuedMessage T Ctx)) (mq : Queue.MessageQueue T Ctx),
    let mq' := fold_left
                 (fun m qm => Queue.signal m (Queue.errCh qm)
                                (Some ErrQueueCleared)) q mq in
    Queue.maxSize mq' = Queue.maxSize mq
    /\ Queue.closed mq' = Queue.closed mq
    /\ Queue.nextCh mq' = Queue.nextCh mq
    /\ Queue.enqueued mq' = Queue.enqueued mq
    /\ Queue.sent mq' = Queue.sent mq
    /\ Queue.signals mq'
       = Queue.signals mq
         ++ map (fun qm => (Queue.errCh qm, Some ErrQueueCleared)) q.
Proof.
  induction q as [| qm q IH]; intros mq.
  - cbn. rewrite app_nil_r. repeat split.
  - cbn [fold_left map].
    destruct (IH (Queue.signal mq (Queue.errCh qm) (Some ErrQueueCleared)))
      as (I1 & I2 & I3 & I4 & I5 & I6).
    cbv zeta. rewrite I1, I2, I3, I4, I5, I6. cbn.
    rewrite <- app_assoc. repeat split.
Qed.

Lemma step_inv :
  forall (s : Queue.run_state T Ctx World) (c : Queue.call T Ctx World),
    0 <= Queue.maxSize (Queue.mq_of s) ->
    queue_inv (Queue.mq_of s) ->
    queue_inv (Queue.mq_of (Queue.step s c))
    /\ Queue.maxSize (Queue.mq_of (Queue.step s c))
       = Queue.maxSize (Queue.mq_of s).
Proof.
  intros s c Hm [Hsz Hp].
  destruct c as [now cx m | sendFn ctxErr now | |]; cbn [Queue.step].
  - unfold Queue.Enqueue.
    destruct (Queue.closed (Queue.mq_of s)); [split; [split |]; auto |].
    destruct (Z.geb_spec (Queue.Size (Queue.mq_of s))
                (Queue.maxSize (Queue.mq_of s))) as [G | L].
    + cbn. split; [split |]; auto.
    + unfold queue_inv. cbn -[seq]. split; [split |]; auto.
      * unfold Queue.Size in *. cbn. rewrite length_app. cbn. lia.
      * rewrite map_app. cbn [map]. rewrite app_assoc.
        rewrite seq_S. cbn [Nat.add].
        apply Permutation_app_tail. exact Hp.
  - unfold Queue.Flush.
    pose proof (flushLoop_keeps sendFn ctxErr now (Queue.queue (Queue.mq_of s))
                  (Queue.with_queue (Queue.mq_of s) []) (Queue.world_of s))
      as K.
    cbv zeta in K.
    destruct (Queue.flushLoop sendFn ctxErr now (Queue.queue (Queue.mq_of s))
                (Queue.with_queue (Queue.mq_of s) []) (Queue.world_of s))
      as [mq' w'].
    cbn [fst] in K. destruct K as (K1 & K2 & K3 & K4 & K5 & K6).
    cbn in K1, K2, K3, K4, K5, K6. cbn [Queue.mq_of].
    split; [split |]; auto.
    + unfold Queue.Size. rewrite K1, K2. cbn. exact Hm.
    + rewrite K1, K4, K6. cbn [map]. rewrite app_nil_r. exact Hp.
  - cbn [Queue.mq_of]. unfold Queue.Clear.
    pose proof (clearSignals_keeps (Queue.queue (Queue.mq_of s)) (Queue.mq_of s))
      as K.
    cbv zeta in K. destruct K as (K1 & K2 & K3 & K4 & K5 & K6).
    split; [split |]; cbn; auto.
    + rewrite K1. exact Hm.
    + rewrite K6, K3, map_app, map_map. cbn [fst].
      rewrite app_nil_r. exact Hp.
  - cbn [Queue.mq_of]. unfold Queue.Close.
    destruct (Queue.closed (Queue.mq_of s)); [split; [split |]; auto |].
    unfold Queue.Clear. cbn [Queue.queue].
    pose proof (clearSignals_keeps (Queue.queue (Queue.mq_of s))
                  (Queue.mkMessageQueue T Ctx (Queue.queue (Queue.mq_of s))
                     (Queue.maxSize (Queue.mq_of s))
                     (Queue.mqTimeout (Queue.mq_of s))
                     (Queue.dropped (Queue.mq_of s))
                     (Queue.enqueued (Queue.mq_of s))
                     (Queue.sent (Queue.mq_of s)) true
                     (Queue.signals (Queue.mq_of s))
                     (Queue.nextCh (Queue.mq_of s)))) as K.
    cbv zeta in K. destruct K as (K1 & K2 & K3 & K4 & K5 & K6).
    cbn in K1, K2, K3, K4, K5, K6.
    split; [split |]; cbn; auto.
    + rewrite K1. exact Hm.
    + rewrite K6, K3, map_app, map_map. cbn [fst].
      rewrite app_nil_r. exact Hp.
Qed.

Lemma run_inv :
  forall (cs : list (Queue.call T Ctx World)) (s : Queue.run_state T Ctx World),
    0 <= Queue.maxSize (Queue.mq_of s) ->
    queue_inv (Queue.mq_of s) ->
    let s' := fold_left (@Queue.step T Ctx World) cs s in
    queue_inv (Queue.mq_of s')
    /\ Queue.maxSize (Queue.mq_of s') = Queue.maxSize (Queue.mq_of s).
Proof.
  induction cs as [| c cs IH]; intros s Hm Hi; cbn [fold_left].
  - split; [exact Hi | reflexivity].
  - destruct (step_inv s c Hm Hi) as [Hi' Hm'].
    destruct (IH (Queue.step s c)) as [A B]; [lia | exact Hi' |].
    split; [exact A | congruence].
Qed.

End QueueMore.

(** The queue never holds more messages than its capacity, which is the
    [maxSize] given to [newMessageQueue], or 100 when that is not positive. *)
Theorem queue_never_exceeds_capacity :
  forall (T Ctx World : Type) (maxSize timeout : Z) (w : World)
         (cs : list (Queue.call T Ctx World)),
    let s := Queue.run (Queue.newMessageQueue T Ctx maxSize timeout) w cs in
    Queue.Size (Queue.mq_of s) <= Queue.maxSize (Queue.mq_of s)
    /\ Queue.maxSize (Queue.mq_of s) = (if maxSize <=? 0 then 100 else maxSize).
Proof.
  intros T Ctx World maxSize timeout w cs. unfold Queue.run.
  destruct (run_inv T Ctx World cs
              (Queue.mkRun (Queue.newMessageQueue T Ctx maxSize timeout) w 0))
    as [[A _] B].
  - cbn. destruct (Z.leb_spec maxSize 0); lia.
  - split; cbn; [destruct (Z.leb_spec maxSize 0); lia | constructor].
  - split; [exact A | exact B].
Qed.

(** Every message the queue accepted gets its result exactly once: at any
    time the result channels handed out by Enqueue are those that have
    received a value, each a single one, together with those of the messages
    still queued. *)
Theorem queue_results_exactly_once :
  forall (T Ctx World : Type) (maxSize timeout : Z) (w : World)
         (cs : list (Queue.call T Ctx World)),
    let mq :=
      Queue.mq_of (Queue.run (Queue.newMessageQueue T Ctx maxSize timeout) w cs) in
    Permutation
      (map fst (Queue.signals mq) ++ map Queue.errCh (Queue.queue mq))
      (seq 0 (Queue.nextCh mq)).
Proof.
  intros T Ctx World maxSize timeout w cs. unfold Queue.run.
  destruct (run_inv T Ctx World cs
              (Queue.mkRun (Queue.newMessageQueue T Ctx maxSize timeout) w 0))
    as [[_ A] _].
  - cbn. destruct (Z.leb_spec maxSize 0); lia.
  - split; cbn; [destruct (Z.leb_spec maxSize 0); lia | constructor].
  - exact A.
Qed.

Lemma Close_shut :
  forall (T Ctx : Type) (mq : Queue.MessageQueue T Ctx),
    (Queue.closed mq = true -> Queue.queue mq = []) ->
    shut (Queue.Close mq).
Proof.
  intros T Ctx mq H. unfold shut, Queue.Close.
  destruct (Queue.closed mq) eqn:E; [split; [exact E | apply H; reflexivity] |].
  unfold Queue.Clear. cbn [Queue.queue Queue.closed Queue.with_queue
                            Queue.add_dropped].
  destruct (clearSignals_keeps T Ctx (Queue.queue mq)
              (Queue.mkMessageQueue T Ctx (Queue.queue mq) (Queue.maxSize mq)
                 (Queue.mqTimeout mq) (Queue.dropped mq) (Queue.enqueued mq)
                 (Queue.sent mq) true (Queue.signals mq) (Queue.nextCh mq)))
    as (_ & K & _).
  cbv zeta in K. split; [exact K | reflexivity].
Qed.

Lemma step_shut :
  forall (T Ctx World : Type) (s : Queue.run_state T Ctx World)
         (c : Queue.call T Ctx World),
    shut (Queue.mq_of s) ->
    shut (Queue.mq_of (Queue.step s c))
    /\ Queue.signals (Queue.mq_of (Queue.step s c)) = Queue.signals (Queue.mq_of s)
    /\ Queue.enqueued (Queue.mq_of (Queue.step s c))
       = Queue.enqueued (Queue.mq_of s)
    /\ Queue.sent (Queue.mq_of (Queue.step s c)) = Queue.sent (Queue.mq_of s)
    /\ Queue.nextCh (Queue.mq_of (Queue.step s c)) = Queue.nextCh (Queue.mq_of s)
    /\ Queue.world_of (Queue.step s c) = Queue.world_of s
    /\ Queue.rejected (Queue.step s c) = Queue.rejected s.
Proof.
  intros T Ctx World s c [Hc Hq]. unfold shut.
  destruct c as [now cx m | sendFn ctxErr now | |]; cbn [Queue.step].
  - unfold Queue.Enqueue. rewrite Hc. cbn. auto 10.
  - unfold Queue.Flush. rewrite Hq. cbn. auto 10.
  - unfold Queue.Clear. rewrite Hq. cbn. auto 10.
  - unfold Queue.Close. rewrite Hc. cbn. auto 10.
Qed.

(** Close is final: once the queue is closed it stays closed and empty
    whatever is called on it; Enqueue fails with ErrQueueClosed, no result
    channel is made or signalled, the send function is not called, and the
    counters of enqueued and sent messages stay as they are. *)
Theorem closed_queue_is_inert :
  forall (T Ctx World : Type) (mq : Queue.MessageQueue T Ctx) (w : World)
         (cs : list (Queue.call T Ctx World)) now cx m,
    (Queue.closed mq = true -> Queue.queue mq = []) ->
    let mq0 := Queue.Close mq in
    let s := Queue.run mq0 w cs in
    Queue.closed (Queue.mq_of s) = true
    /\ Queue.queue (Queue.mq_of s) = []
    /\ Queue.signals (Queue.mq_of s) = Queue.signals mq0
    /\ Queue.enqueued (Queue.mq_of s) = Queue.enqueued mq0
    /\ Queue.sent (Queue.mq_of s) = Queue.sent mq0
    /\ Queue.world_of s = w
    /\ Queue.Enqueue (Queue.mq_of s) now cx m
       = (Err ErrQueueClosed, Queue.mq_of s).
Proof.
  intros T Ctx World mq w cs now cx m H mq0 s.
  assert (forall (cs : list (Queue.call T Ctx World)) s0,
            shut (Queue.mq_of s0) ->
            let s' := fold_left (@Queue.step T Ctx World) cs s0 in
            shut (Queue.mq_of s')
            /\ Queue.signals (Queue.mq_of s') = Queue.signals (Queue.mq_of s0)
            /\ Queue.enqueued (Queue.mq_of s') = Queue.enqueued (Queue.mq_of s0)
            /\ Queue.sent (Queue.mq_of s') = Queue.sent (Queue.mq_of s0)
            /\ Queue.world_of s' = Queue.world_of s0) as R.
  { clear. induction cs as [| c cs IH]; intros s0 Hs; cbn [fold_left].
    - auto.
    - destruct (step_shut T Ctx World s0 c Hs) as (A & B & C & D & _ & E & _).
      destruct (IH (Queue.step s0 c) A) as (A' & B' & C' & D' & E').
      cbv zeta. rewrite B', C', D', E'. auto. }
  destruct (R cs (Queue.mkRun mq0 w 0)) as ([A1 A2] & B & C & D & E).
  { apply Close_shut, H. }
  subst s. unfold Queue.run. cbn [Queue.mq_of Queue.world_of] in *.
  repeat split; auto.
  unfold Queue.Enqueue. rewrite A1. reflexivity.
Qed.

Lemma closed_queue_is_inert_witness :
  let mq := Queue.mq_of
              (Queue.run (Queue.newMessageQueue nat unit 2 0) tt
                 [Queue.CallEnqueue 0 None 7%nat]) in
  let mq0 := Queue.Close mq in
  let s := Queue.run mq0 tt
             [Queue.CallEnqueue 1 None 8%nat;
              Queue.CallFlush Queue.sendOk Queue.ctxLive 2;
              Queue.CallClear; Queue.CallClose] in
  Queue.signals mq0 = [(0%nat, Some ErrQueueCleared)]
  /\ Queue.closed (Queue.mq_of s) = true
  /\ Queue.queue (Queue.mq_of s) = []
  /\ Queue.signals (Queue.mq_of s) = Queue.signals mq0
  /\ Queue.enqueued (Queue.mq_of s) = Queue.enqueued mq0
  /\ Queue.sent (Queue.mq_of s) = Queue.sent mq0
  /\ Queue.world_of s = tt
  /\ Queue.Enqueue (Queue.mq_of s) 5 None 9%nat
     = (Err ErrQueueClosed, Queue.mq_of s).
Proof.
  cbv zeta. split; [reflexivity |].
  apply (closed_queue_is_inert nat unit unit
           (Queue.mq_of
              (Queue.run (Queue.newMessageQueue nat unit 2 0) tt
                 [Queue.CallEnqueue 0 None 7%nat])) tt
           [Queue.CallEnqueue 1 None 8%nat;
            Queue.CallFlush Queue.sendOk Queue.ctxLive 2;
            Queue.CallClear; Queue.CallClose] 5 None 9%nat).
  vm_compute. discriminate.
Defined.

(** *** Decompress on stored blocks *)

Lemma bits_of_bytes_app :
  forall a b, flate.bits_of_bytes (a ++ b)
              = flate.bits_of_bytes a ++ flate.bits_of_bytes b.
Proof. intros. unfold flate.bits_of_bytes. apply flat_map_app. Qed.

Lemma bits_of_bytes_length :
  forall a, length (flate.bits_of_bytes a) = (8 * length a)%nat.
Proof.
  induction a as [| x a IH]; [reflexivity |].
  unfold flate.bits_of_bytes in *. cbn [flat_map].
  rewrite length_app, IH. cbn. lia.
Qed.

Lemma take_bits_app :
  forall n a v r,
    flate.take_bits n a = Some (v, []) ->
    flate.take_bits n (a ++ r) = Some (v, r).
Proof.
  induction n as [| n IH]; intros a v r H; cbn [flate.take_bits] in *.
  - inversion H; subst. reflexivity.
  - destruct a as [| x a]; [discriminate |]. cbn [app].
    destruct (flate.take_bits n a) as [[v' r'] |] eqn:E; [| discriminate].
    inversion H; subst. rewrite (IH a v' r E). reflexivity.
Qed.

Lemma take_bits_byte :
  forall b r, 0 <= b < 256 ->
    flate.take_bits 8 (flate.bits_of_byte b ++ r) = Some (b, r).
Proof.
  intros b r Hb. apply take_bits_app.
  assert (forallb (fun b => match flate.take_bits 8 (flate.bits_of_byte b) with
                            | Some (v, []) => v =? b
                            | _ => false
                            end) (map Z.of_nat (seq 0 256)) = true) as H
    by (vm_compute; reflexivity).
  pose proof (forall_below _ 256 H b Hb) as Hx. cbv beta in Hx.
  destruct (flate.take_bits 8 (flate.bits_of_byte b)) as [[v [| ? ?]] |];
    try discriminate.
  apply Z.eqb_eq in Hx. subst v. reflexivity.
Qed.

Lemma take_bytes_bytes :
  forall data r, bytes data ->
    flate.take_bytes (length data) (flate.bits_of_bytes data ++ r)
    = Some (data, r).
Proof.
  induction data as [| b data IH]; intros r Hb; [reflexivity |].
  inversion Hb as [| ? ? Hb1 Hb2]; subst.
  cbn [length flate.take_bytes]. unfold flate.bits_of_bytes in *.
  cbn [flat_map]. rewrite <- app_assoc.
  rewrite take_bits_byte by exact Hb1.
  rewrite IH by exact Hb2. reflexivity.
Qed.

Lemma lxor_complement :
  forall n, 0 <= n <= 65535 -> Z.lxor n 0xFFFF = 65535 - n.
Proof.
  intros n Hn.
  assert (Z.land n (Z.lxor n 0xFFFF) = 0) as Hl.
  { apply Z.bits_inj'. intros i Hi.
    rewrite Z.land_spec, Z.lxor_spec, Z.bits_0.
    change 0xFFFF with (Z.ones 16).
    destruct (Z.ltb_spec i 16) as [L | G].
    - rewrite Z.ones_spec_low by lia. destruct (Z.testbit n i); reflexivity.
    - replace (Z.testbit n i) with false; [reflexivity |].
      symmetry. destruct (Z.eq_dec n 0) as [-> | Nz]; [apply Z.bits_0 |].
      apply Z.bits_above_log2; [lia |].
      apply Z.lt_le_trans with 16; [| exact G].
      apply Z.log2_lt_pow2; [lia |]. change (2 ^ 16) with 65536. lia. }
  pose proof (Z.add_nocarry_lxor n (Z.lxor n 0xFFFF) Hl) as Ha.
  rewrite <- Z.lxor_assoc, Z.lxor_nilpotent, Z.lxor_0_l in Ha.
  lia.
Qed.

Lemma take_bits_32 :
  forall b0 b1 b2 b3 r,
    0 <= b0 < 256 -> 0 <= b1 < 256 -> 0 <= b2 < 256 -> 0 <= b3 < 256 ->
    flate.take_bits 32 (flate.bits_of_bytes [b0; b1; b2; b3] ++ r)
    = Some (b0 + 256 * b1 + 65536 * b2 + 16777216 * b3, r).
Proof.
  intros b0 b1 b2 b3 r H0 H1 H2 H3.
  assert (forall n m a v v' r r',
            flate.take_bits n a = Some (v, r) ->
            flate.take_bits m r = Some (v', r') ->
            flate.take_bits (n + m) a = Some (v + 2 ^ Z.of_nat n * v', r')) as A.
  { induction n as [| n IH]; intros m a v v' r0 r' E1 E2.
    - cbn in E1. inversion E1; subst. cbn [Nat.add]. rewrite E2.
      f_equal. f_equal. change (2 ^ Z.of_nat 0) with 1. lia.
    - cbn [Nat.add flate.take_bits] in *.
      destruct a as [| x a]; [discriminate |].
      destruct (flate.take_bits n a) as [[w rw] |] eqn:E; [| discriminate].
      injection E1 as Ev Er. subst v r0.
      rewrite (IH m a w v' rw r' E E2).
      f_equal. f_equal. rewrite Nat2Z.inj_succ, Z.pow_succ_r by lia.
      change (match w with
              | 0 => 0
              | Z.pos y' => Z.pos y'~0
              | Z.neg y' => Z.neg y'~0
              end) with (2 * w).
      ring. }
  unfold flate.bits_of_bytes. cbn [flat_map]. rewrite app_nil_r.
  rewrite <- !app_assoc.
  pose proof (take_bits_byte b3 r H3) as E3.
  pose proof (take_bits_byte b2 (flate.bits_of_byte b3 ++ r) H2) as E2.
  pose proof (take_bits_byte b1
                (flate.bits_of_byte b2 ++ flate.bits_of_byte b3 ++ r) H1) as E1.
  pose proof (take_bits_byte b0
                (flate.bits_of_byte b1 ++ flate.bits_of_byte b2
                 ++ flate.bits_of_byte b3 ++ r) H0) as E0.
  pose proof (A 8%nat 8%nat _ _ _ _ _ E2 E3) as E23.
  pose proof (A 8%nat 16%nat _ _ _ _ _ E1 E23) as E123.
  pose proof (A 8%nat 24%nat _ _ _ _ _ E0 E123) as E0123.
  change (8 + 24)%nat with 32%nat in E0123.
  rewrite E0123. f_equal. f_equal.
  change (2 ^ Z.of_nat 8) with 256. lia.
Qed.

Lemma le16_bytes :
  forall n, 0 <= n <= 65535 ->
    0 <= to_byte n < 256 /\ 0 <= to_byte (Z.shiftr n 8) < 256
    /\ to_byte n + 256 * to_byte (Z.shiftr n 8) = n.
Proof.
  intros n Hn. unfold to_byte. rewrite Z.shiftr_div_pow2 by lia.
  change (2 ^ 8) with 256.
  Z.to_euclidean_division_equations. lia.
Qed.

Lemma run_storedBlock :
  forall (final : bool) data rest fuel rout,
    bytes data -> len data <= 65535 ->
    flate.run (S fuel) flate.nextBlock
      (flate.bits_of_bytes (storedBlock final data ++ rest)) rout
    = if final then Some (rev data ++ rout, None)
      else flate.run fuel flate.nextBlock (flate.bits_of_bytes rest)
             (rev data ++ rout).
Proof.
  intros final data rest fuel rout Hb Hl.
  assert (0 <= len data) as Hpos by (unfold len; lia).
  unfold storedBlock. cbv zeta.
  set (n := len data) in *.
  destruct (le16_bytes n) as (A0 & A1 & A2); [lia |].
  destruct (le16_bytes (65535 - n)) as (C0 & C1 & C2); [lia |].
  set (l0 := to_byte n) in *. set (l1 := to_byte (Z.shiftr n 8)) in *.
  set (n0 := to_byte (65535 - n)) in *.
  set (n1 := to_byte (Z.shiftr (65535 - n) 8)) in *.
  change ([Z.b2z final; l0; l1; n0; n1] ++ data)
    with ([Z.b2z final] ++ [l0; l1; n0; n1] ++ data).
  rewrite <- !app_assoc. rewrite !bits_of_bytes_app.
  set (R := flate.bits_of_bytes [l0; l1; n0; n1]
            ++ flate.bits_of_bytes data ++ flate.bits_of_bytes rest).
  assert (length R mod 8 = 0)%nat as HR.
  { subst R. rewrite !length_app, !bits_of_bytes_length.
    rewrite <- !Nat.mul_add_distr_l. rewrite Nat.mul_comm.
    apply Nat.Div0.mod_mul. }
  cbn [flate.run].
  assert (flate.take_bits 3 (flate.bits_of_bytes [Z.b2z final] ++ R)
          = Some (Z.b2z final, repeat false 5 ++ R)) as ->
    by (destruct final; reflexivity).
  assert (Z.odd (Z.b2z final) = final) as -> by (destruct final; reflexivity).
  assert ((Z.shiftr (Z.b2z final) 1 =? 0) = true) as ->
    by (destruct final; reflexivity).
  assert (skipn (length (repeat false 5 ++ R) mod 8) (repeat false 5 ++ R) = R)
    as ->.
  { rewrite length_app, repeat_length.
    rewrite Nat.Div0.add_mod, HR. cbn [Nat.add Nat.modulo].
    change ((5 mod 8 + 0) mod 8)%nat with 5%nat. reflexivity. }
  subst R. rewrite take_bits_32 by assumption.
  set (v := l0 + 256 * l1 + 65536 * n0 + 16777216 * n1).
  assert (v = n + 65536 * (65535 - n)) as Ev by (subst v; lia).
  assert (Z.land v 0xFFFF = n) as ->.
  { change 0xFFFF with (Z.ones 16). rewrite Z.land_ones by lia.
    rewrite Ev. change (2 ^ 16) with 65536.
    Z.to_euclidean_division_equations. lia. }
  assert (Z.shiftr v 16 = 65535 - n) as ->.
  { rewrite Z.shiftr_div_pow2 by lia. rewrite Ev. change (2 ^ 16) with 65536.
    Z.to_euclidean_division_equations. lia. }
  rewrite lxor_complement by lia. rewrite Z.eqb_refl. cbn [negb].
  subst n. unfold len. rewrite Nat2Z.id.
  rewrite take_bytes_bytes by exact Hb.
  reflexivity.
Qed.

Lemma run_storedStream :
  forall blocks rest fuel rout,
    blocks <> [] -> Forall storable blocks ->
    (length blocks <= fuel)%nat ->
    flate.run fuel flate.nextBlock
      (flate.bits_of_bytes (storedStream blocks ++ rest)) rout
    = Some (rev (concat blocks) ++ rout, None).
Proof.
  induction blocks as [| d blocks IH]; intros rest fuel rout Hne Hs Hf;
    [congruence |].
  inversion Hs as [| ? ? [Hb Hl] Hs']; subst.
  destruct fuel as [| fuel]; [simpl in Hf; lia |].
  destruct blocks as [| d' blocks].
  - cbn [storedStream concat]. rewrite app_nil_r.
    rewrite run_storedBlock by assumption. reflexivity.
  - change (storedStream (d :: d' :: blocks))
      with (storedBlock false d ++ storedStream (d' :: blocks)).
    rewrite <- app_assoc.
    rewrite run_storedBlock by assumption.
    rewrite IH; [| discriminate | exact Hs' | simpl in *; lia].
    cbn [concat]. rewrite !rev_app_distr, <- !app_assoc. reflexivity.
Qed.

Lemma storedStream_length :
  forall blocks, (length blocks <= length (storedStream blocks))%nat.
Proof.
  induction blocks as [| d blocks IH]; [simpl; lia |].
  destruct blocks as [| d' blocks].
  - cbn. lia.
  - change (storedStream (d :: d' :: blocks))
      with (storedBlock false d ++ storedStream (d' :: blocks)).
    rewrite length_app. unfold storedBlock at 1. cbn [length app] in *. lia.
Qed.

(** Decompress inflates a stream of stored blocks that ends with a final
    block: the data of the blocks comes back, and the four bytes Decompress
    appends are not read. *)
Theorem Decompress_stored_stream :
  forall cm blocks,
    blocks <> [] -> Forall storable blocks ->
    Decompress cm (storedStream blocks) = Ok (concat blocks).
Proof.
  intros cm blocks Hne Hs. unfold Decompress, flate.ReadAll.
  rewrite run_storedStream; try assumption.
  - rewrite app_nil_r, rev_involutive. reflexivity.
  - rewrite bits_of_bytes_length, length_app.
    pose proof (storedStream_length blocks). lia.
Qed.

Lemma Decompress_stored_stream_witness :
  let cm := newCompressionManager 256 in
  storedStream [[0x48; 0x65]; []; [0x6c; 0x6c; 0x6f]]
  = [0x00; 0x02; 0x00; 0xfd; 0xff; 0x48; 0x65;
     0x00; 0x00; 0x00; 0xff; 0xff;
     0x01; 0x03; 0x00; 0xfc; 0xff; 0x6c; 0x6c; 0x6f]
  /\ Decompress cm (storedStream [[0x48; 0x65]; []; [0x6c; 0x6c; 0x6f]])
     = Ok [0x48; 0x65; 0x6c; 0x6c; 0x6f].
Proof.
  cbv zeta. split; [reflexivity |].
  apply (Decompress_stored_stream (newCompressionManager 256)
           [[0x48; 0x65]; []; [0x6c; 0x6c; 0x6f]]).
  - discriminate.
  - repeat constructor; unfold is_byte; try lia; vm_compute; discriminate.
Defined.

(** *** Metrics *)

Lemma wrap64_range :
  forall z, -9223372036854775808 <= wrap64 z < 9223372036854775808.
Proof.
  intros z. unfold wrap64.
  pose proof (Z.mod_pos_bound (z + 9223372036854775808) 18446744073709551616).
  lia.
Qed.

Lemma wrap64_congr :
  forall a b k, a = b + k * 18446744073709551616 -> wrap64 a = wrap64 b.
Proof.
  intros a b k ->. unfold wrap64.
  replace (b + k * 18446744073709551616 + 9223372036854775808)
    with (b + 9223372036854775808 + k * 18446744073709551616) by lia.
  rewrite Z.mod_add by lia. reflexivity.
Qed.

Lemma wrap64_mod :
  forall z, exists k, wrap64 z = z + k * 18446744073709551616.
Proof.
  intros z. unfold wrap64.
  exists (- ((z + 9223372036854775808) / 18446744073709551616)).
  pose proof (Z.div_mod (z + 9223372036854775808) 18446744073709551616).
  lia.
Qed.

Lemma run_snoc :
  forall cs c, metrics.run (cs ++ [c]) = metrics.step (metrics.run cs) c.
Proof. intros. unfold metrics.run. rewrite fold_left_app. reflexivity. Qed.

(** The number of open connections is the number of connections made less
    the number of connections closed, in 64-bit arithmetic, after any run of
    calls on a new Metrics. *)
Theorem active_connections_balance :
  forall cs : list metrics.call,
    let m := metrics.run cs in
    metrics.ActiveConnections m
    = wrap64 (metrics.TotalConnections m - metrics.ClosedConnections m).
Proof.
  intros cs. cbv zeta.
  assert (exists k,
            metrics.ActiveConnections (metrics.run cs)
            = metrics.TotalConnections (metrics.run cs)
              - metrics.ClosedConnections (metrics.run cs)
              + k * 18446744073709551616
            /\ -9223372036854775808
               <= metrics.ActiveConnections (metrics.run cs)
               < 9223372036854775808) as [k [Hk Hr]].
  { induction cs as [| c cs IH] using rev_ind.
    - exists 0. cbn. lia.
    - rewrite run_snoc. destruct IH as [k [Hk Hr]].
      destruct c; cbn [metrics.step]; try (exists k; split; assumption).
      + unfold metrics.RecordConnection.
        cbn [metrics.ActiveConnections metrics.TotalConnections
             metrics.ClosedConnections]. unfold add64.
        destruct (wrap64_mod (metrics.ActiveConnections (metrics.run cs) + 1))
          as [k1 E1].
        destruct (wrap64_mod (metrics.TotalConnections (metrics.run cs) + 1))
          as [k2 E2].
        exists (k + k1 - k2). split; [lia | apply wrap64_range].
      + unfold metrics.RecordDisconnection.
        cbn [metrics.ActiveConnections metrics.TotalConnections
             metrics.ClosedConnections]. unfold add64.
        destruct (wrap64_mod (metrics.ActiveConnections (metrics.run cs) + -1))
          as [k1 E1].
        destruct (wrap64_mod (metrics.ClosedConnections (metrics.run cs) + 1))
          as [k2 E2].
        exists (k + k1 + k2). split; [lia | apply wrap64_range]. }
  rewrite <- (wrap64_small (metrics.ActiveConnections (metrics.run cs)) Hr)
    at 1.
  apply (wrap64_congr _ _ k). exact Hk.
Qed.

Lemma readLatencies_snoc :
  forall cs c,
    metrics.readLatencies (cs ++ [c])
    = metrics.readLatencies cs
      ++ match c with
         | metrics.CallRecordRead _ l => [l]
         | _ => []
         end.
Proof.
  intros. unfold metrics.readLatencies. rewrite flat_map_app. cbn.
  rewrite app_nil_r. reflexivity.
Qed.

Lemma sum_bounds :
  forall (l : list Z) lo hi,
    Forall (fun x => lo <= x <= hi) l ->
    Z.of_nat (length l) * lo <= fold_right Z.add 0 l
    <= Z.of_nat (length l) * hi.
Proof.
  induction l as [| x l IH]; intros lo hi H.
  - cbn. lia.
  - inversion H; subst. specialize (IH lo hi H3).
    cbn [length fold_right]. rewrite Nat2Z.inj_succ. lia.
Qed.

Lemma add64_wrap64 :
  forall a b, add64 (wrap64 a) b = wrap64 (a + b).
Proof.
  intros a b. unfold add64. destruct (wrap64_mod a) as [k E].
  apply (wrap64_congr _ _ k). lia.
Qed.

Lemma read_counters_wrap :
  forall cs,
    metrics.MessagesRead (metrics.run cs)
    = wrap64 (Z.of_nat (length (metrics.readLatencies cs)))
    /\ metrics.ReadLatency (metrics.run cs)
       = wrap64 (fold_right Z.add 0 (metrics.readLatencies cs)).
Proof.
  induction cs as [| c cs [E1 E2]] using rev_ind.
  - split; reflexivity.
  - rewrite run_snoc, readLatencies_snoc.
    destruct c; cbn [metrics.step]; try (rewrite app_nil_r; split; assumption).
    unfold metrics.RecordRead.
    cbn [metrics.MessagesRead metrics.ReadLatency].
    rewrite E1, E2, !add64_wrap64. rewrite length_app. cbn [length].
    split; [f_equal; lia |]. f_equal.
    rewrite fold_right_app. cbn [fold_right].
    clear. generalize (metrics.readLatencies cs) as l.
    induction l as [| x l IHl]; cbn [fold_right]; [ring | rewrite <- IHl; ring].
Qed.

(** The average read latency of a snapshot is the sum of the latencies given
    to RecordRead divided by their number, rounded toward zero, and lies
    between the smallest and the largest of them, as long as the sum fits 64
    bits (sums that overflow on the way do no harm) and fewer than 2^63 reads
    were recorded; it is zero when nothing was read (no division by
    zero). *)
Theorem average_read_latency_bounds :
  forall cs lo hi,
    Forall (fun x => lo <= x <= hi) (metrics.readLatencies cs) ->
    let n := Z.of_nat (length (metrics.readLatencies cs)) in
    let sum := fold_right Z.add 0 (metrics.readLatencies cs) in
    n < 9223372036854775808 ->
    -9223372036854775808 <= sum < 9223372036854775808 ->
    let avg := metrics.AvgReadLatency (metrics.GetSnapshot (metrics.run cs)) in
    (n = 0 -> avg = 0)
    /\ (0 < n -> avg = Z.quot sum n /\ lo <= avg <= hi).
Proof.
  intros cs lo hi Hf n sum Hn Hsum avg.
  destruct (read_counters_wrap cs) as [E1 E2].
  fold n in E1. fold sum in E2.
  rewrite wrap64_small in E1 by (subst n; lia).
  rewrite wrap64_small in E2 by exact Hsum.
  pose proof (sum_bounds _ lo hi Hf) as Hs. fold n sum in Hs.
  subst avg. unfold metrics.GetSnapshot. cbn [metrics.AvgReadLatency].
  rewrite E1, E2.
  split.
  - intros ->. reflexivity.
  - intros Hpos.
    replace (n >? 0) with true by (symmetry; apply Z.gtb_lt; exact Hpos).
    split; [reflexivity |].
    pose proof (Z.quot_rem' sum n) as Hq.
    destruct (Z_le_gt_dec 0 sum) as [Hs0 | Hs0].
    + pose proof (Z.rem_bound_pos sum n Hs0 Hpos). nia.
    + assert (sum <= 0) as Hneg by lia.
      pose proof (Z.rem_bound_pos_neg sum n Hpos Hneg). nia.
Qed.

Lemma average_read_latency_bounds_witness :
  let big := 4611686018427387904 in
  let cs := [metrics.CallRecordRead 10 big; metrics.CallRecordConnection;
             metrics.CallRecordRead 20 big; metrics.CallRecordRead 5 (- big)] in
  metrics.readLatencies cs = [big; big; - big]
  /\ metrics.ReadLatency
       (metrics.run [metrics.CallRecordRead 10 big;
                     metrics.CallRecordRead 20 big]) = -9223372036854775808
  /\ metrics.AvgReadLatency (metrics.GetSnapshot (metrics.run cs))
     = 1537228672809129301
  /\ - big <= metrics.AvgReadLatency (metrics.GetSnapshot (metrics.run cs))
     <= big.
Proof.
  cbv zeta. split; [reflexivity |]. split; [reflexivity |].
  split; [reflexivity |].
  apply (average_read_latency_bounds
           [metrics.CallRecordRead 10 4611686018427387904;
            metrics.CallRecordConnection;
            metrics.CallRecordRead 20 4611686018427387904;
            metrics.CallRecordRead 5 (- 4611686018427387904)]
           (- 4611686018427387904) 4611686018427387904).
  - repeat constructor; lia.
  - vm_compute. reflexivity.
  - vm_compute. split; [discriminate | reflexivity].
  - vm_compute. reflexivity.
Defined.

(** *** The reconnection loop *)

Section ReconnectFacts.

Variable World : Type.
Variable nextDelay : reconnect.reconnector -> World -> Z * World.
Variable ctxErr : World -> option reconnect.goError.
Variable wait : World -> Z -> option reconnect.goError * World.
Variable dialFn : World -> option reconnect.goError * World.
Variable now : World -> Z.

Lemma dials_log :
  forall r e,
    reconnect.dials (reconnect.events (reconnect.log r e))
    = reconnect.dials (reconnect.events r)
      + match e with reconnect.Dialed _ => 1 | _ => 0 end.
Proof.
  intros r e. unfold reconnect.dials, reconnect.log.
  cbn [reconnect.events]. rewrite filter_app, length_app.
  destruct e; cbn; lia.
Qed.

Lemma attempt_spec :
  forall r w,
    let '(res, r', w') := reconnect.attempt World nextDelay wait dialFn now r w in
    reconnect.config r' = reconnect.config r
    /\ reconnect.attempts r' = add64 (reconnect.attempts r) 1
    /\ reconnect.dials (reconnect.events r)
       <= reconnect.dials (reconnect.events r')
       <= reconnect.dials (reconnect.events r) + 1.
Proof.
  intros r w. unfold reconnect.attempt.
  set (r1 := reconnect.with_attempts r (add64 (reconnect.attempts r) 1)).
  destruct (nextDelay r1 w) as [delay w1].
  set (r2 := if reconnect.OnReconnecting (reconnect.config r1)
             then reconnect.log r1 (reconnect.Reconnecting
                                      (reconnect.attempts r1) delay)
             else r1).
  assert (reconnect.config r2 = reconnect.config r
          /\ reconnect.attempts r2 = add64 (reconnect.attempts r) 1
          /\ reconnect.dials (reconnect.events r2)
             = reconnect.dials (reconnect.events r)) as (A & B & C).
  { subst r2 r1. destruct (reconnect.OnReconnecting _);
      [rewrite dials_log |]; cbn; repeat split; lia. }
  destruct (wait w1 delay) as [[e |] w2].
  - repeat split; try assumption; lia.
  - set (r3 := reconnect.log r2 (reconnect.Dialed (reconnect.attempts r2))).
    assert (reconnect.config r3 = reconnect.config r
            /\ reconnect.attempts r3 = add64 (reconnect.attempts r) 1
            /\ reconnect.dials (reconnect.events r3)
               = reconnect.dials (reconnect.events r) + 1) as (A3 & B3 & C3).
    { subst r3. rewrite dials_log. cbn. repeat split; try assumption. lia. }
    clearbody r3. clear r2 A B C.
    destruct (dialFn w2) as [[err |] w3].
    + destruct (reconnect.OnReconnectFailed (reconnect.config r3)).
      * rewrite dials_log. cbn [reconnect.log reconnect.config
                                reconnect.attempts].
        repeat split; try assumption; lia.
      * repeat split; try assumption; lia.
    + destruct (reconnect.OnReconnected (reconnect.config r3));
        cbn [reconnect.config reconnect.attempts reconnect.events].
      * pose proof (dials_log r3 (reconnect.Reconnected
                                    (reconnect.attempts r3))) as D.
        cbn [reconnect.log reconnect.events reconnect.config
             reconnect.attempts] in *.
        repeat split; try assumption; lia.
      * repeat split; try assumption; lia.
Qed.

Lemma reconnectLoop_bounded :
  forall (k : nat) r w,
    0 < reconnect.MaxAttempts (reconnect.config r) < 9223372036854775808 ->
    0 <= reconnect.attempts r <= reconnect.MaxAttempts (reconnect.config r) ->
    reconnect.MaxAttempts (reconnect.config r) - reconnect.attempts r
    <= Z.of_nat k ->
    exists res r' w',
      reconnect.reconnectLoop World nextDelay ctxErr wait dialFn now (S k) r w
      = Some (res, r', w')
      /\ reconnect.config r' = reconnect.config r
      /\ reconnect.attempts r <= reconnect.attempts r'
         <= reconnect.MaxAttempts (reconnect.config r)
      /\ reconnect.dials (reconnect.events r')
         - reconnect.dials (reconnect.events r)
         <= reconnect.attempts r' - reconnect.attempts r.
Proof.
  induction k as [| k IH]; intros r w Hmax Hatt Hk.
  - assert (reconnect.attempts r = reconnect.MaxAttempts (reconnect.config r))
      as E by lia.
    cbn [reconnect.reconnectLoop].
    destruct (ctxErr w) as [e |].
    + exists (Some e), r, w. repeat split; lia.
    + assert (reconnect.shouldReconnect r None = false) as ->.
      { unfold reconnect.shouldReconnect.
        destruct (reconnect.Enabled (reconnect.config r)); [| reflexivity].
        cbn [negb]. rewrite E.
        replace (reconnect.MaxAttempts (reconnect.config r) >? 0) with true
          by (symmetry; apply Z.gtb_lt; lia).
        replace (reconnect.MaxAttempts (reconnect.config r)
                 >=? reconnect.MaxAttempts (reconnect.config r)) with true
          by (symmetry; apply Z.geb_le; lia).
        reflexivity. }
      exists (Some reconnect.ErrReconnectFailed), r, w. repeat split; lia.
  - cbn [reconnect.reconnectLoop].
    destruct (ctxErr w) as [e |].
    { exists (Some e), r, w. repeat split; lia. }
    destruct (negb (reconnect.shouldReconnect r None)) eqn:Hs.
    { exists (Some reconnect.ErrReconnectFailed), r, w. repeat split; lia. }
    assert (reconnect.attempts r < reconnect.MaxAttempts (reconnect.config r))
      as Hlt.
    { apply negb_false_iff in Hs. unfold reconnect.shouldReconnect in Hs.
      destruct (reconnect.Enabled (reconnect.config r)); [| discriminate].
      cbn [negb] in Hs.
      replace (reconnect.MaxAttempts (reconnect.config r) >? 0) with true in Hs
        by (symmetry; apply Z.gtb_lt; lia).
      cbn [andb] in Hs.
      destruct (Z.geb_spec (reconnect.attempts r)
                  (reconnect.MaxAttempts (reconnect.config r)));
        [discriminate | lia]. }
    pose proof (attempt_spec r w) as Ha.
    destruct (reconnect.attempt World nextDelay wait dialFn now r w)
      as [[res r1] w1].
    destruct Ha as (A & B & C).
    unfold add64 in B. rewrite wrap64_small in B by lia.
    assert (reconnect.dials (reconnect.events r1)
            - reconnect.dials (reconnect.events r) <= 1) as C' by lia.
    destruct res as [err |].
    + destruct (negb (reconnect.shouldReconnect r1 (Some err))).
      * exists (Some reconnect.ErrReconnectFailed), r1, w1.
        repeat split; try assumption; lia.
      * destruct (IH r1 w1) as (res' & r' & w' & E & A' & B' & C'');
          try (rewrite A; lia).
        exists res', r', w'. rewrite A in *.
        repeat split; try assumption; try congruence; lia.
    + exists None, r1, w1. repeat split; try assumption; lia.
Qed.

End ReconnectFacts.

(** With a positive MaxAttempts the reconnection loop ends, whatever the
    context, the timer and the dial function do: it makes no more dial
    attempts than are left up to MaxAttempts, and the attempt counter never
    goes past MaxAttempts. *)
Theorem reconnectLoop_stops_at_MaxAttempts :
  forall (World : Type) nextDelay ctxErr wait dialFn now
         (r : reconnect.reconnector) (w : World),
    0 < reconnect.MaxAttempts (reconnect.config r) < 9223372036854775808 ->
    0 <= reconnect.attempts r <= reconnect.MaxAttempts (reconnect.config r) ->
    let left := reconnect.MaxAttempts (reconnect.config r)
                - reconnect.attempts r in
    exists res r' w',
      reconnect.reconnectLoop World nextDelay ctxErr wait dialFn now
        (S (Z.to_nat left)) r w = Some (res, r', w')
      /\ reconnect.attempts r <= reconnect.attempts r'
         <= reconnect.MaxAttempts (reconnect.config r)
      /\ reconnect.dials (reconnect.events r')
         - reconnect.dials (reconnect.events r) <= left.
Proof.
  intros World nextDelay ctxErr wait dialFn now r w Hmax Hatt left.
  destruct (reconnectLoop_bounded World nextDelay ctxErr wait dialFn now
              (Z.to_nat left) r w Hmax Hatt)
    as (res & r' & w' & E & A & B & C); [subst left; lia |].
  exists res, r', w'. repeat split; try assumption; try lia.
Qed.

Lemma reconnectLoop_stops_at_MaxAttempts_witness :
  let cfg := reconnect.mkReconnectConfig true 3 60000000000 false false true
               None in
  let r := reconnect.mkReconnector cfg 0 None [] in
  let nextDelay := fun (_ : reconnect.reconnector) (w : nat) => (1000, w) in
  let ctxErr := fun _ : nat => @None reconnect.goError in
  let wait := fun (w : nat) (_ : Z) => (@None reconnect.goError, w) in
  let dialFn := fun w : nat =>
                  (Some (reconnect.OtherError ErrConnectionClosed), S w) in
  let now := fun _ : nat => 0 in
  reconnect.reconnectLoop nat nextDelay ctxErr wait dialFn now 4 r 0%nat
  = Some (Some reconnect.ErrReconnectFailed,
          reconnect.mkReconnector cfg 3 None
            [reconnect.Dialed 1;
             reconnect.ReconnectFailed 1
               (reconnect.OtherError ErrConnectionClosed);
             reconnect.Dialed 2;
             reconnect.ReconnectFailed 2
               (reconnect.OtherError ErrConnectionClosed);
             reconnect.Dialed 3;
             reconnect.ReconnectFailed 3
               (reconnect.OtherError ErrConnectionClosed)], 3%nat)
  /\ exists res r' w',
      reconnect.reconnectLoop nat nextDelay ctxErr wait dialFn now
        (S (Z.to_nat (3 - 0))) r 0%nat = Some (res, r', w')
      /\ reconnect.attempts r <= reconnect.attempts r'
         <= reconnect.MaxAttempts (reconnect.config r)
      /\ reconnect.dials (reconnect.events r')
         - reconnect.dials (reconnect.events r) <= 3 - 0.
Proof.
  cbv zeta. split; [reflexivity |].
  apply (reconnectLoop_stops_at_MaxAttempts nat
           (fun (_ : reconnect.reconnector) (w : nat) => (1000, w))
           (fun _ : nat => @None reconnect.goError)
           (fun (w : nat) (_ : Z) => (@None reconnect.goError, w))
           (fun w : nat =>
              (Some (reconnect.OtherError ErrConnectionClosed), S w))
           (fun _ : nat => 0)
           (reconnect.mkReconnector
              (reconnect.mkReconnectConfig true 3 60000000000 false false
                 true None) 0 None []) 0%nat).
  - cbn. lia.
  - cbn. lia.
Defined.

(** *** Handshake keys *)

Lemma string_of_bytes_length :
  forall l, String.length (string_of_bytes l) = length l.
Proof.
  intros l. unfold string_of_bytes.
  induction l as [| b l IH]; [reflexivity |].
  cbn [map string_of_list_ascii String.length]. rewrite IH. reflexivity.
Qed.

Lemma Encode_length :
  forall fuel src, (length src < fuel)%nat ->
    length (base64.Encode fuel src) = (4 * ((length src + 2) / 3))%nat.
Proof.
  induction fuel as [| fuel IH]; intros src H; [lia |].
  destruct src as [| a [| b [| c rest]]]; try reflexivity.
  cbn [base64.Encode length].
  rewrite IH by (simpl in H; lia).
  replace (S (S (S (length rest))) + 2)%nat with (length rest + 2 + 1 * 3)%nat
    by lia.
  rewrite Nat.div_add by lia. lia.
Qed.

Lemma Encode_last :
  forall fuel src, (length src < fuel)%nat -> (length src mod 3 <> 0)%nat ->
    last (base64.Encode fuel src) 0 = 61.
Proof.
  induction fuel as [| fuel IH]; intros src H Hm; [lia |].
  destruct src as [| a [| b [| c rest]]]; try reflexivity.
  - cbn in Hm. congruence.
  - cbn [base64.Encode].
    assert (length rest mod 3 <> 0)%nat as Hm'.
    { cbn [length] in Hm.
      replace (S (S (S (length rest)))) with (length rest + 1 * 3)%nat in Hm
        by lia.
      rewrite Nat.Div0.mod_add in Hm. exact Hm. }
    assert (base64.Encode fuel rest <> []) as Hne.
    { destruct fuel; [simpl in H; lia |].
      destruct rest as [| x [| y [| z r]]]; cbn; try discriminate.
      cbn in Hm'. congruence. }
    specialize (IH rest ltac:(simpl in H; lia) Hm').
    destruct (base64.Encode fuel rest) as [| e es] eqn:E; [congruence |].
    cbn [last]. exact IH.
Qed.

Lemma blocks_length :
  forall n hh p, length hh = 5%nat -> length (sha1.blocks n hh p) = 5%nat.
Proof.
  induction n as [| n IH]; intros hh p H; [exact H |].
  cbn [sha1.blocks]. apply IH. unfold sha1.block1.
  destruct (sha1.rounds _ _ _) as [[[[a b] c] d] e]. reflexivity.
Qed.

Lemma SHA1_length : forall m, length (sha1.SHA1 m) = 20%nat.
Proof.
  intros m. unfold sha1.SHA1, sha1.blockGeneric.
  pose proof (blocks_length
                (length (m ++ sha1.padding (to_uint64 (Z.of_nat (length m))))
                 / sha1.chunk) sha1.init
                (m ++ sha1.padding (to_uint64 (Z.of_nat (length m))))
                eq_refl) as H.
  destruct (sha1.blocks _ _ _) as [| h0 [| h1 [| h2 [| h3 [| h4 [| ? ?]]]]]];
    try discriminate.
  reflexivity.
Qed.

(** The keys of the handshake have a fixed shape: the accept key computed
    from any key is 28 characters long, the key a client generates from
    sixteen random bytes is 24 characters long, and both end with the base64
    padding character. *)
Theorem handshake_keys_have_fixed_length :
  forall (key : string) (random : list Z),
    (16 <= length random)%nat ->
    (String.length (computeAcceptKey key) = 28%nat
     /\ String.get 27 (computeAcceptKey key) = Some "="%char)
    /\ exists k,
         generateWebSocketKey (Ok random) = Ok k
         /\ String.length k = 24%nat
         /\ String.get 23 k = Some "="%char.
Proof.
  intros key random H. split.
  - unfold computeAcceptKey. cbv zeta.
    rewrite Sum_is_SHA1.
    set (m := bytes_of_string key ++ bytes_of_string websocketGUID).
    pose proof (SHA1_length m) as L.
    unfold base64.EncodeToString.
    rewrite string_of_bytes_length.
    pose proof (Encode_length (S (length (sha1.SHA1 m))) (sha1.SHA1 m)
                  ltac:(lia)) as EL.
    pose proof (Encode_last (S (length (sha1.SHA1 m))) (sha1.SHA1 m)
                  ltac:(lia)) as ELast.
    rewrite L in *. change (4 * ((20 + 2) / 3))%nat with 28%nat in EL.
    specialize (ELast ltac:(cbn; discriminate)).
    split; [exact EL |].
    destruct (base64.Encode 21 (sha1.SHA1 m))
      as [| c0 [| c1 [| c2 [| c3 [| c4 [| c5 [| c6 [| c7 [| c8 [| c9
         [| c10 [| c11 [| c12 [| c13 [| c14 [| c15 [| c16 [| c17 [| c18
         [| c19 [| c20 [| c21 [| c22 [| c23 [| c24 [| c25 [| c26 [| c27
         [| ? ?]]]]]]]]]]]]]]]]]]]]]]]]]]]]];
      try discriminate.
    cbn [last] in ELast. subst c27. reflexivity.
  - eexists. split; [reflexivity |].
    unfold base64.EncodeToString. rewrite string_of_bytes_length.
    assert (length (firstn 16 random) = 16%nat) as L
      by (rewrite length_firstn; lia).
    pose proof (Encode_length (S (length (firstn 16 random)))
                  (firstn 16 random) ltac:(lia)) as EL.
    pose proof (Encode_last (S (length (firstn 16 random)))
                  (firstn 16 random) ltac:(lia)) as ELast.
    rewrite L in *. change (4 * ((16 + 2) / 3))%nat with 24%nat in EL.
    specialize (ELast ltac:(cbn; discriminate)).
    split; [exact EL |].
    destruct (base64.Encode 17 (firstn 16 random))
      as [| c0 [| c1 [| c2 [| c3 [| c4 [| c5 [| c6 [| c7 [| c8 [| c9
         [| c10 [| c11 [| c12 [| c13 [| c14 [| c15 [| c16 [| c17 [| c18
         [| c19 [| c20 [| c21 [| c22 [| c23 [| ? ?]]]]]]]]]]]]]]]]]]]]]]]]];
      try discriminate.
    cbn [last] in ELast. subst c23. reflexivity.
Qed.

Lemma handshake_keys_have_fixed_length_witness :
  let key := "dGhlIHNhbXBsZSBub25jZQ=="%string in
  let random := bytes_of_string "the sample nonce" in
  generateWebSocketKey (Ok random) = Ok key
  /\ (String.length (computeAcceptKey key) = 28%nat
      /\ String.get 27 (computeAcceptKey key) = Some "="%char)
  /\ exists k,
       generateWebSocketKey (Ok random) = Ok k
       /\ String.length k = 24%nat
       /\ String.get 23 k = Some "="%char.
Proof.
  cbv zeta. split; [vm_compute; reflexivity |].
  apply (handshake_keys_have_fixed_length "dGhlIHNhbXBsZSBub25jZQ=="
           (bytes_of_string "the sample nonce")).
  vm_compute. lia.
Defined.

(** *** Frames with an opcode that is not assigned *)



